(** * onecopy: batch copy engine and elevated helper

    A shallow embedding of [onecopy/io.py], [onecopy/utils.py],
    [onecopy/elevated_copy.py] and of the manifest built by
    [MainWindow._run_elevated_batch], followed by the properties of the
    batch summary, the aggregate progress stream, the fail-fast size
    pre-pass, the helper's exit protocol, the manifest round trip and the
    write probe.

    Modelling conventions.
    - Python values that cross the JSON boundary are [pyval]s; Python [int]
      is [Z]; [str] is [string] (code points below 256); [bytes] is
      [list byte]; a [float] is known by the text [json.dumps] writes for
      it.  The manifest, whose texts are the paths the user chose, is also
      encoded and decoded on full strings (lists of code points), in
      [Unicode].
    - Python code runs in the monad [M]: it threads a [world] (file system,
      umask, trace of performed operations, standard output) and either
      returns a value or raises an [exn].  Effects made before an exception
      stay in the world.
    - The file system is a finite map from absolute paths (lists of
      components, the working directory being the root) to nodes.  Access
      is decided with the owner permission bits of a node or of its
      directory: the process is taken to be the unprivileged owner of
      every node.  Symbolic links, [..] components, the search permission
      of directories, the limits on the length of names, quotas and full
      disks are not modelled: the system calls of the model are those of
      the system on the plain worlds and plain paths ([plain_world],
      [plain]), which the theorems that state what a call returns
      assume.
    - [hashlib.new("sha256")] is a parameter of the development. *)

From stdpp Require Import gmap strings list fin_maps.
From Stdlib Require Import ZArith Lia.
From Stdlib.Strings Require Import Byte Ascii String.
From Stdlib Require Import DecimalString DecimalZ Sorted.
From Stdlib Require DecimalPos DecimalFacts.

Open Scope Z_scope.

(** ** Python values and exceptions *)

(** The values [json] produces and consumes.  A [dict] keeps insertion
    order, so it is an association list (keys are [str], as in JSON). *)
#[local] Unset Elimination Schemes.
Inductive pyval :=
| PNone
| PBool (b : bool)
| PInt (z : Z)
| PFloat (text : string)
| PStr (s : string)
| PList (l : list pyval)
| PDict (kvs : list (string * pyval)).
#[local] Set Elimination Schemes.

Definition path := list string.

Inductive exn :=
| FileNotFoundError (p : path)
| NotADirectoryError (p : path)
| IsADirectoryError (p : path)
| PermissionError (p : path)
| FileExistsError (p : path)
| KeyError (k : string)
| TypeError
| AttributeError
| JSONDecodeError
| RuntimeError (msg : string)
| SystemExit (code : Z).

(** [except Exception] catches everything but [SystemExit]. *)
Definition is_Exception (e : exn) : bool :=
  match e with SystemExit _ => false | _ => true end.

(** [except FileNotFoundError]. *)
Definition is_FileNotFoundError (e : exn) : bool :=
  match e with FileNotFoundError _ => true | _ => false end.

(** [except OSError]. *)
Definition is_OSError (e : exn) : bool :=
  match e with
  | FileNotFoundError _ | NotADirectoryError _ | IsADirectoryError _
  | PermissionError _ | FileExistsError _ => true
  | _ => false
  end.

(** ** The world *)

Inductive node :=
| File (mode : Z) (data : list byte)
| Dir (mode : Z).

(** Operations that were carried out, in order: system calls that
    succeeded and calls received by the caller's callbacks. *)
Inductive event :=
| EvMkdir (p : path)
| EvOpenR (p : path)
| EvOpenW (p : path)
| EvWrite (p : path) (buf : list byte)
| EvChmod (p : path) (mode : Z)
| EvUnlink (p : path)
| EvItemProgress (copied total : Z)
| EvProgress (agg_copied agg_total idx : Z) (name : string)
| EvFileDone (idx : Z) (result : pyval).

Record world := World {
  w_fs : gmap path node;
  w_umask : Z;
  w_trace : list event;
  w_stdout : string
}.

Definition set_fs (fs : gmap path node) (w : world) : world :=
  World fs (w_umask w) (w_trace w) (w_stdout w).

Definition emit (e : event) (w : world) : world :=
  World (w_fs w) (w_umask w) (w_trace w ++ [e]) (w_stdout w).

(** ** The monad of Python code *)

Inductive result (A : Type) :=
| Ok (a : A)
| Err (e : exn).
Arguments Ok {A} a.
Arguments Err {A} e.

Definition M (A : Type) : Type := world -> result A * world.

Definition ret {A} (a : A) : M A := fun w => (Ok a, w).

Definition raise {A} (e : exn) : M A := fun w => (Err e, w).

Definition bind {A B} (c : M A) (k : A -> M B) : M B :=
  fun w =>
    match c w with
    | (Ok a, w') => k a w'
    | (Err e, w') => (Err e, w')
    end.

(** [try: c  except <catches>: h]. *)
Definition try_except {A} (c : M A) (catches : exn -> bool) (h : exn -> M A)
  : M A :=
  fun w =>
    match c w with
    | (Ok a, w') => (Ok a, w')
    | (Err e, w') => if catches e then h e w' else (Err e, w')
    end.

Declare Scope py_scope.
Delimit Scope py_scope with py.
Notation "x <- c ;; k" := (bind c (fun x => k))
  (at level 100, c at next level, right associativity) : py_scope.
Notation "c ;;; k" := (bind c (fun _ => k))
  (at level 100, right associativity) : py_scope.
Open Scope py_scope.

(** A callback supplied by the caller of the engine: it receives the call
    (recorded in the trace) and may raise, as the workers' callbacks do on
    cancellation.  What it decides may depend on everything that happened
    so far. *)
Definition handler := list event -> option exn.

Definition observe (e : event) (h : handler) : M unit :=
  fun w =>
    let w' := emit e w in
    match h (w_trace w') with
    | Some x => (Err x, w')
    | None => (Ok tt, w')
    end.

(** ** pathlib and os *)

Definition S_IFREG : Z := 0x8000.   (* 0o100000 *)
Definition S_IFDIR : Z := 0x4000.   (* 0o040000 *)
Definition PERM_BITS : Z := 0xfff.  (* 0o7777 *)
Definition MODE_777 : Z := 0x1ff.   (* 0o777 *)
Definition MODE_666 : Z := 0x1b6.   (* 0o666 *)

(** Owner read and write permission. *)
Definition can_read (mode : Z) : bool := Z.testbit mode 8.
Definition can_write (mode : Z) : bool := Z.testbit mode 7.

(** The mode given to a node created with the requested [mode]. *)
Definition created_mode (mode : Z) (w : world) : Z :=
  Z.land mode (Z.lnot (w_umask w)).

(** [Path.parent], [Path.name], [p / name], [str(p)]. *)
Definition parent (p : path) : path := removelast p.
Definition name (p : path) : string := List.last p "".
Definition joinpath (p : path) (c : string) : path := p ++ [c].

Definition str_of_path (p : path) : string :=
  match p with
  | [] => "/"
  | _ => String.concat "" (List.map (fun c => String.append "/" c) p)
  end.

(** Splitting at ["/"]: [cur] is the component being read. *)
Fixpoint split_slash (cur : string) (s : string) : list string :=
  match s with
  | EmptyString => [cur]
  | String c s' =>
      if Ascii.eqb c "/" then cur :: split_slash "" s'
      else split_slash (String.append cur (String c "")) s'
  end.

(** [Path(s)] for a [str]: empty and ["."] components are dropped. *)
Definition Path_of_str (s : string) : path :=
  List.filter (fun c => negb (String.eqb c "" || String.eqb c "."))
    (split_slash "" s).

(** The root of [Path(s)]: two leading slashes are kept, three or more
    are one. *)
Definition posix_root (s : string) : string :=
  match s with
  | String "/" (String "/" (String "/" _)) => "/"
  | String "/" (String "/" _) => "//"
  | String "/" _ => "/"
  | _ => ""
  end.

(** [str(Path(s))]: the root and the components joined with ["/"], ["."]
    when there is neither. *)
Definition posix_str (s : string) : string :=
  let r := String.append (posix_root s) (String.concat "/" (Path_of_str s)) in
  if String.eqb r "" then "." else r.

(** [str(Path(v))] for the value [v] a path was made of. *)
Definition str_Path (v : pyval) : string :=
  match v with
  | PStr s => posix_str s
  | _ => ""
  end.

(** [Path(v)] for any value: only a [str] is accepted. *)
Definition Path (v : pyval) : M path :=
  match v with
  | PStr s => ret (Path_of_str s)
  | _ => raise TypeError
  end.

(** [os.stat_result], the two fields the code reads. *)
Record stat_result := Stat { st_mode : Z; st_size : Z }.

(** Size reported for a directory. *)
Definition DIR_SIZE : Z := 4096.

Definition stat_of (n : node) : stat_result :=
  match n with
  | File m d => Stat (Z.lor S_IFREG m) (Z.of_nat (List.length d))
  | Dir m => Stat (Z.lor S_IFDIR m) DIR_SIZE
  end.

(** [p.stat()]. *)
Definition path_stat (p : path) : M stat_result :=
  fun w =>
    match w_fs w !! p with
    | Some n => (Ok (stat_of n), w)
    | None => (Err (FileNotFoundError p), w)
    end.

(** [p.is_dir()]. *)
Definition path_is_dir (p : path) : M bool :=
  fun w =>
    match w_fs w !! p with
    | Some (Dir _) => (Ok true, w)
    | _ => (Ok false, w)
    end.

(** [os.mkdir(p, mode)]. *)
Definition os_mkdir (p : path) (mode : Z) : M unit :=
  fun w =>
    match w_fs w !! p with
    | Some _ => (Err (FileExistsError p), w)
    | None =>
        match w_fs w !! parent p with
        | None => (Err (FileNotFoundError p), w)
        | Some (File _ _) => (Err (NotADirectoryError p), w)
        | Some (Dir m) =>
            if can_write m
            then (Ok tt, emit (EvMkdir p)
                           (set_fs (<[p := Dir (created_mode mode w)]> (w_fs w)) w))
            else (Err (PermissionError p), w)
        end
    end.

(** [p.mkdir(parents=True, exist_ok=True)], as pathlib writes it; [n]
    bounds the recursion over the ancestors and is [List.length p] at the call. *)
Fixpoint path_mkdir (n : nat) (p : path) : M unit :=
  try_except (os_mkdir p MODE_777)
    is_OSError
    (fun e =>
       if is_FileNotFoundError e then
         if bool_decide (parent p = p) then raise e
         else
           match n with
           | O => raise e
           | S n' =>
               path_mkdir n' (parent p) ;;;
               try_except (os_mkdir p MODE_777) is_OSError
                 (fun e' =>
                    d <- path_is_dir p ;;
                    if d then ret tt else raise e')
           end
       else
         d <- path_is_dir p ;;
         if d then ret tt else raise e).

Definition path_mkdir_parents (p : path) : M unit :=
  path_mkdir (List.length p) p.

(** [open(p, "rb")]: the object only remembers which file it reads. *)
Record rfile := RFile { rf_path : path }.
Record wfile := WFile { wf_path : path }.

Definition open_rb (p : path) : M rfile :=
  fun w =>
    match w_fs w !! p with
    | None => (Err (FileNotFoundError p), w)
    | Some (Dir _) => (Err (IsADirectoryError p), w)
    | Some (File m _) =>
        if can_read m then (Ok (RFile p), emit (EvOpenR p) w)
        else (Err (PermissionError p), w)
    end.

(** [open(p, "wb")] and [open(p, "w")]: create or truncate. *)
Definition open_wb (p : path) : M wfile :=
  fun w =>
    match w_fs w !! p with
    | Some (Dir _) => (Err (IsADirectoryError p), w)
    | Some (File m _) =>
        if can_write m
        then (Ok (WFile p), emit (EvOpenW p) (set_fs (<[p := File m []]> (w_fs w)) w))
        else (Err (PermissionError p), w)
    | None =>
        match w_fs w !! parent p with
        | None => (Err (FileNotFoundError p), w)
        | Some (File _ _) => (Err (NotADirectoryError p), w)
        | Some (Dir m) =>
            if can_write m
            then (Ok (WFile p),
                  emit (EvOpenW p)
                    (set_fs (<[p := File (created_mode MODE_666 w) []]> (w_fs w)) w))
            else (Err (PermissionError p), w)
        end
    end.

(** The first [n] bytes of [l]. *)
Fixpoint take_z (n : Z) (l : list byte) : list byte :=
  match l with
  | [] => []
  | b :: l' => if 0 <? n then b :: take_z (n - 1) l' else []
  end.

(** The consecutive blocks of at most [n] bytes of [l]; [fuel] bounds
    their number. *)
Fixpoint blocks_upto (fuel : nat) (n : Z) (l : list byte) : list (list byte) :=
  match fuel with
  | O => []
  | S fuel' =>
      match take_z n l with
      | [] => []
      | buf => buf :: blocks_upto fuel' n (drop (List.length buf) l)
      end
  end.

Definition blocks (n : Z) (l : list byte) : list (list byte) :=
  blocks_upto (List.length l) n l.

(** What the successive [f.read(n)] return until the empty block: the
    blocks of the file as it is when the reading starts. *)
Definition read_blocks (f : rfile) (n : Z) : M (list (list byte)) :=
  fun w =>
    match w_fs w !! rf_path f with
    | Some (File _ d) => (Ok (blocks n d), w)
    | _ => (Ok [], w)
    end.

(** [f.write(buf)] on a file opened for writing: appends. *)
Definition f_write (f : wfile) (buf : list byte) : M Z :=
  fun w =>
    match w_fs w !! wf_path f with
    | Some (File m d) =>
        (Ok (Z.of_nat (List.length buf)),
         emit (EvWrite (wf_path f) buf)
           (set_fs (<[wf_path f := File m (d ++ buf)]> (w_fs w)) w))
    | _ => (Err (FileNotFoundError (wf_path f)), w)
    end.

(** [os.chmod(p, mode)]: only the permission bits of [mode] are kept. *)
Definition os_chmod (p : path) (mode : Z) : M unit :=
  fun w =>
    match w_fs w !! p with
    | Some (File _ d) =>
        (Ok tt, emit (EvChmod p mode)
                  (set_fs (<[p := File (Z.land mode PERM_BITS) d]> (w_fs w)) w))
    | Some (Dir _) =>
        (Ok tt, emit (EvChmod p mode)
                  (set_fs (<[p := Dir (Z.land mode PERM_BITS)]> (w_fs w)) w))
    | None => (Err (FileNotFoundError p), w)
    end.

(** [p.unlink(missing_ok=True)]. *)
Definition path_unlink_missing_ok (p : path) : M unit :=
  fun w =>
    match w_fs w !! p with
    | None => (Ok tt, w)
    | Some (Dir _) => (Err (IsADirectoryError p), w)
    | Some (File _ _) =>
        match w_fs w !! parent p with
        | Some (Dir m) =>
            if can_write m
            then (Ok tt, emit (EvUnlink p) (set_fs (delete p (w_fs w)) w))
            else (Err (PermissionError p), w)
        | _ => (Err (FileNotFoundError p), w)
        end
    end.

(** [print(s)]. *)
Definition print (s : string) : M unit :=
  fun w =>
    (Ok tt, World (w_fs w) (w_umask w) (w_trace w)
              (String.append (w_stdout w) (String.append s (String "010" "")))).

(** ** Operations on Python values *)

(** [d.get(k)] on an association list: the first binding of [k]. *)
Fixpoint dict_get (k : string) (kvs : list (string * pyval)) : option pyval :=
  match kvs with
  | [] => None
  | (k', v) :: kvs' => if String.eqb k k' then Some v else dict_get k kvs'
  end.

(** [d[k] = v]: an existing key keeps its place. *)
Fixpoint dict_set (k : string) (v : pyval) (kvs : list (string * pyval))
  : list (string * pyval) :=
  match kvs with
  | [] => [(k, v)]
  | (k', v') :: kvs' =>
      if String.eqb k k' then (k, v) :: kvs' else (k', v') :: dict_set k v kvs'
  end.

(** [dict(pairs)]. *)
Definition dict_of_pairs (pairs : list (string * pyval)) : list (string * pyval) :=
  fold_left (fun d kv => dict_set kv.1 kv.2 d) pairs [].

(** [v[k]] for a [str] key [k]. *)
Definition py_getitem (v : pyval) (k : string) : M pyval :=
  match v with
  | PDict kvs =>
      match dict_get k kvs with
      | Some x => ret x
      | None => raise (KeyError k)
      end
  | _ => raise TypeError
  end.

Fixpoint chars_of (s : string) : list pyval :=
  match s with
  | EmptyString => []
  | String c s' => PStr (String c "") :: chars_of s'
  end.

(** The elements [for x in v] goes through. *)
Definition py_iter (v : pyval) : M (list pyval) :=
  match v with
  | PList l => ret l
  | PDict kvs => ret (List.map (fun kv => PStr kv.1) kvs)
  | PStr s => ret (chars_of s)
  | _ => raise TypeError
  end.

(** [len(v)]. *)
Definition py_len (v : pyval) : M Z :=
  match v with
  | PList l => ret (Z.of_nat (List.length l))
  | PDict kvs => ret (Z.of_nat (List.length kvs))
  | PStr s => ret (Z.of_nat (String.length s))
  | _ => raise TypeError
  end.

(** [bool(v)]. *)
Definition py_bool (v : pyval) : bool :=
  match v with
  | PNone => false
  | PBool b => b
  | PInt z => negb (z =? 0)
  | PFloat t => negb (String.eqb t "0.0" || String.eqb t "-0.0")
  | PStr s => negb (String.eqb s "")
  | PList l => match l with [] => false | _ => true end
  | PDict kvs => match kvs with [] => false | _ => true end
  end.

(** ** json

    [json.dumps] with its default settings ([ensure_ascii], separators
    [", "] and [": "]) and [json.loads], on the values above.  Numbers
    with a fraction or an exponent and [\u] escapes above [00ff] are
    outside the model: decoding them fails. *)

#[local] Open Scope char_scope.

Definition hex_digit (n : N) : ascii :=
  match n with
  | 0 => "0" | 1 => "1" | 2 => "2" | 3 => "3" | 4 => "4" | 5 => "5"
  | 6 => "6" | 7 => "7" | 8 => "8" | 9 => "9" | 10 => "a" | 11 => "b"
  | 12 => "c" | 13 => "d" | 14 => "e" | _ => "f"
  end%N.

Definition hex_val (c : ascii) : option N :=
  let n := N_of_ascii c in
  if ((48 <=? n) && (n <=? 57))%N then Some (n - 48)%N
  else if ((97 <=? n) && (n <=? 102))%N then Some (n - 87)%N
  else if ((65 <=? n) && (n <=? 70))%N then Some (n - 55)%N
  else None.

(** One character of a string literal, as [json.dumps] writes it. *)
Definition escape_char (c : ascii) : list ascii :=
  let n := N_of_ascii c in
  if (n =? 34)%N then ["\"; "034"]
  else if (n =? 92)%N then ["\"; "\"]
  else if (n =? 10)%N then ["\"; "n"]
  else if (n =? 13)%N then ["\"; "r"]
  else if (n =? 9)%N then ["\"; "t"]
  else if (n =? 8)%N then ["\"; "b"]
  else if (n =? 12)%N then ["\"; "f"]
  else if (n <? 32)%N || (126 <? n)%N
       then ["\"; "u"; "0"; "0"; hex_digit (n / 16); hex_digit (n mod 16)]
  else [c].

Definition dumps_str (s : string) : list ascii :=
  "034" :: flat_map escape_char (list_ascii_of_string s) ++ ["034"].

Definition dumps_int (z : Z) : list ascii :=
  list_ascii_of_string (NilZero.string_of_int (Z.to_int z)).

Fixpoint dumps (v : pyval) : list ascii :=
  match v with
  | PNone => list_ascii_of_string "null"%string
  | PBool true => list_ascii_of_string "true"%string
  | PBool false => list_ascii_of_string "false"%string
  | PInt z => dumps_int z
  | PFloat t => list_ascii_of_string t
  | PStr s => dumps_str s
  | PList l =>
      "[" :: (fix elems (l : list pyval) : list ascii :=
                match l with
                | [] => []
                | v :: l' =>
                    match l' with
                    | [] => dumps v
                    | _ => dumps v ++ "," :: " " :: elems l'
                    end
                end) l ++ ["]"]
  | PDict kvs =>
      "{" :: (fix members (kvs : list (string * pyval)) : list ascii :=
                match kvs with
                | [] => []
                | (k, v) :: kvs' =>
                    match kvs' with
                    | [] => dumps_str k ++ ":" :: " " :: dumps v
                    | _ => dumps_str k ++ ":" :: " " :: dumps v
                             ++ "," :: " " :: members kvs'
                    end
                end) kvs ++ ["}"]
  end.

(** The elements of a list and the members of a dict, as [dumps] writes
    them between the brackets. *)
Definition dumps_elems : list pyval -> list ascii :=
  fix elems (l : list pyval) : list ascii :=
    match l with
    | [] => []
    | v :: l' =>
        match l' with
        | [] => dumps v
        | _ => dumps v ++ "," :: " " :: elems l'
        end
    end.

Definition dumps_members : list (string * pyval) -> list ascii :=
  fix members (kvs : list (string * pyval)) : list ascii :=
    match kvs with
    | [] => []
    | (k, v) :: kvs' =>
        match kvs' with
        | [] => dumps_str k ++ ":" :: " " :: dumps v
        | _ => dumps_str k ++ ":" :: " " :: dumps v ++ "," :: " " :: members kvs'
        end
    end.

Definition json_dumps (v : pyval) : string := string_of_list_ascii (dumps v).

Definition is_ws (c : ascii) : bool :=
  let n := N_of_ascii c in
  ((n =? 32) || (n =? 9) || (n =? 10) || (n =? 13))%N.

Fixpoint skip_ws (l : list ascii) : list ascii :=
  match l with
  | c :: l' => if is_ws c then skip_ws l' else l
  | [] => []
  end.

Definition simple_escape (e : ascii) : option ascii :=
  let n := N_of_ascii e in
  if (n =? 34)%N then Some "034"
  else if (n =? 92)%N then Some "\"
  else if (n =? 47)%N then Some "/"
  else if (n =? 98)%N then Some "008"
  else if (n =? 102)%N then Some "012"
  else if (n =? 110)%N then Some "010"
  else if (n =? 114)%N then Some "013"
  else if (n =? 116)%N then Some "009"
  else None.

Definition hex4 (a b c d : ascii) : option N :=
  match hex_val a, hex_val b, hex_val c, hex_val d with
  | Some x, Some y, Some z, Some t => Some (((x * 16 + y) * 16 + z) * 16 + t)%N
  | _, _, _, _ => None
  end.

Definition cons_fst {A B} (a : A) (r : option (list A * B)) : option (list A * B) :=
  match r with
  | Some (l, b) => Some (a :: l, b)
  | None => None
  end.

(** The rest of a string literal, after its opening quote. *)
Fixpoint parse_str (l : list ascii) : option (list ascii * list ascii) :=
  match l with
  | [] => None
  | c :: l' =>
      if (N_of_ascii c =? 34)%N then Some ([], l')
      else if (N_of_ascii c =? 92)%N then
        match l' with
        | [] => None
        | e :: l'' =>
            if (N_of_ascii e =? 117)%N then
              match l'' with
              | a :: b :: c' :: d :: l3 =>
                  match hex4 a b c' d with
                  | Some n =>
                      if (n <? 256)%N then cons_fst (ascii_of_N n) (parse_str l3)
                      else None
                  | None => None
                  end
              | _ => None
              end
            else
              match simple_escape e with
              | Some x => cons_fst x (parse_str l'')
              | None => None
              end
        end
      else if (N_of_ascii c <? 32)%N then None
      else cons_fst c (parse_str l')
  end.

Definition is_digit (c : ascii) : bool :=
  let n := N_of_ascii c in ((48 <=? n) && (n <=? 57))%N.

Fixpoint span_digits (l : list ascii) : list ascii * list ascii :=
  match l with
  | c :: l' =>
      if is_digit c then let (ds, r) := span_digits l' in (c :: ds, r)
      else ([], l)
  | [] => ([], [])
  end.

(** An integer literal: an optional minus sign, then either a single
    zero or digits that do not start with a zero. *)
Definition parse_int (l : list ascii) : option (Z * list ascii) :=
  let (neg, l1) :=
    match l with
    | c :: l' => if (N_of_ascii c =? 45)%N then (true, l') else (false, l)
    | [] => (false, l)
    end in
  let (ds, r) := span_digits l1 in
  match ds with
  | [] => None
  | d :: ds' =>
      if (N_of_ascii d =? 48)%N && negb (bool_decide (ds' = [])) then None
      else
        match NilZero.uint_of_string (string_of_list_ascii ds) with
        | Some u => Some (Z.of_int (if neg then Decimal.Neg u else Decimal.Pos u), r)
        | None => None
        end
  end.

Definition parse_key (l : list ascii) : option (string * list ascii) :=
  match skip_ws l with
  | c :: r =>
      if (N_of_ascii c =? 34)%N then
        match parse_str r with
        | Some (k, r1) =>
            match skip_ws r1 with
            | c1 :: r2 =>
                if (N_of_ascii c1 =? 58)%N then Some (string_of_list_ascii k, r2)
                else None
            | [] => None
            end
        | None => None
        end
      else None
  | [] => None
  end.

Fixpoint parse_value (fuel : nat) (l : list ascii) : option (pyval * list ascii) :=
  match fuel with
  | O => None
  | S f =>
      match skip_ws l with
      | [] => None
      | c :: r =>
          let n := N_of_ascii c in
          if (n =? 34)%N then
            match parse_str r with
            | Some (s, r') => Some (PStr (string_of_list_ascii s), r')
            | None => None
            end
          else if (n =? 91)%N then
            match skip_ws r with
            | c' :: r' =>
                if (N_of_ascii c' =? 93)%N then Some (PList [], r')
                else
                  match parse_elems f r with
                  | Some (vs, r'') => Some (PList vs, r'')
                  | None => None
                  end
            | [] => None
            end
          else if (n =? 123)%N then
            match skip_ws r with
            | c' :: r' =>
                if (N_of_ascii c' =? 125)%N then Some (PDict [], r')
                else
                  match parse_members f r with
                  | Some (kvs, r'') => Some (PDict (dict_of_pairs kvs), r'')
                  | None => None
                  end
            | [] => None
            end
          else if (n =? 45)%N || is_digit c then
            match parse_int (c :: r) with
            | Some (z, r') => Some (PInt z, r')
            | None => None
            end
          else
            match c :: r with
            | "n" :: "u" :: "l" :: "l" :: r' => Some (PNone, r')
            | "t" :: "r" :: "u" :: "e" :: r' => Some (PBool true, r')
            | "f" :: "a" :: "l" :: "s" :: "e" :: r' => Some (PBool false, r')
            | _ => None
            end
      end
  end
with parse_elems (fuel : nat) (l : list ascii) : option (list pyval * list ascii) :=
  match fuel with
  | O => None
  | S f =>
      match parse_value f l with
      | Some (v, r) =>
          match skip_ws r with
          | c :: r' =>
              if (N_of_ascii c =? 44)%N then cons_fst v (parse_elems f r')
              else if (N_of_ascii c =? 93)%N then Some ([v], r')
              else None
          | [] => None
          end
      | None => None
      end
  end
with parse_members (fuel : nat) (l : list ascii)
  : option (list (string * pyval) * list ascii) :=
  match fuel with
  | O => None
  | S f =>
      match parse_key l with
      | Some (k, r) =>
          match parse_value f r with
          | Some (v, r1) =>
              match skip_ws r1 with
              | c :: r2 =>
                  if (N_of_ascii c =? 44)%N then cons_fst (k, v) (parse_members f r2)
                  else if (N_of_ascii c =? 125)%N then Some ([(k, v)], r2)
                  else None
              | [] => None
              end
          | None => None
          end
      | None => None
      end
  end.

#[local] Close Scope char_scope.

(** [json.loads(s)]: one value, surrounded by optional white space. *)
Definition json_loads (s : string) : option pyval :=
  let l := list_ascii_of_string s in
  match parse_value (S (List.length l)) l with
  | Some (v, r) => match skip_ws r with [] => Some v | _ => None end
  | None => None
  end.

(** [json.load(f)] on the text read from [f]. *)
Definition json_load (text : string) : M pyval :=
  match json_loads text with
  | Some v => ret v
  | None => raise JSONDecodeError
  end.

(** ** hashlib *)

(** A hash object: [hashlib.new(algo)], [h.update(block)],
    [h.hexdigest()]. *)
Record hasher := Hasher {
  h_state : Type;
  h_new : h_state;
  h_update : h_state -> list byte -> h_state;
  h_hexdigest : h_state -> string
}.

(** The digest of a byte string fed to the hash object block by block. *)
Definition digest_of (H : hasher) (n : Z) (data : list byte) : string :=
  h_hexdigest H (fold_left (h_update H) (blocks n data) (h_new H)).

(** A transfer item as the window builds it, [{"src": s, "dst": d}]. *)
Record item := Item { src : string; dst : string }.

Definition py_item (it : item) : pyval :=
  PDict [("src", PStr (src it)); ("dst", PStr (dst it))].

Definition py_items (items : list item) : pyval :=
  PList (List.map py_item items).

(** The arguments of the helper after [argparse]. *)
Record Namespace := Args {
  a_src : option string;
  a_dst : option string;
  a_preserve_mode : bool;
  a_calc_hash : bool;
  a_manifest : bool
}.

(** [not s] for an optional [str] argument. *)
Definition arg_missing (s : option string) : bool :=
  match s with
  | None => true
  | Some s => String.eqb s ""
  end.

(** The exit status of the interpreter once [main()] is over: an uncaught
    exception prints a traceback on the error stream and exits with 1. *)
Definition exit_status (r : result unit) : Z :=
  match r with
  | Ok _ => 0
  | Err (SystemExit code) => code
  | Err _ => 1
  end.

Section Engine.

(** [hashlib.new("sha256")]. *)
Variable sha256 : hasher.

(** ** io.py *)

Definition BUFFER : Z := 1024 * 1024.

Definition _hash (p : path) : M string :=
  f <- open_rb p ;;
  bs <- read_blocks f BUFFER ;;
  ret (h_hexdigest sha256 (fold_left (h_update sha256) bs (h_new sha256))).

(** The [while True] loop of [copy_with_progress] over the blocks the
    reads return; the empty block ends it. *)
Fixpoint copy_loop (bufs : list (list byte)) (fdst : wfile) (copied total : Z)
    (progress_cb : option (Z -> Z -> M unit)) : M unit :=
  match bufs with
  | [] => ret tt
  | buf :: bufs' =>
      f_write fdst buf ;;;
      let copied := copied + Z.of_nat (List.length buf) in
      match progress_cb with
      | Some cb => cb copied total
      | None => ret tt
      end ;;;
      copy_loop bufs' fdst copied total progress_cb
  end.

Definition copy_with_progress (src dst : pyval) (preserve_mode calc_hash : bool)
    (progress_cb : option (Z -> Z -> M unit)) : M pyval :=
  src_p <- Path src ;;
  dst_p <- Path dst ;;
  st <- path_stat src_p ;;
  let total := st_size st in
  let copied := 0 in
  path_mkdir_parents (parent dst_p) ;;;
  fsrc <- open_rb src_p ;;
  fdst <- open_wb dst_p ;;
  bufs <- read_blocks fsrc BUFFER ;;
  copy_loop bufs fdst copied total progress_cb ;;;
  (if preserve_mode
   then st' <- path_stat src_p ;; os_chmod dst_p (st_mode st')
   else ret tt) ;;;
  digest <- (if calc_hash
             then d <- _hash dst_p ;; ret (PStr d)
             else ret PNone) ;;
  ret (PDict [("bytes", PInt total); ("hash", digest);
              ("dst", PStr (str_Path dst))]).

(** The first loop of [copy_batch]. *)
Fixpoint sum_sizes (items : list pyval) (total_bytes : Z) : M Z :=
  match items with
  | [] => ret total_bytes
  | item :: items' =>
      s <- py_getitem item "src" ;;
      p <- Path s ;;
      st <- path_stat p ;;
      sum_sizes items' (total_bytes + st_size st)
  end.

(** The second loop of [copy_batch], from index [idx] on. *)
Fixpoint batch_loop (items : list pyval) (idx : Z) (agg_copied total_bytes : Z)
    (preserve_mode calc_hash : bool)
    (progress_cb : option (Z -> Z -> Z -> string -> M unit))
    (file_done_cb : option (Z -> pyval -> M unit)) : M unit :=
  match items with
  | [] => ret tt
  | item :: items' =>
      src <- py_getitem item "src" ;;
      dst <- py_getitem item "dst" ;;
      let inner_cb (copied total : Z) : M unit :=
        match progress_cb with
        | Some cb =>
            p <- Path src ;;
            cb (agg_copied + copied) total_bytes idx (name p)
        | None => ret tt
        end in
      result <- copy_with_progress src dst preserve_mode calc_hash (Some inner_cb) ;;
      p <- Path src ;;
      st <- path_stat p ;;
      let agg_copied := agg_copied + st_size st in
      match file_done_cb with
      | Some cb => cb idx result
      | None => ret tt
      end ;;;
      batch_loop items' (idx + 1) agg_copied total_bytes preserve_mode calc_hash
        progress_cb file_done_cb
  end.

Definition copy_batch (items : pyval) (preserve_mode calc_hash : bool)
    (progress_cb : option (Z -> Z -> Z -> string -> M unit))
    (file_done_cb : option (Z -> pyval -> M unit)) : M pyval :=
  its <- py_iter items ;;
  total_bytes <- sum_sizes its 0 ;;
  batch_loop its 0 0 total_bytes preserve_mode calc_hash progress_cb file_done_cb ;;;
  count <- py_len items ;;
  ret (PDict [("bytes", PInt total_bytes); ("count", PInt count)]).

(** ** utils.py *)

Definition WRITE_TEST : string := ".onecopy_write_test".

Definition path_writable (target_path : string) : M bool :=
  let p := Path_of_str target_path in
  d <- path_is_dir p ;;
  let base := if d then p else parent p in
  try_except
    (let testfile := joinpath base WRITE_TEST in
     f <- open_wb testfile ;;
     f_write f (list_byte_of_string "ok") ;;;
     path_unlink_missing_ok testfile ;;;
     ret true)
    is_Exception
    (fun _ => ret false).

Definition needs_elevation (dest_path : string) : M bool :=
  b <- path_writable dest_path ;;
  ret (negb b).

(** ** elevated_copy.py *)

(** The manifest branch of [main] up to the call of [copy_batch]: the
    items and the two options the batch is run with.  [load] stands for
    [json.load], applied to the text on the standard input. *)
Definition read_manifest_with (load : string -> M pyval) (args : Namespace)
    (stdin : string) : M (pyval * bool * bool) :=
  data <- load stdin ;;
  match data with
  | PDict kvs =>
      let items := default (PList []) (dict_get "items" kvs) in
      let preserve :=
        match dict_get "preserve_mode" kvs with
        | Some v => py_bool v
        | None => a_preserve_mode args
        end in
      let calc_hash :=
        match dict_get "calc_hash" kvs with
        | Some v => py_bool v
        | None => a_calc_hash args
        end in
      ret (items, preserve, calc_hash)
  | _ => raise AttributeError
  end.

Definition read_manifest : Namespace -> string -> M (pyval * bool * bool) :=
  read_manifest_with json_load.

Definition MISSING_ARGS : string := "missing SRC/DST or --manifest".

Definition main_with (load : string -> M pyval) (args : Namespace)
    (stdin : string) : M unit :=
  if a_manifest args then
    m <- read_manifest_with load args stdin ;;
    let '(items, preserve, calc_hash) := m in
    summary <- copy_batch items preserve calc_hash None None ;;
    print (json_dumps (PDict [("ok", PBool true); ("summary", summary)]))
  else if arg_missing (a_src args) || arg_missing (a_dst args) then
    print (json_dumps (PDict [("ok", PBool false); ("error", PStr MISSING_ARGS)])) ;;;
    raise (SystemExit 2)
  else
    result <- copy_with_progress (PStr (default "" (a_src args)))
                (PStr (default "" (a_dst args)))
                (a_preserve_mode args) (a_calc_hash args) None ;;
    print (json_dumps (PDict [("ok", PBool true); ("result", result)])).

(** [main] with [json.load] as it is modelled here. *)
Definition main : Namespace -> string -> M unit := main_with json_load.

(** ** main_window.py: the manifest handed to the helper *)

Definition manifest (items : list item) (preserve_mode calc_hash : bool) : pyval :=
  PDict [("items", py_items items);
         ("preserve_mode", PBool preserve_mode);
         ("calc_hash", PBool calc_hash)].

(** The [input] of [subprocess.run] in [_run_elevated_batch]. *)
Definition elevated_input (items : list item) (preserve_mode calc_hash : bool)
  : string :=
  json_dumps (manifest items preserve_mode calc_hash).

(** ** The callbacks of the workers, seen from the engine *)

Definition item_progress_cb (h : handler) (copied total : Z) : M unit :=
  observe (EvItemProgress copied total) h.

Definition batch_progress_cb (h : handler) (agg_copied agg_total idx : Z)
    (name : string) : M unit :=
  observe (EvProgress agg_copied agg_total idx name) h.

Definition batch_file_done_cb (h : handler) (idx : Z) (result : pyval) : M unit :=
  observe (EvFileDone idx result) h.

End Engine.

(** ** json: vocabulary of the round trip *)

Definition no_digit_head (l : list ascii) : Prop :=
  match l with
  | [] => True
  | c :: _ => is_digit c = false
  end.

Definition uint_chars (u : Decimal.uint) : list ascii :=
  list_ascii_of_string (NilEmpty.string_of_uint u).

(** Every dict of the value has distinct keys, and the value holds no
    [float]. *)
Fixpoint json_wf (v : pyval) : Prop :=
  match v with
  | PFloat _ => False
  | PList l => (fix all (l : list pyval) : Prop :=
                  match l with
                  | [] => True
                  | x :: l' => json_wf x /\ all l'
                  end) l
  | PDict kvs =>
      NoDup (List.map fst kvs) /\
      (fix all (kvs : list (string * pyval)) : Prop :=
         match kvs with
         | [] => True
         | kv :: kvs' => json_wf (snd kv) /\ all kvs'
         end) kvs
  | _ => True
  end.

(** The fuel [parse_value] needs for [dumps v]. *)
Fixpoint size (v : pyval) : nat :=
  match v with
  | PFloat _ => O
  | PList l => S ((fix sum (l : list pyval) : nat :=
                     match l with
                     | [] => O
                     | x :: l' => S (size x + sum l')
                     end) l)
  | PDict kvs => S ((fix sum (kvs : list (string * pyval)) : nat :=
                       match kvs with
                       | [] => O
                       | kv :: kvs' => S (size (snd kv) + sum kvs')
                       end) kvs)
  | _ => 1%nat
  end.

Definition size_elems (l : list pyval) : nat :=
  foldr (fun x n => S (size x + n)) O l.

Definition size_members (kvs : list (string * pyval)) : nat :=
  foldr (fun kv n => S (size (snd kv) + n)) O kvs.

Section pyval_induction.

Variable P : pyval -> Prop.

Hypothesis HNone : P PNone.

Hypothesis HBool : forall b, P (PBool b).

Hypothesis HInt : forall z, P (PInt z).

Hypothesis HFloat : forall t, P (PFloat t).

Hypothesis HStr : forall s, P (PStr s).

Hypothesis HList : forall l, Forall P l -> P (PList l).

Hypothesis HDict : forall kvs, Forall (fun kv => P (snd kv)) kvs -> P (PDict kvs).

(** Induction on values, with the hypotheses for the elements of a list
    and the values of a dict. *)
Fixpoint pyval_ind (v : pyval) : P v :=
    match v with
    | PNone => HNone
    | PBool b => HBool b
    | PInt z => HInt z
    | PFloat t => HFloat t
    | PStr s => HStr s
    | PList l =>
        HList l ((fix go (l : list pyval) : Forall P l :=
                    match l with
                    | [] => @List.Forall_nil _ P
                    | x :: l' => @List.Forall_cons _ P x l' (pyval_ind x) (go l')
                    end) l)
    | PDict kvs =>
        HDict kvs ((fix go (kvs : list (string * pyval))
                      : Forall (fun kv => P (snd kv)) kvs :=
                      match kvs with
                      | [] => @List.Forall_nil _ _
                      | kv :: kvs' =>
                          @List.Forall_cons _ (fun kv => P (snd kv)) kv kvs'
                            (pyval_ind (snd kv)) (go kvs')
                      end) kvs)
    end.

End pyval_induction.

(** What starts a value: never white space or a closing bracket. *)
Definition starts_value (l : list ascii) : Prop :=
  exists c tl, l = c :: tl /\ is_ws c = false /\
    (N_of_ascii c =? 93)%N = false /\ (N_of_ascii c =? 125)%N = false.

Definition parses (v : pyval) : Prop :=
  forall fuel rest, (size v <= fuel)%nat -> no_digit_head rest ->
    parse_value fuel (dumps v ++ rest) = Some (v, rest).

(** ** json on every Python string: the manifest

    The manifest carries the paths of the items, which may hold any code
    point.  Here a [str] is the list of its code points, and [json.dumps]
    and [json.loads] are those of the model above with the string
    literals of the full encoder and scanner: [\uXXXX] for every
    character outside printable ASCII, two of them (a surrogate pair) for
    a code point above [ffff], and a high surrogate escape directly
    followed by a low surrogate escape read back as one code point.  The
    text written is ASCII, so it is a [string]. *)
Module Unicode.

(** A Python [str]: its code points. *)
Definition ustr := list N.

(** A [str] of the model above as a full one. *)
Definition of_string (s : string) : ustr :=
  List.map N_of_ascii (list_ascii_of_string s).

#[local] Unset Elimination Schemes.
Inductive uval :=
| UNone
| UBool (b : bool)
| UInt (z : Z)
| UStr (s : ustr)
| UList (l : list uval)
| UDict (kvs : list (ustr * uval)).
#[local] Set Elimination Schemes.

(** The largest code point is [10ffff]. *)
Definition is_code_point (c : N) : bool := (c <? 1114112)%N.

(** High surrogates are [d800]-[dbff], low surrogates [dc00]-[dfff]. *)
Definition is_high (c : N) : bool := ((55296 <=? c) && (c <=? 56319))%N.
Definition is_low (c : N) : bool := ((56320 <=? c) && (c <=? 57343))%N.

(** The code point of a surrogate pair. *)
Definition join_surrogates (hi lo : N) : N :=
  (65536 + ((hi - 55296) * 1024 + (lo - 56320)))%N.

#[local] Open Scope char_scope.

(** [\uXXXX], in lower case. *)
Definition u_escape (n : N) : list ascii :=
  ["\"; "u"; hex_digit (n / 4096); hex_digit ((n / 256) mod 16);
   hex_digit ((n / 16) mod 16); hex_digit (n mod 16)]%N.

(** One character of a string literal, as [json.dumps] writes it. *)
Definition escape_char (c : N) : list ascii :=
  if (c =? 34)%N then ["\"; "034"]
  else if (c =? 92)%N then ["\"; "\"]
  else if (c =? 10)%N then ["\"; "n"]
  else if (c =? 13)%N then ["\"; "r"]
  else if (c =? 9)%N then ["\"; "t"]
  else if (c =? 8)%N then ["\"; "b"]
  else if (c =? 12)%N then ["\"; "f"]
  else if (c <? 32)%N || (126 <? c)%N then
    if (c <? 65536)%N then u_escape c
    else
      let v := (c - 65536)%N in
      u_escape (55296 + v / 1024) ++ u_escape (56320 + v mod 1024)
  else [ascii_of_N c].

Definition dumps_str (s : ustr) : list ascii :=
  "034" :: flat_map escape_char s ++ ["034"].

Fixpoint dumps (v : uval) : list ascii :=
  match v with
  | UNone => list_ascii_of_string "null"%string
  | UBool true => list_ascii_of_string "true"%string
  | UBool false => list_ascii_of_string "false"%string
  | UInt z => dumps_int z
  | UStr s => dumps_str s
  | UList l =>
      "[" :: (fix elems (l : list uval) : list ascii :=
                match l with
                | [] => []
                | v :: l' =>
                    match l' with
                    | [] => dumps v
                    | _ => dumps v ++ "," :: " " :: elems l'
                    end
                end) l ++ ["]"]
  | UDict kvs =>
      "{" :: (fix members (kvs : list (ustr * uval)) : list ascii :=
                match kvs with
                | [] => []
                | (k, v) :: kvs' =>
                    match kvs' with
                    | [] => dumps_str k ++ ":" :: " " :: dumps v
                    | _ => dumps_str k ++ ":" :: " " :: dumps v
                             ++ "," :: " " :: members kvs'
                    end
                end) kvs ++ ["}"]
  end.

Definition dumps_elems : list uval -> list ascii :=
  fix elems (l : list uval) : list ascii :=
    match l with
    | [] => []
    | v :: l' =>
        match l' with
        | [] => dumps v
        | _ => dumps v ++ "," :: " " :: elems l'
        end
    end.

Definition dumps_members : list (ustr * uval) -> list ascii :=
  fix members (kvs : list (ustr * uval)) : list ascii :=
    match kvs with
    | [] => []
    | (k, v) :: kvs' =>
        match kvs' with
        | [] => dumps_str k ++ ":" :: " " :: dumps v
        | _ => dumps_str k ++ ":" :: " " :: dumps v ++ "," :: " " :: members kvs'
        end
    end.

Definition json_dumps (v : uval) : string := string_of_list_ascii (dumps v).

Definition cons_cp {B} (c : N) (r : option (ustr * B)) : option (ustr * B) :=
  match r with
  | Some (l, b) => Some (c :: l, b)
  | None => None
  end.

(** The rest of a string literal, after its opening quote.  After the
    escape of a high surrogate the scanner looks for [\u] and four more
    digits, with at least one character left after them: a low surrogate
    there is joined to the high one, anything else is read on its own. *)
Fixpoint parse_str (l : list ascii) : option (ustr * list ascii) :=
  match l with
  | [] => None
  | c :: l' =>
      if (N_of_ascii c =? 34)%N then Some ([], l')
      else if (N_of_ascii c =? 92)%N then
        match l' with
        | [] => None
        | e :: l'' =>
            if (N_of_ascii e =? 117)%N then
              match l'' with
              | a :: b :: c' :: d :: l3 =>
                  match hex4 a b c' d with
                  | Some n =>
                      if is_high n then
                        match l3 with
                        | s1 :: s2 :: a2 :: b2 :: c2 :: d2 :: ((_ :: _) as l4) =>
                            if (N_of_ascii s1 =? 92)%N && (N_of_ascii s2 =? 117)%N then
                              match hex4 a2 b2 c2 d2 with
                              | Some n2 =>
                                  if is_low n2
                                  then cons_cp (join_surrogates n n2) (parse_str l4)
                                  else cons_cp n (parse_str l3)
                              | None => None
                              end
                            else cons_cp n (parse_str l3)
                        | _ => cons_cp n (parse_str l3)
                        end
                      else cons_cp n (parse_str l3)
                  | None => None
                  end
              | _ => None
              end
            else
              match simple_escape e with
              | Some x => cons_cp (N_of_ascii x) (parse_str l'')
              | None => None
              end
        end
      else if (N_of_ascii c <? 32)%N then None
      else cons_cp (N_of_ascii c) (parse_str l')
  end.

Definition parse_key (l : list ascii) : option (ustr * list ascii) :=
  match skip_ws l with
  | c :: r =>
      if (N_of_ascii c =? 34)%N then
        match parse_str r with
        | Some (k, r1) =>
            match skip_ws r1 with
            | c1 :: r2 => if (N_of_ascii c1 =? 58)%N then Some (k, r2) else None
            | [] => None
            end
        | None => None
        end
      else None
  | [] => None
  end.

(** [d.get(k)], [d[k] = v] and [dict(pairs)], as above. *)
Fixpoint dict_get (k : ustr) (kvs : list (ustr * uval)) : option uval :=
  match kvs with
  | [] => None
  | (k', v) :: kvs' => if bool_decide (k = k') then Some v else dict_get k kvs'
  end.

Fixpoint dict_set (k : ustr) (v : uval) (kvs : list (ustr * uval))
  : list (ustr * uval) :=
  match kvs with
  | [] => [(k, v)]
  | (k', v') :: kvs' =>
      if bool_decide (k = k') then (k, v) :: kvs' else (k', v') :: dict_set k v kvs'
  end.

Definition dict_of_pairs (pairs : list (ustr * uval)) : list (ustr * uval) :=
  fold_left (fun d kv => dict_set kv.1 kv.2 d) pairs [].

Fixpoint parse_value (fuel : nat) (l : list ascii) : option (uval * list ascii) :=
  match fuel with
  | O => None
  | S f =>
      match skip_ws l with
      | [] => None
      | c :: r =>
          let n := N_of_ascii c in
          if (n =? 34)%N then
            match parse_str r with
            | Some (s, r') => Some (UStr s, r')
            | None => None
            end
          else if (n =? 91)%N then
            match skip_ws r with
            | c' :: r' =>
                if (N_of_ascii c' =? 93)%N then Some (UList [], r')
                else
                  match parse_elems f r with
                  | Some (vs, r'') => Some (UList vs, r'')
                  | None => None
                  end
            | [] => None
            end
          else if (n =? 123)%N then
            match skip_ws r with
            | c' :: r' =>
                if (N_of_ascii c' =? 125)%N then Some (UDict [], r')
                else
                  match parse_members f r with
                  | Some (kvs, r'') => Some (UDict (dict_of_pairs kvs), r'')
                  | None => None
                  end
            | [] => None
            end
          else if (n =? 45)%N || is_digit c then
            match parse_int (c :: r) with
            | Some (z, r') => Some (UInt z, r')
            | None => None
            end
          else
            match c :: r with
            | "n" :: "u" :: "l" :: "l" :: r' => Some (UNone, r')
            | "t" :: "r" :: "u" :: "e" :: r' => Some (UBool true, r')
            | "f" :: "a" :: "l" :: "s" :: "e" :: r' => Some (UBool false, r')
            | _ => None
            end
      end
  end
with parse_elems (fuel : nat) (l : list ascii) : option (list uval * list ascii) :=
  match fuel with
  | O => None
  | S f =>
      match parse_value f l with
      | Some (v, r) =>
          match skip_ws r with
          | c :: r' =>
              if (N_of_ascii c =? 44)%N then
                match parse_elems f r' with
                | Some (vs, r'') => Some (v :: vs, r'')
                | None => None
                end
              else if (N_of_ascii c =? 93)%N then Some ([v], r')
              else None
          | [] => None
          end
      | None => None
      end
  end
with parse_members (fuel : nat) (l : list ascii)
  : option (list (ustr * uval) * list ascii) :=
  match fuel with
  | O => None
  | S f =>
      match parse_key l with
      | Some (k, r) =>
          match parse_value f r with
          | Some (v, r1) =>
              match skip_ws r1 with
              | c :: r2 =>
                  if (N_of_ascii c =? 44)%N then
                    match parse_members f r2 with
                    | Some (kvs, r3) => Some ((k, v) :: kvs, r3)
                    | None => None
                    end
                  else if (N_of_ascii c =? 125)%N then Some ([(k, v)], r2)
                  else None
              | [] => None
              end
          | None => None
          end
      | None => None
      end
  end.

#[local] Close Scope char_scope.

(** [json.loads(s)] and [json.load(f)] on the text read from [f]. *)
Definition json_loads (s : string) : option uval :=
  let l := list_ascii_of_string s in
  match parse_value (S (List.length l)) l with
  | Some (v, r) => match skip_ws r with [] => Some v | _ => None end
  | None => None
  end.

Definition json_load (text : string) : M uval :=
  match json_loads text with
  | Some v => ret v
  | None => raise JSONDecodeError
  end.

(** [bool(v)]. *)
Definition py_bool (v : uval) : bool :=
  match v with
  | UNone => false
  | UBool b => b
  | UInt z => negb (z =? 0)
  | UStr s => match s with [] => false | _ => true end
  | UList l => match l with [] => false | _ => true end
  | UDict kvs => match kvs with [] => false | _ => true end
  end.

(** A transfer item [{"src": s, "dst": d}] and the manifest of
    [_run_elevated_batch]. *)
Record item := Item { src : ustr; dst : ustr }.

Definition py_item (it : item) : uval :=
  UDict [(of_string "src", UStr (src it)); (of_string "dst", UStr (dst it))].

Definition py_items (items : list item) : uval :=
  UList (List.map py_item items).

Definition manifest (items : list item) (preserve_mode calc_hash : bool) : uval :=
  UDict [(of_string "items", py_items items);
         (of_string "preserve_mode", UBool preserve_mode);
         (of_string "calc_hash", UBool calc_hash)].

(** The [input] of [subprocess.run] in [_run_elevated_batch]. *)
Definition elevated_input (items : list item) (preserve_mode calc_hash : bool)
  : string :=
  json_dumps (manifest items preserve_mode calc_hash).

(** The manifest branch of [main] up to the call of [copy_batch]. *)
Definition read_manifest (args : Namespace) (stdin : string)
  : M (uval * bool * bool) :=
  data <- json_load stdin ;;
  match data with
  | UDict kvs =>
      let items := default (UList []) (dict_get (of_string "items") kvs) in
      let preserve :=
        match dict_get (of_string "preserve_mode") kvs with
        | Some v => py_bool v
        | None => a_preserve_mode args
        end in
      let calc_hash :=
        match dict_get (of_string "calc_hash") kvs with
        | Some v => py_bool v
        | None => a_calc_hash args
        end in
      ret (items, preserve, calc_hash)
  | _ => raise AttributeError
  end.

(** The texts [json.loads] gives back as they were written: every element
    is a code point, and no high surrogate comes directly before a low
    one. *)
Fixpoint unpaired (s : ustr) : bool :=
  match s with
  | [] => true
  | c :: s' =>
      match s' with
      | [] => true
      | c2 :: _ => negb (is_high c && is_low c2)
      end && unpaired s'
  end.

Definition is_str (s : ustr) : bool := forallb is_code_point s && unpaired s.

Definition str_item (it : item) : bool := is_str (src it) && is_str (dst it).

(** Every dict of the value has distinct keys and every string of the
    value is one [json.loads] gives back. *)
Fixpoint json_wf (v : uval) : Prop :=
  match v with
  | UStr s => is_str s = true
  | UList l => (fix all (l : list uval) : Prop :=
                  match l with
                  | [] => True
                  | x :: l' => json_wf x /\ all l'
                  end) l
  | UDict kvs =>
      NoDup (List.map fst kvs) /\
      (fix all (kvs : list (ustr * uval)) : Prop :=
         match kvs with
         | [] => True
         | kv :: kvs' => (is_str (fst kv) = true /\ json_wf (snd kv)) /\ all kvs'
         end) kvs
  | _ => True
  end.

(** The fuel [parse_value] needs for [dumps v]. *)
Fixpoint size (v : uval) : nat :=
  match v with
  | UList l => S ((fix sum (l : list uval) : nat :=
                     match l with
                     | [] => O
                     | x :: l' => S (size x + sum l')
                     end) l)
  | UDict kvs => S ((fix sum (kvs : list (ustr * uval)) : nat :=
                       match kvs with
                       | [] => O
                       | kv :: kvs' => S (size (snd kv) + sum kvs')
                       end) kvs)
  | _ => 1%nat
  end.

Definition size_elems (l : list uval) : nat :=
  foldr (fun x n => S (size x + n)) O l.
Definition size_members (kvs : list (ustr * uval)) : nat :=
  foldr (fun kv n => S (size (snd kv) + n)) O kvs.

Section uval_induction.
Variable P : uval -> Prop.
Hypothesis HNone : P UNone.
Hypothesis HBool : forall b, P (UBool b).
Hypothesis HInt : forall z, P (UInt z).
Hypothesis HStr : forall s, P (UStr s).
Hypothesis HList : forall l, Forall P l -> P (UList l).
Hypothesis HDict : forall kvs, Forall (fun kv => P (snd kv)) kvs -> P (UDict kvs).

(** Induction on values, with the hypotheses for the elements of a list
    and the values of a dict. *)
Fixpoint uval_ind (v : uval) : P v :=
    match v with
    | UNone => HNone
    | UBool b => HBool b
    | UInt z => HInt z
    | UStr s => HStr s
    | UList l =>
        HList l ((fix go (l : list uval) : Forall P l :=
                    match l with
                    | [] => @List.Forall_nil _ P
                    | x :: l' => @List.Forall_cons _ P x l' (uval_ind x) (go l')
                    end) l)
    | UDict kvs =>
        HDict kvs ((fix go (kvs : list (ustr * uval))
                      : Forall (fun kv => P (snd kv)) kvs :=
                      match kvs with
                      | [] => @List.Forall_nil _ _
                      | kv :: kvs' =>
                          @List.Forall_cons _ (fun kv => P (snd kv)) kv kvs'
                            (uval_ind (snd kv)) (go kvs')
                      end) kvs)
    end.
End uval_induction.

End Unicode.

(** An item of the model above as a full one. *)
Definition unicode_item (it : item) : Unicode.item :=
  Unicode.Item (Unicode.of_string (src it)) (Unicode.of_string (dst it)).

(** What may follow the escape of a high surrogate without being joined
    to it. *)
Definition after_high (tl : list ascii) : Prop :=
  match tl with
  | s1 :: s2 :: a :: b :: c :: d :: _ :: _ =>
      (N_of_ascii s1 =? 92)%N && (N_of_ascii s2 =? 117)%N = true ->
      exists n2, hex4 a b c d = Some n2 /\ Unicode.is_low n2 = false
  | _ => True
  end.

Definition u_parses (v : Unicode.uval) : Prop :=
  forall fuel rest, (Unicode.size v <= fuel)%nat -> no_digit_head rest ->
    Unicode.parse_value fuel (Unicode.dumps v ++ rest) = Some (v, rest).

(** ** Vocabulary of the specifications *)

Definition source_size (fs : gmap path node) (it : item) : Z :=
  match fs !! Path_of_str (src it) with
  | Some n => st_size (stat_of n)
  | None => 0
  end.

Fixpoint total_source_size (fs : gmap path node) (items : list item) : Z :=
  match items with
  | [] => 0
  | it :: items' => source_size fs it + total_source_size fs items'
  end.

(** The probe of the contract: create the marker file in [d] and delete it. *)
Definition probe_write (d : path) : M unit :=
  let marker := joinpath d WRITE_TEST in
  f <- open_wb marker ;;
  f_write f (list_byte_of_string "ok") ;;;
  path_unlink_missing_ok marker.

Definition probe_fails (d : path) (w : world) : Prop :=
  exists e w', probe_write d w = (Err e, w').

(** The directory [path_writable] probes. *)
Definition probe_base (fs : gmap path node) (p : path) : path :=
  match fs !! p with
  | Some (Dir _) => p
  | _ => parent p
  end.

(** [d] is a directory the user may write in which the marker name is free
    or held by a file the user may overwrite. *)
Definition accepts_probe (fs : gmap path node) (d : path) : Prop :=
  (exists m, fs !! d = Some (Dir m) /\ can_write m = true) /\
  (fs !! joinpath d WRITE_TEST = None \/
   exists m' data, fs !! joinpath d WRITE_TEST = Some (File m' data) /\
                   can_write m' = true).

(** [w1] is [w] with file system [fs1] and the events [evs] added. *)
Definition evolves (w w1 : world) (fs1 : gmap path node) (evs : list event) : Prop :=
  w1 = World fs1 (w_umask w) (w_trace w ++ evs) (w_stdout w).

(** [progress_cb(copied, total)] guarded by [if progress_cb]. *)
Definition call_cb (cb : option (Z -> Z -> M unit)) (copied total : Z) : M unit :=
  match cb with
  | Some g => g copied total
  | None => ret tt
  end.

(** A callback that only records the events [f copied total]. *)
Definition cb_emits (cb : option (Z -> Z -> M unit)) (f : Z -> Z -> list event)
  : Prop :=
  forall c t w, exists r, call_cb cb c t w = (r, World (w_fs w) (w_umask w)
                                                 (w_trace w ++ f c t) (w_stdout w)).

(** [e] is raised by some call of the callback. *)
Definition cb_raises (cb : option (Z -> Z -> M unit)) (e : exn) : Prop :=
  exists c t w w', call_cb cb c t w = (Err e, w').

(** The events of the copy loop when nothing raises. *)
Fixpoint loop_trace (dstp : path) (f : Z -> Z -> list event)
    (bufs : list (list byte)) (copied total : Z) : list event :=
  match bufs with
  | [] => []
  | buf :: bufs' =>
      let copied' := copied + Z.of_nat (List.length buf) in
      EvWrite dstp buf :: f copied' total ++ loop_trace dstp f bufs' copied' total
  end.

Definition is_mkdir_ev (e : event) : bool :=
  match e with EvMkdir _ => true | _ => false end.

(** What precedes the copy loop: directories made, files opened. *)
Definition is_setup_ev (e : event) : bool :=
  match e with EvMkdir _ | EvOpenR _ | EvOpenW _ => true | _ => false end.

(** The events that follow the copy loop. *)
Definition tail_events (dstp : path) (preserve_mode calc_hash : bool) (mode : Z)
  : list event :=
  (if preserve_mode then [EvChmod dstp mode] else []) ++
  (if calc_hash then [EvOpenR dstp] else []).

(** The [aggregate_copied] values the batch progress callback received. *)
Definition progress_values (tr : list event) : list Z :=
  flat_map (fun e => match e with EvProgress a _ _ _ => [a] | _ => [] end) tr.

(** The bytes written to [p], in order. *)
Definition written (p : path) (tr : list event) : list byte :=
  flat_map (fun e => match e with
                     | EvWrite q buf => if bool_decide (q = p) then buf else []
                     | _ => []
                     end) tr.

Definition is_chmod_ev (e : event) : bool :=
  match e with EvChmod _ _ => true | _ => false end.

(** The events a callback built with [observe] adds at each call. *)
Definition item_events (hp : option handler) (copied total : Z) : list event :=
  match hp with
  | Some _ => [EvItemProgress copied total]
  | None => []
  end.

(** [vs] is non-decreasing and starts at or above [lo]. *)
Fixpoint chain (lo : Z) (vs : list Z) : Prop :=
  match vs with
  | [] => True
  | v :: vs' => lo <= v /\ chain v vs'
  end.

(** No destination of the batch is also one of its sources. *)
Definition sources_untouched (items : list item) : Prop :=
  forall a b, a ∈ items -> b ∈ items ->
    Path_of_str (dst a) <> Path_of_str (src b).

Definition sources_exist (fs : gmap path node) (items : list item) : Prop :=
  Forall (fun i => is_Some (fs !! Path_of_str (src i))) items.

(** The events of the batch progress callback for one item. *)
Definition batch_item_events (agg total_bytes idx : Z) (nm : string)
    (copied total : Z) : list event :=
  [EvProgress (agg + copied) total_bytes idx nm].

(** Every node but the root lies in a directory. *)
Definition fs_wf (fs : gmap path node) : Prop :=
  forall q n, fs !! q = Some n -> q <> [] ->
    exists m, fs !! parent q = Some (Dir m).

Definition fs_wf_b (fs : gmap path node) : bool :=
  forallb (fun qn => match fst qn with
                     | [] => true
                     | _ => match fs !! parent (fst qn) with
                            | Some (Dir _) => true
                            | _ => false
                            end
                     end) (map_to_list fs).

(** Plain paths and plain worlds are the inputs on which the system
    calls of the model are those of the system.  A plain path has no [..]
    component and no NUL character, its names have at most [NAME_MAX]
    bytes and the whole at most [PATH_ROOM], which leaves room for the
    names the code appends.  In a plain world the root is a directory,
    every other node lies in a directory, every path is plain, the modes
    are permission bits, every directory can be searched by its owner, and
    the umask leaves the owner the search bit, so that the directories the
    code creates can be searched too. *)
Definition NAME_MAX : nat := 255.

Definition PATH_ROOM : nat := 1000.

(** The largest value of a C [int], the type of the [int] arguments of
    the signals. *)
Definition INT_MAX : Z := 2147483647.

(** The number of bytes of [s] in UTF-8, as the system calls receive it. *)
Fixpoint fs_bytes (s : string) : nat :=
  match s with
  | EmptyString => O
  | String c s' => ((if (N_of_ascii c <? 128)%N then 1 else 2) + fs_bytes s')%nat
  end.

Definition no_dotdot (p : path) : bool :=
  forallb (fun c => negb (String.eqb c "..")) p.

Definition plain_name (c : string) : bool :=
  negb (String.eqb c "") && negb (String.eqb c ".") && negb (String.eqb c "..") &&
  forallb (fun a => negb (Ascii.eqb a "/") && negb (Ascii.eqb a "000"))
    (list_ascii_of_string c) &&
  (fs_bytes c <=? NAME_MAX)%nat.

Definition plain_path (p : path) : bool :=
  forallb plain_name p && (fs_bytes (str_of_path p) <=? PATH_ROOM)%nat.

(** The text [s] names a plain path. *)
Definition plain (s : string) : bool := plain_path (Path_of_str s).

(** The owner may search a directory of this mode. *)
Definition can_search (mode : Z) : bool := Z.testbit mode 6.

Definition plain_node (n : node) : bool :=
  match n with
  | File m _ => (0 <=? m) && (m <=? PERM_BITS)
  | Dir m => (0 <=? m) && (m <=? PERM_BITS) && can_search m
  end.

Definition plain_fs (fs : gmap path node) : bool :=
  match fs !! [] with Some (Dir _) => true | _ => false end &&
  fs_wf_b fs &&
  forallb (fun qn : path * node => plain_path qn.1 && plain_node qn.2) (map_to_list fs).

Definition plain_world (w : world) : bool :=
  plain_fs (w_fs w) &&
  (0 <=? w_umask w) && (w_umask w <=? MODE_777) && negb (can_search (w_umask w)).

(** Neither path of the item has a [..] component: paths that differ name
    different files. *)
Definition unaliased (it : item) : bool :=
  no_dotdot (Path_of_str (src it)) && no_dotdot (Path_of_str (dst it)).

Definition plain_item (it : item) : bool := plain (src it) && plain (dst it).

(** [c] leaves the standard output alone and raises only what
    [except Exception] would catch. *)
Definition quiet {A} (c : M A) : Prop :=
  forall w r w1, c w = (r, w1) ->
    w_stdout w1 = w_stdout w /\ forall e, r = Err e -> is_Exception e = true.

(** [s] between double quotes. *)
Definition quoted (s : string) : string :=
  String "034" (String.append s (String "034" "")).

(** The text [{"ok": true, "summary": {"bytes": 0, "count": 0}}]. *)
Definition EMPTY_BATCH_REPLY : string :=
  String.concat ""
    ["{"; quoted "ok"; ": true, "; quoted "summary"; ": {";
     quoted "bytes"; ": 0, "; quoted "count"; ": 0}}"].

(** What [print(json.dumps(v))] adds to the standard output. *)
Definition printed (v : pyval) : string :=
  String.append (json_dumps v) (String "010" "").

(** The events of a probe that succeeds. *)
Definition probe_events (marker : path) : list event :=
  [EvOpenW marker; EvWrite marker (list_byte_of_string "ok"); EvUnlink marker].

(** ** Example data *)

(** A hash object that keeps what it was fed. *)
Definition toy_hash : hasher :=
  Hasher (list byte) [] (fun st block => st ++ block) string_of_list_byte.

(** [/src] holds two files, [/out] is writable, [/ro] is not, [/ro/sub] is. *)
Definition example_fs : gmap path node :=
  <[ ["src"; "a"] := File 420 (list_byte_of_string "hello") ]>
  (<[ ["src"; "c"] := File 420 (list_byte_of_string "xyz") ]>
  (<[ ["src"] := Dir 493 ]>
  (<[ ["ro"; "sub"] := Dir 493 ]>
  (<[ ["ro"] := Dir 365 ]>
  (<[ ["out"] := Dir 493 ]> {[ [] := Dir 493 ]}))))).

Definition example_world : world := World example_fs 18 [] "".

Definition item_a : item := Item "/src/a" "/out/x/a".

Definition item_b : item := Item "/src/b" "/out/b".

Definition item_c : item := Item "/src/c" "/out/c".

Definition never : handler := fun _ => None.

Definition manifest_args : Namespace := Args None None false false true.

(** An item whose source name holds an accented letter, the euro sign, a
    character above [ffff] and the lone low surrogate Python gives for a
    byte of the name that is not UTF-8. *)
Definition item_u : Unicode.item :=
  Unicode.Item (Unicode.of_string "/src/" ++ [233; 8364; 128512; 56448]%N)
    (Unicode.of_string "/out/a").

(** A source text made of a high surrogate followed by a low one, and
    what it is read back as. *)
Definition item_pair : Unicode.item :=
  Unicode.Item [55357; 56832]%N (Unicode.of_string "/out/a").

Definition item_joined : Unicode.item :=
  Unicode.Item [128512]%N (Unicode.of_string "/out/a").

(** The manifest text [{"calc_hash": true}]: options, no items. *)
Definition options_only : string :=
  String.concat "" ["{"; quoted "calc_hash"; ": true}"].

(** ** Vocabulary of the further properties *)

(** [c] touches neither the file system nor the standard output: it only
    adds events, a prefix of [evs0], and all of [evs0] when it returns. *)
Definition passive (c : M unit) (evs0 : list event) : Prop :=
  forall w r w1, c w = (r, w1) ->
    exists evs, evolves w w1 (w_fs w) evs /\ evs `prefix_of` evs0 /\
      (forall u, r = Ok u -> evs = evs0).

(** A progress callback of [copy_with_progress] that is passive. *)
Definition cb_passive (cb : option (Z -> Z -> M unit)) (f : Z -> Z -> list event)
  : Prop :=
  forall c t, passive (call_cb cb c t) (f c t).

(** [fs1] is [fs] with directories of mode [mode] added at some missing
    ancestors of [p], [p] included. *)
Definition grown (fs fs1 : gmap path node) (mode : Z) (p : path) : Prop :=
  forall q : path, fs1 !! q = fs !! q \/
    (fs !! q = None /\ fs1 !! q = Some (Dir mode) /\ q `prefix_of` p /\ q <> []).

(** The [copied] value of the last call the item progress callback
    received, 0 before its first call. *)
Definition copied_step (acc : Z) (e : event) : Z :=
  match e with EvItemProgress c _ => c | _ => acc end.

Definition last_copied (tr : list event) : Z := fold_left copied_step tr 0.

(** The calls [(copied, total)] the item progress callback received. *)
Definition item_progress_calls (tr : list event) : list (Z * Z) :=
  flat_map (fun e => match e with EvItemProgress c t => [(c, t)] | _ => [] end) tr.

(** One call per block of [BUFFER] bytes, the last block possibly shorter:
    call [i] reports [min (i * BUFFER) size] bytes out of [size]. *)
Definition expected_calls (size : Z) : list (Z * Z) :=
  List.map (fun i => (Z.min (Z.of_nat i * BUFFER) size, size))
    (seq 1 (Z.to_nat ((size + BUFFER - 1) / BUFFER))).

(** The mode the destination has once opened for writing: its own when it
    exists, [0o666] less the umask when it is created. *)
Definition opened_mode (w : world) (dstp : path) : Z :=
  match w_fs w !! dstp with
  | Some (File m _) => m
  | _ => created_mode MODE_666 w
  end.

(** [progress_cb(...)] guarded by [if progress_cb], in [copy_batch]. *)
Definition call_pcb (pcb : option (Z -> Z -> Z -> string -> M unit))
    (agg_copied agg_total idx : Z) (nm : string) : M unit :=
  match pcb with
  | Some cb => cb agg_copied agg_total idx nm
  | None => ret tt
  end.

(** A batch progress callback that is passive. *)
Definition pcb_passive (pcb : option (Z -> Z -> Z -> string -> M unit))
    (g : Z -> Z -> Z -> string -> list event) : Prop :=
  forall a t i n, passive (call_pcb pcb a t i n) (g a t i n).

(** [e] is raised by some call of the batch progress callback. *)
Definition pcb_raises (pcb : option (Z -> Z -> Z -> string -> M unit)) (e : exn)
  : Prop :=
  exists a t i n w w', call_pcb pcb a t i n w = (Err e, w').

(** The errors of a batch: an [OSError] of a transfer or of the size
    pre-pass, or what one of the two callbacks raised. *)
Definition batch_error (pcb : option (Z -> Z -> Z -> string -> M unit))
    (hf : option handler) (e : exn) : Prop :=
  is_OSError e = true \/ pcb_raises pcb e \/
  exists h tr, hf = Some h /\ h tr = Some e.

(** The events an observing batch progress callback adds at each call. *)
Definition batch_events (hp : option handler) (a t i : Z) (n : string) : list event :=
  match hp with
  | Some _ => [EvProgress a t i n]
  | None => []
  end.

(** The result of a completed transfer of [it], from the file system at
    the start. *)
Definition item_result (H : hasher) (fs : gmap path node) (calc_hash : bool)
    (it : item) : pyval :=
  match fs !! Path_of_str (src it) with
  | Some (File _ d0) =>
      PDict [("bytes", PInt (Z.of_nat (List.length d0)));
             ("hash", if calc_hash then PStr (digest_of H BUFFER d0) else PNone);
             ("dst", PStr (posix_str (dst it)))]
  | _ => PNone
  end.

(** One [file_done] call per item, with consecutive indices from [idx]. *)
Fixpoint done_reports (H : hasher) (fs : gmap path node) (calc_hash : bool)
    (idx : Z) (items : list item) : list event :=
  match items with
  | [] => []
  | it :: items' =>
      EvFileDone idx (item_result H fs calc_hash it)
        :: done_reports H fs calc_hash (idx + 1) items'
  end.

(** The calls the [file_done] callback received. *)
Definition file_done_events (tr : list event) : list event :=
  List.filter (fun e => match e with EvFileDone _ _ => true | _ => false end) tr.

(** In [fs1] the destination of [it] holds the bytes its source has in
    [fs], and the source still has them. *)
Definition in_place (fs fs1 : gmap path node) (preserve_mode : bool) (it : item)
  : Prop :=
  exists m0 d0 m1,
    fs !! Path_of_str (src it) = Some (File m0 d0) /\
    fs1 !! Path_of_str (src it) = Some (File m0 d0) /\
    fs1 !! Path_of_str (dst it) = Some (File m1 d0) /\
    (preserve_mode = true -> m1 = Z.land m0 PERM_BITS).

(** No two items of the batch have the same destination. *)
Definition dsts_distinct (items : list item) : Prop :=
  NoDup (List.map (fun it => Path_of_str (dst it)) items).

(** In [w] the item [it] can be copied: its source is a file that can
    be read, its destination is absent or a file that can be written, in
    a directory that exists and can be written, and the copy can be read
    back when its digest is asked for. *)
Definition copyable (w : world) (preserve_mode calc_hash : bool) (it : item) : Prop :=
  let srcp := Path_of_str (src it) in
  let dstp := Path_of_str (dst it) in
  (exists m0 d0, w_fs w !! srcp = Some (File m0 d0) /\ can_read m0 = true) /\
  (exists md, w_fs w !! parent dstp = Some (Dir md) /\ can_write md = true) /\
  (w_fs w !! dstp = None \/
   exists m d1, w_fs w !! dstp = Some (File m d1) /\ can_write m = true) /\
  (calc_hash = true -> preserve_mode = false -> can_read (opened_mode w dstp) = true).

(** ** io.py: [walk_tree] and [total_size_of_sources]

    [os.walk] is modelled on the file system map.  The order in which
    [os.scandir] lists a directory is not specified by the platform: it is
    the parameter [order] of the functions below, a function that
    rearranges the names found in the directory whose path it is given.
    Directories are listed with the owner read bit; as everywhere in the
    model there are no symbolic links. *)

(** The name of [q] when [q] lies directly in [p]. *)
Definition child_name (p q : path) : option string :=
  if bool_decide (q <> [] /\ parent q = p) then Some (name q) else None.

(** The names in directory [p], in the order of the map. *)
Definition entries (fs : gmap path node) (p : path) : list string :=
  omap (fun qn : path * node => child_name p qn.1) (map_to_list fs).

(** [os.scandir(top)]: [None] stands for the [OSError] that [os.walk]
    ignores. *)
Definition scandir (order : path -> list string -> list string)
    (fs : gmap path node) (top : path) : option (list string) :=
  match fs !! top with
  | Some (Dir m) => if can_read m then Some (order top (entries fs top)) else None
  | _ => None
  end.

(** [entry.is_dir()]. *)
Definition entry_is_dir (fs : gmap path node) (top : path) (c : string) : bool :=
  match fs !! joinpath top c with
  | Some (Dir _) => true
  | _ => false
  end.

(** [os.walk(top)], top-down: the triples [(root, dirs, files)] in the
    order they are yielded.  [fuel] bounds the depth of the descent. *)
Fixpoint walk (order : path -> list string -> list string) (fuel : nat)
    (fs : gmap path node) (top : path)
  : list (string * list string * list string) :=
  match fuel with
  | O => []
  | S fuel' =>
      match scandir order fs top with
      | None => []
      | Some names =>
          let dirs := List.filter (entry_is_dir fs top) names in
          let nondirs := List.filter (fun c => negb (entry_is_dir fs top c)) names in
          (str_of_path top, dirs, nondirs)
            :: flat_map (fun c => walk order fuel' fs (joinpath top c)) dirs
      end
  end.

(** More than the length of the longest path of [fs]. *)
Definition walk_fuel (fs : gmap path node) : nat :=
  S (max_list (List.map (fun qn : path * node => List.length qn.1) (map_to_list fs))).

Definition os_walk (order : path -> list string -> list string)
    (fs : gmap path node) (top : path)
  : list (string * list string * list string) :=
  walk order (walk_fuel fs) fs top.

(** [Path.resolve()]: the path is absolute already; a [..] component
    removes the component before it (there are no symbolic links). *)
Definition resolve (p : path) : path :=
  fold_left (fun acc c => if String.eqb c ".." then removelast acc else acc ++ [c])
    p [].

(** [r.relative_to(base)]; [None] stands for its [ValueError]. *)
Definition relative_to (r base : path) : option path :=
  if bool_decide (base `prefix_of` r) then Some (drop (List.length base) r) else None.

(** The loop of [walk_tree] over the triples of the walk. *)
Fixpoint walk_tree_loop (src_dir_p dest_root_p : path)
    (triples : list (string * list string * list string))
    (items : list (string * string)) : option (list (string * string)) :=
  match triples with
  | [] => Some items
  | (root, _, files) :: rest =>
      let r := Path_of_str root in
      match relative_to r src_dir_p with
      | None => None
      | Some rel =>
          walk_tree_loop src_dir_p dest_root_p rest
            (items ++
             List.map (fun nm => (str_of_path (joinpath r nm),
                                  str_of_path (joinpath (dest_root_p ++ rel) nm)))
               files)
      end
  end.

(** [walk_tree(src_dir, dest_root)] in the file system [fs]; [None] stands
    for the [ValueError] of [relative_to]. *)
Definition walk_tree (order : path -> list string -> list string)
    (src_dir dest_root : string) (fs : gmap path node)
  : option (list (string * string)) :=
  let src_dir_p := resolve (Path_of_str src_dir) in
  let dest_root_p := resolve (Path_of_str dest_root) in
  walk_tree_loop src_dir_p dest_root_p (os_walk order fs src_dir_p) [].

(** [p.is_file()]. *)
Definition path_is_file (p : path) : M bool :=
  fun w =>
    match w_fs w !! p with
    | Some (File _ _) => (Ok true, w)
    | _ => (Ok false, w)
    end.

(** The loops of [total_size_of_sources] over the files of one triple and
    over the triples of a walk. *)
Fixpoint sum_files (root : path) (files : list string) (total : Z) : M Z :=
  match files with
  | [] => ret total
  | nm :: files' =>
      st <- path_stat (joinpath root nm) ;;
      sum_files root files' (total + st_size st)
  end.

Fixpoint sum_walk (triples : list (string * list string * list string)) (total : Z)
  : M Z :=
  match triples with
  | [] => ret total
  | (root, _, files) :: rest =>
      t <- sum_files (Path_of_str root) files total ;;
      sum_walk rest t
  end.

Fixpoint total_size_loop (order : path -> list string -> list string)
    (sources : list string) (total : Z) : M Z :=
  match sources with
  | [] => ret total
  | s :: sources' =>
      let p := Path_of_str s in
      f <- path_is_file p ;;
      if f then
        st <- path_stat p ;;
        total_size_loop order sources' (total + st_size st)
      else
        d <- path_is_dir p ;;
        if d then
          t <- (fun w => sum_walk (os_walk order (w_fs w) p) total w) ;;
          total_size_loop order sources' t
        else total_size_loop order sources' total
  end.

Definition total_size_of_sources (order : path -> list string -> list string)
    (sources : list string) : M Z :=
  total_size_loop order sources 0.

(** *** Vocabulary *)

(** [c] holds no [/]. *)
Definition noslash (c : string) : bool :=
  forallb (fun a => negb (Ascii.eqb a "/")) (list_ascii_of_string c).

(** A name a directory entry can have. *)
Definition valid_name (c : string) : bool :=
  negb (String.eqb c "") && negb (String.eqb c ".") &&
  forallb (fun a => negb (Ascii.eqb a "/")) (list_ascii_of_string c).

(** Every component of every path of [fs] is a name. *)
Definition names_valid (fs : gmap path node) : Prop :=
  forall (q : path) n, fs !! q = Some n -> forallb valid_name q = true.

Definition names_valid_b (fs : gmap path node) : bool :=
  forallb (fun qn : path * node => forallb valid_name qn.1) (map_to_list fs).

(** The directories [top], [top/c1], ..., down to the parent of
    [top/c1/.../cn] exist and can be listed. *)
Fixpoint readable_chain (fs : gmap path node) (top : path) (rel : list string) : bool :=
  match rel with
  | [] => true
  | c :: rel' =>
      match fs !! top with
      | Some (Dir m) => can_read m
      | _ => false
      end && readable_chain fs (joinpath top c) rel'
  end.

(** [f] is something other than a directory. *)
Definition is_nondir (fs : gmap path node) (f : path) : Prop :=
  exists m d, fs !! f = Some (File m d).

(** The size of the regular file at [p], 0 when there is none. *)
Definition file_size (fs : gmap path node) (p : path) : Z :=
  match fs !! p with
  | Some (File _ d) => Z.of_nat (List.length d)
  | _ => 0
  end.

(** The sum of the sizes of the regular files among [ps]. *)
Fixpoint files_total (fs : gmap path node) (ps : list path) : Z :=
  match ps with
  | [] => 0
  | p :: ps' => file_size fs p + files_total fs ps'
  end.

(** The pair [walk_tree] makes for the file [f] found below [top]. *)
Definition mirror_pair (top dest : path) (f : path) : string * string :=
  (str_of_path f, str_of_path (dest ++ drop (List.length top) f)).

(** The batch items made of the pairs [walk_tree] returns, as
    [MainWindow._start_copy] builds them. *)
Definition items_of_pairs (pairs : list (string * string)) : list item :=
  List.map (fun sd : string * string => Item sd.1 sd.2) pairs.

(** The paths of the files a walk lists. *)
Definition files_of_walk (triples : list (string * list string * list string))
  : list path :=
  flat_map (fun t : string * list string * list string =>
              List.map (joinpath (Path_of_str t.1.1)) t.2) triples.

(** The identity listing order. *)
Definition as_listed (p : path) (l : list string) : list string := l.

(** A tree: [/t/a], [/t/sub/b], an unreadable [/t/hid] holding [/t/hid/c]. *)
Definition tree_fs : gmap path node :=
  <[ ["t"; "a"] := File 420 (list_byte_of_string "aa") ]>
  (<[ ["t"; "sub"; "b"] := File 420 (list_byte_of_string "bbb") ]>
  (<[ ["t"; "sub"] := Dir 493 ]>
  (<[ ["t"; "hid"; "c"] := File 420 (list_byte_of_string "c") ]>
  (<[ ["t"; "hid"] := Dir 192 ]>
  (<[ ["t"] := Dir 493 ]>
  (<[ ["out"] := Dir 493 ]> {[ [] := Dir 493 ]})))))).

Definition tree_world : world := World tree_fs 18 [] "".

(** ** workers.py

    A worker reports through signals.  The intermediate signals
    ([progress], [file_done]) are recorded in the trace, as the calls of
    the callbacks they come from; the signal that ends [run] ([done] or
    [failed]) is what [run] returns here.  [failed] carries [str(e)]: the
    model keeps [e].  The flag [_cancel] is set by another thread:
    [cancelled] tells, from what happened so far, whether it is set when
    the callback reads it. *)

Inductive signal :=
| SigDone (payload : pyval)
| SigFailed (e : exn).

Definition CANCELLED : exn := RuntimeError "Cancelled".

(** [cb] of [CopyWorker.run]. *)
Definition worker_cb (cancelled : list event -> bool) (copied total : Z) : M unit :=
  fun w =>
    if cancelled (w_trace w) then (Err CANCELLED, w)
    else (Ok tt, emit (EvItemProgress copied total) w).

(** [pcb] and [fdb] of [BatchCopyWorker.run]. *)
Definition worker_pcb (cancelled : list event -> bool)
    (agg_copied agg_total idx : Z) (nm : string) : M unit :=
  fun w =>
    if cancelled (w_trace w) then (Err CANCELLED, w)
    else (Ok tt, emit (EvProgress agg_copied agg_total idx nm) w).

Definition worker_fdb (idx : Z) (result : pyval) : M unit :=
  fun w => (Ok tt, emit (EvFileDone idx result) w).

Definition CopyWorker_run (sha256 : hasher) (cancelled : list event -> bool)
    (src dst : pyval) (preserve_mode calc_hash : bool) : M signal :=
  try_except
    (result <- copy_with_progress sha256 src dst preserve_mode calc_hash
                 (Some (worker_cb cancelled)) ;;
     ret (SigDone result))
    is_Exception
    (fun e => ret (SigFailed e)).

Definition BatchCopyWorker_run (sha256 : hasher) (cancelled : list event -> bool)
    (items : pyval) (preserve_mode calc_hash : bool) : M signal :=
  try_except
    (summary <- copy_batch sha256 items preserve_mode calc_hash
                  (Some (worker_pcb cancelled)) (Some worker_fdb) ;;
     ret (SigDone summary))
    is_Exception
    (fun e => ret (SigFailed e)).

(** The arguments declared [int] of a signal are C++ [int]s, which the
    callbacks above emit as the integers they are given: the values that
    go through unchanged, to which the theorems on the signals keep. *)
Definition fits_int (z : Z) : bool := (- INT_MAX - 1 <=? z) && (z <=? INT_MAX).

(** The size [stat] reports for [p], 0 when there is nothing at [p]. *)
Definition size_at (fs : gmap path node) (p : path) : Z :=
  match fs !! p with
  | Some n => st_size (stat_of n)
  | None => 0
  end.

(** ** main_window.py: reading the answer of the helper

    What [_run_elevated_batch] does with the [CompletedProcess] that
    [subprocess.run] returns.  The message shown at the end is kept as the
    two values it is formatted from. *)

Record CompletedProcess := Completed {
  returncode : Z;
  stdout : string;
  stderr : string
}.

(** What [except Exception as e] receives: a [RuntimeError] made of a
    value, or an exception raised by [json.loads] or by [.get]. *)
Inductive elevated_error :=
| RuntimeError_of (arg : pyval)
| Raised (e : exn).

Definition FAILED_MSG : string := "Elevated batch copy failed".

(** The characters [str.strip] removes, among the code points below 256. *)
Definition is_space (c : ascii) : bool :=
  let n := N_of_ascii c in
  (((9 <=? n) && (n <=? 13)) || ((28 <=? n) && (n <=? 32)) ||
   (n =? 133) || (n =? 160))%N.

Fixpoint lstrip (l : list ascii) : list ascii :=
  match l with
  | c :: l' => if is_space c then lstrip l' else l
  | [] => []
  end.

(** [s.strip()]. *)
Definition strip (s : string) : string :=
  string_of_list_ascii
    (List.rev (lstrip (List.rev (lstrip (list_ascii_of_string s))))).

(** [a or b] on [str]. *)
Definition str_or (a b : string) : string := if String.eqb a "" then b else a.

(** [v.get(k, default)]. *)
Definition py_get (v : pyval) (k : string) (default : pyval)
  : elevated_error + pyval :=
  match v with
  | PDict kvs => inr (match dict_get k kvs with Some x => x | None => default end)
  | _ => inl (Raised AttributeError)
  end.

(** The body of the [try] after [subprocess.run], for a batch of
    [n_items] items: the error handed to the [except] clause, or the
    [count] and [bytes_copied] of the final message. *)
Definition read_answer (n_items : Z) (res : CompletedProcess)
  : elevated_error + (pyval * pyval) :=
  if negb (returncode res =? 0) then
    inl (RuntimeError_of (PStr (str_or (strip (stderr res)) FAILED_MSG)))
  else
    match json_loads (str_or (stdout res) "{}") with
    | None => inl (Raised JSONDecodeError)
    | Some out =>
        match py_get out "ok" PNone with
        | inl e => inl e
        | inr ok =>
            if negb (py_bool ok) then
              match py_get out "error" (PStr FAILED_MSG) with
              | inl e => inl e
              | inr msg => inl (RuntimeError_of msg)
              end
            else
              match py_get out "summary" (PDict []) with
              | inl e => inl e
              | inr summary =>
                  match py_get summary "count" (PInt n_items) with
                  | inl e => inl e
                  | inr count =>
                      match py_get summary "bytes" (PInt 0) with
                      | inl e => inl e
                      | inr bytes_copied => inr (count, bytes_copied)
                      end
                  end
              end
        end
    end.

(** The summary of a batch. *)
Definition batch_summary (fs : gmap path node) (items : list item) : pyval :=
  PDict [("bytes", PInt (total_source_size fs items));
         ("count", PInt (Z.of_nat (List.length items)))].

(** ** main_window.py: the list of sources and [_start_copy]

    The widgets are read as values: the items of [sources_list], the
    text of [dst_edit] and the three check boxes.  What the user answers
    to the overwrite question is the function [ask] of the conflicts
    shown.  The message boxes, the elevated batch and the worker thread
    are the outcomes of [_start_copy]; the two settings it saves go with
    the outcome. *)

(** The [Qt.UserRole] data of a source. *)
Record source_meta := Meta { meta_path : string; meta_is_dir : bool }.

(** A [QListWidgetItem]: its text and its data. *)
Record QListWidgetItem := ListItem {
  it_text : string;
  it_data : option source_meta
}.

Record MainWindow := Window {
  sources_list : list QListWidgetItem;
  dst_edit : string;
  chk_overwrite : bool;
  chk_preserve : bool;
  chk_hash : bool
}.

Definition DIR_TAG : string := "[DIR] ".

(** [p.is_dir()] and [p.exists()] as functions of the file system. *)
Definition is_dir_b (fs : gmap path node) (p : path) : bool :=
  match fs !! p with
  | Some (Dir _) => true
  | _ => false
  end.

Definition exists_b (fs : gmap path node) (p : path) : bool :=
  match fs !! p with
  | Some _ => true
  | None => false
  end.

(** [_add_source_item(path)]. *)
Definition _add_source_item (path : string) (self : MainWindow) : M MainWindow :=
  d <- path_is_dir (Path_of_str path) ;;
  let it := if d then ListItem (String.append DIR_TAG path) (Some (Meta path true))
            else ListItem path (Some (Meta path false)) in
  ret (Window (sources_list self ++ [it]) (dst_edit self) (chk_overwrite self)
         (chk_preserve self) (chk_hash self)).

(** [l] starts with [old]. *)
Fixpoint starts_with (old l : list ascii) : bool :=
  match old, l with
  | [], _ => true
  | a :: old', b :: l' => Ascii.eqb a b && starts_with old' l'
  | _ :: _, [] => false
  end.

(** [s.replace(old, "")] for a non-empty [old], from left to right;
    [skip] characters of the occurrence found are still to be dropped. *)
Fixpoint remove_all (old : list ascii) (skip : nat) (l : list ascii) : list ascii :=
  match l with
  | [] => []
  | c :: l' =>
      match skip with
      | S k => remove_all old k l'
      | O => if starts_with old l then remove_all old (List.length old - 1) l'
             else c :: remove_all old 0 l'
      end
  end.

Definition without_dir_tag (s : string) : string :=
  string_of_list_ascii (remove_all (list_ascii_of_string DIR_TAG) 0 (list_ascii_of_string s)).

(** The first loop of [_start_copy]: the sources of the list. *)
Definition collect_sources (fs : gmap path node) (l : list QListWidgetItem)
  : list source_meta :=
  List.map (fun it =>
              match it_data it with
              | None =>
                  let p := without_dir_tag (it_text it) in
                  Meta p (is_dir_b fs (Path_of_str p))
              | Some meta => Meta (meta_path meta) (meta_is_dir meta)
              end) l.

(** [s.endswith(os.sep)]. *)
Definition ends_with_sep (s : string) : bool :=
  match List.rev (list_ascii_of_string s) with
  | c :: _ => Ascii.eqb c "/"
  | [] => false
  end.

(** [p / nm] for a name [nm], which holds no [/]: an empty name adds
    nothing. *)
Definition join_name (p : path) (nm : string) : path := p ++ Path_of_str nm.

Definition MSG_NO_SOURCE : string := "Add at least one file or folder to copy.".

Definition MSG_NO_DST : string :=
  "Choose a destination folder (or a full file path for a single file).".

Definition MSG_NOTHING : string := "Nothing to copy.".

(** How [_start_copy] ends. *)
Inductive start_outcome :=
| Warned (msg : string)
| CannotCreate (e : exn)
| ValueError_raised
| Declined (conflicts : list item)
| Elevated (items : list item) (settings : list (string * string))
| Started (items : list item) (preserve_mode calc_hash : bool)
    (settings : list (string * string)).

(** [try: d.mkdir(parents=True, exist_ok=True)  except Exception as e]:
    the exception caught, if any. *)
Definition ensure_dir (d : path) : M (option exn) :=
  try_except (path_mkdir_parents d ;;; ret None) is_Exception (fun e => ret (Some e)).

(** [len(sources) == 1 and not sources[0]["is_dir"]]. *)
Definition single_source (sources : list source_meta) : bool :=
  match sources with
  | [s] => negb (meta_is_dir s)
  | _ => false
  end.

(** The branch of a single file: the items, or the outcome that ends
    [_start_copy]. *)
Definition plan_single (s : source_meta) (dst_input : string)
  : M (start_outcome + list item) :=
  fun w =>
    let dst_p := Path_of_str dst_input in
    let src := Path_of_str (meta_path s) in
    let '(base_dir, final_dst) :=
      if exists_b (w_fs w) dst_p && is_dir_b (w_fs w) dst_p
      then (dst_p, join_name dst_p (name src))
      else if ends_with_sep dst_input
      then (Path_of_str dst_input, join_name (Path_of_str dst_input) (name src))
      else (parent dst_p, dst_p) in
    (r <- ensure_dir base_dir ;;
     match r with
     | Some e => ret (inl (CannotCreate e))
     | None => ret (inr [Item (str_of_path src) (str_of_path final_dst)])
     end) w.

(** The loop over the sources in the other branch; [None] stands for the
    [ValueError] of [walk_tree]. *)
Fixpoint plan_sources (order : path -> list string -> list string)
    (dest_root : path) (sources : list source_meta) (fs : gmap path node)
    (items : list item) : option (list item) :=
  match sources with
  | [] => Some items
  | s :: rest =>
      let p := Path_of_str (meta_path s) in
      if meta_is_dir s then
        match walk_tree order (str_of_path p)
                (str_of_path (join_name dest_root (name p))) fs with
        | None => None
        | Some pairs =>
            plan_sources order dest_root rest fs (items ++ items_of_pairs pairs)
        end
      else
        plan_sources order dest_root rest fs
          (items ++ [Item (str_of_path p) (str_of_path (join_name dest_root (name p)))])
  end.

Definition plan_multi (order : path -> list string -> list string)
    (sources : list source_meta) (dst_input : string)
  : M (start_outcome + list item) :=
  fun w =>
    let dst_p := Path_of_str dst_input in
    let dest_root :=
      if exists_b (w_fs w) dst_p && is_dir_b (w_fs w) dst_p then dst_p
      else if ends_with_sep dst_input then Path_of_str dst_input
      else dst_p in
    (r <- ensure_dir dest_root ;;
     match r with
     | Some e => ret (inl (CannotCreate e))
     | None =>
         fun w1 =>
           match plan_sources order dest_root sources (w_fs w1) [] with
           | None => (Ok (inl ValueError_raised), w1)
           | Some items => (Ok (inr items), w1)
           end
     end) w.

(** The two settings saved before the copy is launched. *)
Definition saved_settings (fs : gmap path node) (dst_input : string)
  : list (string * string) :=
  let dst_p := Path_of_str dst_input in
  [("paths/last_dst", dst_input);
   ("paths/last_dst_dir",
    str_of_path (if is_dir_b fs dst_p || ends_with_sep dst_input
                 then dst_p else parent dst_p))].

(** [any(needs_elevation(Path(i["dst"]).as_posix()) for i in items)]. *)
Fixpoint any_needs_elevation (items : list item) : M bool :=
  match items with
  | [] => ret false
  | it :: rest =>
      b <- needs_elevation (str_of_path (Path_of_str (dst it))) ;;
      if b then ret true else any_needs_elevation rest
  end.

(** [_start_copy] once the items are known. *)
Definition launch (ask : list item -> bool) (self : MainWindow) (dst_input : string)
    (items : list item) : M start_outcome :=
  match items with
  | [] => ret (Warned MSG_NOTHING)
  | _ =>
      fun w =>
        let conflicts :=
          List.filter (fun i => exists_b (w_fs w) (Path_of_str (dst i))) items in
        if negb (chk_overwrite self) &&
           match conflicts with [] => false | _ => negb (ask conflicts) end
        then (Ok (Declined conflicts), w)
        else
          let settings := saved_settings (w_fs w) dst_input in
          (b <- any_needs_elevation items ;;
           if b then ret (Elevated items settings)
           else ret (Started items (chk_preserve self) (chk_hash self) settings)) w
  end.

Definition _start_copy (order : path -> list string -> list string)
    (ask : list item -> bool) (self : MainWindow) : M start_outcome :=
  fun w =>
    let sources := collect_sources (w_fs w) (sources_list self) in
    match sources with
    | [] => (Ok (Warned MSG_NO_SOURCE), w)
    | s :: _ =>
        let dst_input := strip (dst_edit self) in
        if String.eqb dst_input "" then (Ok (Warned MSG_NO_DST), w)
        else
          (planned <- (if single_source sources then plan_single s dst_input
                       else plan_multi order sources dst_input) ;;
           match planned with
           | inl o => ret o
           | inr items => launch ask self dst_input items
           end) w
    end.

(** What probes may do to a file system: a file that has the name of
    the marker may be deleted or overwritten; nothing else changes. *)
Definition probed (fs fs' : gmap path node) : Prop :=
  forall q : path,
    fs' !! q = fs !! q \/
    (name q = WRITE_TEST /\ (exists m d, fs !! q = Some (File m d)) /\
     (fs' !! q = None \/ exists m d, fs' !! q = Some (File m d))).

(** The directory probed for [it] can be written. *)
Definition dst_dir_writable (fs : gmap path node) (it : item) : Prop :=
  exists m, fs !! probe_base fs (Path_of_str (dst it)) = Some (Dir m) /\
            can_write m = true.

(** The text [s] is an absolute path with one leading slash, so that
    [str(Path(s))] is [str_of_path (Path_of_str s)]. *)
Definition absolute (s : string) : bool := String.eqb (posix_root s) "/".

(** The paths the window holds are plain: the sources of its list and the
    destination typed, which is absolute. *)
Definition plain_window (fs : gmap path node) (self : MainWindow) : bool :=
  forallb (fun s => plain (meta_path s)) (collect_sources fs (sources_list self)) &&
  plain (strip (dst_edit self)) && absolute (strip (dst_edit self)).

(** The window with nothing in it. *)
Definition empty_window : MainWindow := Window [] "" false true false.

Definition set_dst (d : string) (self : MainWindow) : MainWindow :=
  Window (sources_list self) d (chk_overwrite self) (chk_preserve self) (chk_hash self).

Definition say_no (conflicts : list item) : bool := false.

(** A handler that cancels at once. *)
Definition cancel_now : handler := fun _ => Some CANCELLED.

(** [example_fs] with a marker left in [/out] and one in [/ro]. *)
Definition stale_fs : gmap path node :=
  <[ ["out"; WRITE_TEST] := File 420 (list_byte_of_string "mine") ]>
  (<[ ["ro"; WRITE_TEST] := File 420 (list_byte_of_string "mine") ]> example_fs).

Definition stale_world : world := World stale_fs 18 [] "".

(** The window after [/t] was added and [ /out ] typed. *)
Definition folder_window : MainWindow :=
  Window [ListItem "[DIR] /t" (Some (Meta "/t" true))] " /out " false true false.

(** Two files, to be copied into [/out]. *)
Definition files_window : MainWindow :=
  Window [ListItem "/t/a" (Some (Meta "/t/a" false));
          ListItem "/t/sub/b" (Some (Meta "/t/sub/b" false))] "/out" false true true.

(** Two files, to be copied into a new folder of [/ro]. *)
Definition protected_window : MainWindow :=
  Window [ListItem "/src/a" (Some (Meta "/src/a" false));
          ListItem "/src/c" (Some (Meta "/src/c" false))] "/ro/new" true true false.

(** Two files of [/src], to be copied into [/out]. *)
Definition flat_items : list item := [Item "/src/a" "/out/a"; item_c].

Arguments Path_of_str : simpl never.
Arguments can_write : simpl never.
Arguments can_read : simpl never.

(** * Properties *)

(** ** json round trip *)

Lemma parse_str_escape c tl :
  parse_str (escape_char c ++ tl) = cons_fst c (parse_str tl).
Proof.
  destruct c as [b0 b1 b2 b3 b4 b5 b6 b7].
  destruct b0, b1, b2, b3, b4, b5, b6, b7; reflexivity.
Qed.

Lemma parse_str_dumps cs : forall rest,
  parse_str (flat_map escape_char cs ++ "034"%char :: rest) = Some (cs, rest).
Proof.
  induction cs as [|c cs IH]; intros rest.
  - reflexivity.
  - cbn [flat_map]. rewrite <- app_assoc, parse_str_escape, IH. reflexivity.
Qed.

Lemma span_digits_uint u : forall rest,
  no_digit_head rest ->
  span_digits (uint_chars u ++ rest) = (uint_chars u, rest).
Proof.
  unfold uint_chars.
  induction u as [|u IH|u IH|u IH|u IH|u IH|u IH|u IH|u IH|u IH|u IH];
    intros rest Hrest;
    try (cbn [NilEmpty.string_of_uint list_ascii_of_string app span_digits];
         change (is_digit _) with true; cbn iota; rewrite IH by assumption;
         reflexivity).
  cbn. destruct rest as [|c rest]; [reflexivity|].
  cbn in Hrest. cbn [span_digits]. rewrite Hrest. reflexivity.
Qed.

Lemma unorm_D0_fixed u : Decimal.unorm (Decimal.D0 u) = Decimal.D0 u -> u = Decimal.Nil.
Proof.
  rewrite DecimalFacts.unorm_D0. unfold Decimal.unorm.
  destruct (Decimal.nzhead u) eqn:E; intros H.
  - injection H as <-. reflexivity.
  - exfalso. apply (DecimalFacts.nzhead_nonzero u u). congruence.
  - discriminate. - discriminate. - discriminate. - discriminate.
  - discriminate. - discriminate. - discriminate. - discriminate. - discriminate.
Qed.

Lemma to_uint_normal p : Decimal.unorm (Pos.to_uint p) = Pos.to_uint p.
Proof.
  rewrite <- DecimalPos.Unsigned.to_of, DecimalPos.Unsigned.of_to. reflexivity.
Qed.

Lemma parse_digits_uint u rest (neg : bool) :
  u <> Decimal.Nil -> Decimal.unorm u = u -> no_digit_head rest ->
  (let (ds, r) := span_digits (uint_chars u ++ rest) in
   match ds with
   | [] => None
   | d :: ds' =>
       if (N_of_ascii d =? 48)%N && negb (bool_decide (ds' = [])) then None
       else
         match NilZero.uint_of_string (string_of_list_ascii ds) with
         | Some u => Some (Z.of_int (if neg then Decimal.Neg u else Decimal.Pos u), r)
         | None => None
         end
   end) = Some (Z.of_int (if neg then Decimal.Neg u else Decimal.Pos u), rest).
Proof.
  intros Hnil Hnorm Hrest. rewrite span_digits_uint by assumption.
  assert (Hu : NilZero.uint_of_string (string_of_list_ascii (uint_chars u)) = Some u).
  { unfold uint_chars. rewrite string_of_list_ascii_of_string.
    replace (NilEmpty.string_of_uint u) with (NilZero.string_of_uint u)
      by (destruct u; [congruence|reflexivity..]).
    apply NilZero.usu. assumption. }
  destruct (uint_chars u) as [|d ds'] eqn:E.
  { destruct u; discriminate || congruence. }
  assert (Hz : (N_of_ascii d =? 48)%N && negb (bool_decide (ds' = [])) = false).
  { unfold uint_chars in E. destruct u; try congruence; cbn in E;
      injection E as <- <-; try reflexivity.
    apply unorm_D0_fixed in Hnorm. subst u. reflexivity. }
  rewrite Hz, Hu. reflexivity.
Qed.

Lemma uint_chars_head u :
  u <> Decimal.Nil ->
  exists c tl, uint_chars u = c :: tl /\ is_digit c = true /\
               (N_of_ascii c =? 45)%N = false.
Proof.
  intros Hu. unfold uint_chars. destruct u; [congruence|..];
    cbn; eexists _, _; (split; [reflexivity|]); split; reflexivity.
Qed.

Lemma dumps_int_cases z :
  (exists u, u <> Decimal.Nil /\ Decimal.unorm u = u /\
     dumps_int z = uint_chars u /\ Z.of_int (Decimal.Pos u) = z) \/
  (exists u, u <> Decimal.Nil /\ Decimal.unorm u = u /\
     dumps_int z = "-"%char :: uint_chars u /\ Z.of_int (Decimal.Neg u) = z).
Proof.
  unfold dumps_int, uint_chars. destruct z as [|p|p].
  - left. exists Decimal.zero. repeat split; try reflexivity. discriminate.
  - left. exists (Pos.to_uint p). split; [apply DecimalPos.Unsigned.to_uint_nonnil|].
    split; [apply to_uint_normal|]. split.
    + cbn. pose proof (DecimalPos.Unsigned.to_uint_nonnil p).
      destruct (Pos.to_uint p); [congruence|reflexivity..].
    + apply (DecimalZ.of_to (Z.pos p)).
  - right. exists (Pos.to_uint p). split; [apply DecimalPos.Unsigned.to_uint_nonnil|].
    split; [apply to_uint_normal|]. split.
    + cbn. pose proof (DecimalPos.Unsigned.to_uint_nonnil p).
      destruct (Pos.to_uint p); [congruence|reflexivity..].
    + apply (DecimalZ.of_to (Z.neg p)).
Qed.

Lemma parse_int_dumps z rest :
  no_digit_head rest -> parse_int (dumps_int z ++ rest) = Some (z, rest).
Proof.
  intros Hrest.
  destruct (dumps_int_cases z) as [(u & Hnil & Hnorm & -> & Hz)|(u & Hnil & Hnorm & -> & Hz)].
  - unfold parse_int.
    destruct (uint_chars_head u Hnil) as (c & tl & E & Hd & H45).
    assert (Hsplit : match uint_chars u ++ rest with
                     | c :: l' => if (N_of_ascii c =? 45)%N then (true, l')
                                  else (false, uint_chars u ++ rest)
                     | [] => (false, uint_chars u ++ rest)
                     end = (false, uint_chars u ++ rest)).
    { rewrite E. cbn [app]. rewrite H45. reflexivity. }
    rewrite Hsplit.
    rewrite <- Hz. apply (parse_digits_uint u rest false); assumption.
  - unfold parse_int. cbn [app]. change (N_of_ascii "-" =? 45)%N with true. cbn iota.
    rewrite <- Hz. apply (parse_digits_uint u rest true); assumption.
Qed.

Lemma dumps_int_head z :
  exists c tl, dumps_int z = c :: tl /\
    ((N_of_ascii c =? 45)%N || is_digit c) = true.
Proof.
  destruct (dumps_int_cases z) as [(u & Hnil & _ & -> & _)|(u & Hnil & _ & -> & _)].
  - destruct (uint_chars_head u Hnil) as (c & tl & E & Hd & H45).
    exists c, tl. rewrite Hd, orb_true_r. auto.
  - eexists _, _. split; reflexivity.
Qed.

Lemma size_list l : size (PList l) = S (size_elems l).
Proof. cbn [size]. f_equal; induction l as [|x l IH]; cbn; congruence. Qed.

Lemma size_dict kvs : size (PDict kvs) = S (size_members kvs).
Proof. cbn [size]. f_equal; induction kvs as [|x l IH]; cbn; congruence. Qed.

Lemma json_wf_list l : json_wf (PList l) <-> Forall json_wf l.
Proof.
  cbn [json_wf]. induction l as [|x l IH].
  - split; constructor.
  - rewrite Forall_cons, <- IH; reflexivity.
Qed.

Lemma json_wf_dict kvs :
  json_wf (PDict kvs) <->
  NoDup (List.map fst kvs) /\ Forall (fun kv => json_wf (snd kv)) kvs.
Proof.
  cbn [json_wf]. apply and_iff_compat_l. induction kvs as [|x l IH].
  - split; constructor.
  - rewrite Forall_cons, <- IH; reflexivity.
Qed.

Lemma dumps_list l : dumps (PList l) = "["%char :: dumps_elems l ++ ["]"%char].
Proof. reflexivity. Qed.

Lemma dumps_dict kvs : dumps (PDict kvs) = "{"%char :: dumps_members kvs ++ ["}"%char].
Proof. reflexivity. Qed.

Lemma dumps_elems_cons x y l :
  dumps_elems (x :: y :: l) = dumps x ++ ","%char :: " "%char :: dumps_elems (y :: l).
Proof. reflexivity. Qed.

Lemma dumps_members_cons k v kv l :
  dumps_members ((k, v) :: kv :: l) =
  dumps_str k ++ ":"%char :: " "%char :: dumps v
    ++ ","%char :: " "%char :: dumps_members (kv :: l).
Proof. reflexivity. Qed.

Lemma dumps_starts v : json_wf v -> starts_value (dumps v).
Proof.
  intros Hwf.
  destruct v as [|[]|z|t|s|l|kvs]; try (eexists _, _; repeat split; reflexivity);
    [|destruct Hwf].
  destruct (dumps_int_head z) as (c & tl & E & H).
  exists c, tl. cbn [dumps]. split; [assumption|].
  unfold is_ws, is_digit in *.
  destruct (N_of_ascii c) as [|p] eqn:Ec; [discriminate|].
  repeat split; apply not_true_is_false; intros Hx;
    rewrite ?orb_true_iff, ?andb_true_iff, ?N.eqb_eq, ?N.leb_le in *; lia.
Qed.

Lemma skip_ws_starts l rest :
  starts_value l -> skip_ws (l ++ rest) = l ++ rest.
Proof. intros (c & tl & -> & Hws & _). cbn. rewrite Hws. reflexivity. Qed.

Lemma parse_value_space f l : parse_value f (" "%char :: l) = parse_value f l.
Proof. destruct f; reflexivity. Qed.

Lemma parse_elems_S f l :
  parse_elems (S f) l =
  match parse_value f l with
  | Some (v, r) =>
      match skip_ws r with
      | c :: r' =>
          if (N_of_ascii c =? 44)%N then cons_fst v (parse_elems f r')
          else if (N_of_ascii c =? 93)%N then Some ([v], r')
          else None
      | [] => None
      end
  | None => None
  end.
Proof. reflexivity. Qed.

Lemma parse_members_S f l :
  parse_members (S f) l =
  match parse_key l with
  | Some (k, r) =>
      match parse_value f r with
      | Some (v, r1) =>
          match skip_ws r1 with
          | c :: r2 =>
              if (N_of_ascii c =? 44)%N then cons_fst (k, v) (parse_members f r2)
              else if (N_of_ascii c =? 125)%N then Some ([(k, v)], r2)
              else None
          | [] => None
          end
      | None => None
      end
  | None => None
  end.
Proof. reflexivity. Qed.

Lemma parse_elems_space f l : parse_elems f (" "%char :: l) = parse_elems f l.
Proof. destruct f; [reflexivity|]. rewrite !parse_elems_S, parse_value_space. reflexivity. Qed.

Lemma parse_members_space f l : parse_members f (" "%char :: l) = parse_members f l.
Proof. destruct f; reflexivity. Qed.

Lemma parse_elems_dumps l :
  Forall parses l -> l <> [] -> forall fuel rest,
  (size_elems l <= fuel)%nat ->
  parse_elems fuel (dumps_elems l ++ "]"%char :: rest) = Some (l, rest).
Proof.
  induction 1 as [|x l Hx Hl IH]; [congruence|]. intros _ fuel rest Hfuel.
  destruct fuel as [|f]; [cbn in Hfuel; lia|]. cbn in Hfuel.
  rewrite parse_elems_S. destruct l as [|y l].
  - cbn [dumps_elems]. rewrite Hx; [|lia|reflexivity]. reflexivity.
  - rewrite dumps_elems_cons, <- app_assoc. cbn [app].
    rewrite Hx; [|lia|reflexivity]. cbn [skip_ws is_ws]. 
    change (is_ws ","%char) with false. cbn iota.
    change (N_of_ascii "," =? 44)%N with true. cbn iota.
    rewrite parse_elems_space, IH; [reflexivity|discriminate|].
    fold (size_elems (y :: l)) in Hfuel. lia.
Qed.

Lemma parse_key_dumps k rest :
  parse_key (dumps_str k ++ ":"%char :: rest) = Some (k, rest).
Proof.
  unfold parse_key, dumps_str. cbn [app skip_ws].
  change (is_ws "034"%char) with false. cbn iota.
  change (N_of_ascii "034" =? 34)%N with true. cbn iota.
  rewrite <- app_assoc. cbn [app]. rewrite parse_str_dumps.
  cbn. rewrite string_of_list_ascii_of_string. reflexivity.
Qed.

Lemma parse_members_dumps kvs :
  Forall (fun kv => parses (snd kv)) kvs -> kvs <> [] -> forall fuel rest,
  (size_members kvs <= fuel)%nat ->
  parse_members fuel (dumps_members kvs ++ "}"%char :: rest) = Some (kvs, rest).
Proof.
  induction 1 as [|[k v] l Hx Hl IH]; [congruence|]. intros _ fuel rest Hfuel.
  destruct fuel as [|f]; [cbn in Hfuel; lia|]. cbn in Hfuel, Hx.
  rewrite parse_members_S. destruct l as [|kv l].
  - cbn [dumps_members]. rewrite <- app_assoc. cbn [app].
    rewrite parse_key_dumps, parse_value_space.
    rewrite Hx; [|lia|reflexivity]. reflexivity.
  - destruct kv as [k' v']. rewrite dumps_members_cons, <- !app_assoc. cbn [app].
    rewrite parse_key_dumps, parse_value_space. rewrite <- app_assoc. cbn [app].
    rewrite Hx; [|lia|reflexivity]. cbn [skip_ws].
    change (is_ws ","%char) with false. cbn iota.
    change (N_of_ascii "," =? 44)%N with true. cbn iota.
    rewrite parse_members_space, IH; [reflexivity|discriminate|].
    fold (size_members ((k', v') :: l)) in Hfuel. lia.
Qed.

Lemma dict_set_fresh k v (acc : list (string * pyval)) :
  k ∉ List.map fst acc -> dict_set k v acc = acc ++ [(k, v)].
Proof.
  induction acc as [|[k' v'] acc IH]; intros Hk; [reflexivity|].
  cbn [dict_set]. cbn [List.map fst] in Hk. apply not_elem_of_cons in Hk as [Hne Hk].
  destruct (String.eqb_spec k k'); [congruence|]. rewrite IH by assumption. reflexivity.
Qed.

Lemma dict_of_pairs_nodup kvs :
  NoDup (List.map fst kvs) -> dict_of_pairs kvs = kvs.
Proof.
  unfold dict_of_pairs.
  assert (H : forall acc, NoDup (List.map fst (acc ++ kvs)) ->
            fold_left (fun d kv => dict_set kv.1 kv.2 d) kvs acc = acc ++ kvs).
  { induction kvs as [|[k v] kvs IH]; intros acc Hnd.
    - cbn. rewrite app_nil_r. reflexivity.
    - cbn [fold_left fst snd]. rewrite dict_set_fresh.
      + rewrite IH; rewrite <- app_assoc; [reflexivity|assumption].
      + rewrite map_app in Hnd. apply NoDup_app in Hnd as (_ & Hdisj & _).
        intros Hin. apply (Hdisj k Hin). left. }
  intros Hnd. apply (H [] Hnd).
Qed.

Lemma parse_value_S_cons f c r :
  is_ws c = false ->
  parse_value (S f) (c :: r) =
  let n := N_of_ascii c in
  if (n =? 34)%N then
    match parse_str r with
    | Some (s, r') => Some (PStr (string_of_list_ascii s), r')
    | None => None
    end
  else if (n =? 91)%N then
    match skip_ws r with
    | c' :: r' =>
        if (N_of_ascii c' =? 93)%N then Some (PList [], r')
        else match parse_elems f r with
             | Some (vs, r'') => Some (PList vs, r'')
             | None => None
             end
    | [] => None
    end
  else if (n =? 123)%N then
    match skip_ws r with
    | c' :: r' =>
        if (N_of_ascii c' =? 125)%N then Some (PDict [], r')
        else match parse_members f r with
             | Some (kvs, r'') => Some (PDict (dict_of_pairs kvs), r'')
             | None => None
             end
    | [] => None
    end
  else if (n =? 45)%N || is_digit c then
    match parse_int (c :: r) with
    | Some (z, r') => Some (PInt z, r')
    | None => None
    end
  else
    match c :: r with
    | "n" :: "u" :: "l" :: "l" :: r' => Some (PNone, r')
    | "t" :: "r" :: "u" :: "e" :: r' => Some (PBool true, r')
    | "f" :: "a" :: "l" :: "s" :: "e" :: r' => Some (PBool false, r')
    | _ => None
    end%char.
Proof.
  intros Hws. cbn [parse_value skip_ws]. rewrite Hws. reflexivity.
Qed.

Lemma dumps_elems_starts x l : json_wf x -> starts_value (dumps_elems (x :: l)).
Proof.
  intros Hwf. destruct (dumps_starts x Hwf) as (c & tl & E & H).
  destruct l as [|y l].
  - cbn [dumps_elems]. rewrite E. eexists _, _. split; [reflexivity|assumption].
  - rewrite dumps_elems_cons, E. eexists _, _. split; [reflexivity|assumption].
Qed.

Lemma dumps_members_starts kv l : starts_value (dumps_members (kv :: l)).
Proof.
  destruct kv as [k v]. destruct l as [|kv' l].
  - cbn [dumps_members]. unfold dumps_str. eexists _, _.
    split; [reflexivity|]. repeat split; reflexivity.
  - destruct kv'. rewrite dumps_members_cons. unfold dumps_str. eexists _, _.
    split; [reflexivity|]. repeat split; reflexivity.
Qed.

Lemma dumps_parses v : json_wf v -> parses v.
Proof.
  induction v as [|b|z|t|s|l IH|kvs IH] using pyval_ind; intros Hwf fuel rest Hfuel Hrest.
  - destruct fuel; [cbn in Hfuel; lia|]. reflexivity.
  - destruct fuel; [cbn in Hfuel; lia|]. destruct b; reflexivity.
  - destruct fuel; [cbn in Hfuel; lia|]. cbn [dumps].
    destruct (dumps_int_head z) as (c & tl & E & H).
    pose proof (parse_int_dumps z rest Hrest) as Hp. rewrite E in Hp |- *.
    cbn [app] in Hp |- *.
    assert (Hc : is_ws c = false /\ (N_of_ascii c =? 34)%N = false /\
                 (N_of_ascii c =? 91)%N = false /\ (N_of_ascii c =? 123)%N = false).
    { unfold is_ws, is_digit in *.
      repeat split; apply not_true_is_false; intros Hx;
        rewrite ?orb_true_iff, ?andb_true_iff, ?N.eqb_eq, ?N.leb_le in *; lia. }
    destruct Hc as (Hws & H34 & H91 & H123).
    rewrite parse_value_S_cons by assumption. cbn zeta.
    rewrite H34, H91, H123, H, Hp. reflexivity.
  - destruct Hwf.
  - destruct fuel; [cbn in Hfuel; lia|]. cbn [dumps]. unfold dumps_str. cbn [app].
    rewrite parse_value_S_cons by reflexivity. cbn zeta.
    change (N_of_ascii "034" =? 34)%N with true. cbn iota.
    rewrite <- app_assoc. cbn [app]. rewrite parse_str_dumps.
    rewrite string_of_list_ascii_of_string. reflexivity.
  - rewrite size_list in Hfuel. destruct fuel as [|f]; [lia|].
    rewrite dumps_list. cbn [app]. rewrite <- app_assoc. cbn [app].
    rewrite parse_value_S_cons by reflexivity. cbn zeta.
    change (N_of_ascii "[" =? 34)%N with false.
    change (N_of_ascii "[" =? 91)%N with true. cbn iota.
    destruct l as [|x l]; [reflexivity|].
    assert (Hx : json_wf x) by (apply json_wf_list, Forall_cons in Hwf; tauto).
    rewrite (skip_ws_starts _ _ (dumps_elems_starts x l Hx)).
    destruct (dumps_elems_starts x l Hx) as (c & tl & E & _ & H93 & _).
    remember (dumps_elems (x :: l) ++ "]"%char :: rest) as r eqn:Er.
    assert (Hr : exists tl', r = c :: tl') by (subst r; rewrite E; eauto).
    destruct Hr as [tl' Hr]. rewrite Hr at 1. rewrite H93. subst r.
    rewrite parse_elems_dumps; [reflexivity| |discriminate|lia].
    apply json_wf_list in Hwf.
    rewrite Forall_forall in IH, Hwf |- *. intros y Hy. apply IH; auto.
  - rewrite size_dict in Hfuel. destruct fuel as [|f]; [lia|].
    rewrite dumps_dict. cbn [app]. rewrite <- app_assoc. cbn [app].
    rewrite parse_value_S_cons by reflexivity. cbn zeta.
    change (N_of_ascii "{" =? 34)%N with false.
    change (N_of_ascii "{" =? 91)%N with false.
    change (N_of_ascii "{" =? 123)%N with true. cbn iota.
    destruct kvs as [|kv kvs]; [reflexivity|].
    rewrite (skip_ws_starts _ _ (dumps_members_starts kv kvs)).
    destruct (dumps_members_starts kv kvs) as (c & tl & E & _ & _ & H125).
    remember (dumps_members (kv :: kvs) ++ "}"%char :: rest) as r eqn:Er.
    assert (Hr : exists tl', r = c :: tl') by (subst r; rewrite E; eauto).
    destruct Hr as [tl' Hr]. rewrite Hr at 1. rewrite H125. subst r.
    apply json_wf_dict in Hwf as [Hnd Hwf].
    rewrite parse_members_dumps; [|  |discriminate|lia].
    + rewrite dict_of_pairs_nodup by assumption. reflexivity.
    + rewrite Forall_forall in IH, Hwf |- *. intros y Hy. apply IH; auto.
Qed.

Lemma size_le_dumps v : (size v <= List.length (dumps v))%nat.
Proof.
  induction v as [|b|z|t|s|l IH|kvs IH] using pyval_ind.
  - cbn. lia.
  - destruct b; cbn; lia.
  - cbn [size dumps]. destruct (dumps_int_head z) as (c & tl & -> & _). cbn. lia.
  - cbn [size]. lia.
  - cbn [size dumps]. unfold dumps_str. cbn. lia.
  - rewrite size_list, dumps_list. cbn [List.length]. rewrite length_app. cbn [List.length].
    assert (H : (size_elems l <= List.length (dumps_elems l) + 1)%nat); [|lia].
    induction IH as [|x l Hx Hl IHl]; [cbn; lia|].
    destruct l as [|y l].
    + cbn [dumps_elems size_elems foldr]. lia.
    + rewrite dumps_elems_cons. cbn [size_elems foldr] in *.
      rewrite length_app. cbn [List.length]. lia.
  - rewrite size_dict, dumps_dict. cbn [List.length]. rewrite length_app. cbn [List.length].
    assert (H : (size_members kvs <= List.length (dumps_members kvs) + 1)%nat); [|lia].
    induction IH as [|[k v] l Hx Hl IHl]; [cbn; lia|]. cbn [snd] in Hx.
    destruct l as [|[k' v'] l].
    + cbn [dumps_members size_members foldr snd]. rewrite length_app. cbn [List.length]. lia.
    + rewrite dumps_members_cons. cbn [size_members foldr snd] in *.
      rewrite !length_app. cbn [List.length]. rewrite length_app. cbn [List.length]. lia.
Qed.

Theorem json_round_trip v : json_wf v -> json_loads (json_dumps v) = Some v.
Proof.
  intros Hwf. unfold json_loads, json_dumps.
  rewrite list_ascii_of_string_of_list_ascii.
  pose proof (dumps_parses v Hwf (S (List.length (dumps v))) []) as H.
  rewrite app_nil_r in H. rewrite H; [reflexivity| |exact I].
  pose proof (size_le_dumps v). lia.
Qed.

(** ** json round trip on full strings *)

(** *** String literals *)

Lemma hex_val_digit d : (d < 16)%N -> hex_val (hex_digit d) = Some d.
Proof.
  intros H. destruct d as [|p]; [reflexivity|].
  destruct p as [p|p|]; [| |reflexivity];
    (destruct p as [p|p|]; [| |reflexivity]);
    (destruct p as [p|p|]; [| |reflexivity]);
    (destruct p as [p|p|]; [lia|lia|reflexivity]).
Qed.

Lemma hex4_digits n :
  (n < 65536)%N ->
  hex4 (hex_digit (n / 4096)) (hex_digit ((n / 256) mod 16))
       (hex_digit ((n / 16) mod 16)) (hex_digit (n mod 16)) = Some n.
Proof.
  intros H. unfold hex4.
  rewrite !hex_val_digit by (zify; Z.to_euclidean_division_equations; lia).
  f_equal. zify. Z.to_euclidean_division_equations. lia.
Qed.

Lemma parse_str_u a b c d l3 :
  Unicode.parse_str ("\"%char :: "u"%char :: a :: b :: c :: d :: l3) =
  match hex4 a b c d with
  | Some n =>
      if Unicode.is_high n then
        match l3 with
        | s1 :: s2 :: a2 :: b2 :: c2 :: d2 :: ((_ :: _) as l4) =>
            if (N_of_ascii s1 =? 92)%N && (N_of_ascii s2 =? 117)%N then
              match hex4 a2 b2 c2 d2 with
              | Some n2 =>
                  if Unicode.is_low n2
                  then Unicode.cons_cp (Unicode.join_surrogates n n2) (Unicode.parse_str l4)
                  else Unicode.cons_cp n (Unicode.parse_str l3)
              | None => None
              end
            else Unicode.cons_cp n (Unicode.parse_str l3)
        | _ => Unicode.cons_cp n (Unicode.parse_str l3)
        end
      else Unicode.cons_cp n (Unicode.parse_str l3)
  | None => None
  end.
Proof. reflexivity. Qed.

Lemma parse_str_u_alone n tl :
  (n < 65536)%N -> (Unicode.is_high n = true -> after_high tl) ->
  Unicode.parse_str (Unicode.u_escape n ++ tl) =
  Unicode.cons_cp n (Unicode.parse_str tl).
Proof.
  intros Hn Hafter. unfold Unicode.u_escape. cbn [app].
  rewrite parse_str_u, hex4_digits by assumption.
  destruct (Unicode.is_high n); [|reflexivity].
  specialize (Hafter eq_refl).
  destruct tl as [|s1 [|s2 [|a [|b [|c [|d [|x l4]]]]]]]; try reflexivity.
  cbn [after_high] in Hafter.
  destruct ((N_of_ascii s1 =? 92)%N && (N_of_ascii s2 =? 117)%N); [|reflexivity].
  destruct (Hafter eq_refl) as (n2 & -> & ->). reflexivity.
Qed.

Lemma parse_str_u_pair c tl :
  (65536 <= c)%N -> (c < 1114112)%N -> tl <> [] ->
  Unicode.parse_str
    (Unicode.u_escape (55296 + (c - 65536) / 1024)
       ++ Unicode.u_escape (56320 + (c - 65536) mod 1024) ++ tl) =
  Unicode.cons_cp c (Unicode.parse_str tl).
Proof.
  intros Hlo Hhi Htl. destruct tl as [|x l4]; [congruence|].
  set (hi := (55296 + (c - 65536) / 1024)%N).
  set (lo := (56320 + (c - 65536) mod 1024)%N).
  assert (Hh : (55296 <= hi <= 56319)%N)
    by (subst hi; zify; Z.to_euclidean_division_equations; lia).
  assert (Hl : (56320 <= lo <= 57343)%N)
    by (subst lo; zify; Z.to_euclidean_division_equations; lia).
  unfold Unicode.u_escape. cbn [app].
  rewrite parse_str_u, hex4_digits by lia.
  assert (Eh : Unicode.is_high hi = true).
  { unfold Unicode.is_high. apply andb_true_intro. split; apply N.leb_le; lia. }
  assert (El : Unicode.is_low lo = true).
  { unfold Unicode.is_low. apply andb_true_intro. split; apply N.leb_le; lia. }
  rewrite Eh. cbn [N_of_ascii]. change (N_of_ascii "\" =? 92)%N with true.
  change (N_of_ascii "u" =? 117)%N with true. cbn [andb].
  rewrite hex4_digits by lia. rewrite El.
  f_equal. unfold Unicode.join_surrogates. f_equal.
  subst hi lo. zify. Z.to_euclidean_division_equations. lia.
Qed.

Lemma N_of_ascii_of_N c : (c < 256)%N -> N_of_ascii (ascii_of_N c) = c.
Proof. apply N_ascii_embedding. Qed.

(** How the escape of a character starts. *)
Lemma after_high_escape c tl :
  Unicode.is_code_point c = true -> Unicode.is_low c = false ->
  after_high (Unicode.escape_char c ++ tl).
Proof.
  intros Hc Hlow. unfold Unicode.escape_char.
  destruct (c =? 34)%N eqn:E34; [destruct tl as [|? [|? [|? [|? [|? ?]]]]]; cbn; try exact I; intros [=]|].
  destruct (c =? 92)%N eqn:E92; [destruct tl as [|? [|? [|? [|? [|? ?]]]]]; cbn; try exact I; intros [=]|].
  destruct (c =? 10)%N; [destruct tl as [|? [|? [|? [|? [|? ?]]]]]; cbn; try exact I; intros [=]|].
  destruct (c =? 13)%N; [destruct tl as [|? [|? [|? [|? [|? ?]]]]]; cbn; try exact I; intros [=]|].
  destruct (c =? 9)%N; [destruct tl as [|? [|? [|? [|? [|? ?]]]]]; cbn; try exact I; intros [=]|].
  destruct (c =? 8)%N; [destruct tl as [|? [|? [|? [|? [|? ?]]]]]; cbn; try exact I; intros [=]|].
  destruct (c =? 12)%N; [destruct tl as [|? [|? [|? [|? [|? ?]]]]]; cbn; try exact I; intros [=]|].
  destruct ((c <? 32)%N || (126 <? c)%N) eqn:Eout.
  - destruct (c <? 65536)%N eqn:Ebmp.
    + apply N.ltb_lt in Ebmp. unfold Unicode.u_escape. cbn [app].
      destruct tl as [|x tl']; [exact I|]. cbn [after_high].
      intros _. exists c. split; [apply hex4_digits; assumption|assumption].
    + apply N.ltb_ge in Ebmp. unfold Unicode.is_code_point in Hc. apply N.ltb_lt in Hc.
      unfold Unicode.u_escape. cbn [app after_high].
      intros _. eexists. split.
      * apply hex4_digits. zify. Z.to_euclidean_division_equations. lia.
      * unfold Unicode.is_low. apply andb_false_intro1, N.leb_gt.
        zify. Z.to_euclidean_division_equations. lia.
  - apply orb_false_elim in Eout as [E32 E126].
    apply N.ltb_ge in E32, E126. apply N.eqb_neq in E92.
    cbn [app]. destruct tl as [|? [|? [|? [|? [|? [|? ?]]]]]]; try exact I.
    cbn [after_high]. rewrite N_of_ascii_of_N by lia.
    apply N.eqb_neq in E92. rewrite E92. intros [=].
Qed.

Lemma after_high_quote rest : after_high ("034"%char :: rest).
Proof.
  destruct rest as [|? [|? [|? [|? [|? [|? ?]]]]]]; try exact I.
  cbn. intros [=].
Qed.

Lemma u_parse_str_escape c tl :
  Unicode.is_code_point c = true -> tl <> [] ->
  (Unicode.is_high c = true -> after_high tl) ->
  Unicode.parse_str (Unicode.escape_char c ++ tl) =
  Unicode.cons_cp c (Unicode.parse_str tl).
Proof.
  intros Hc Htl Hafter. unfold Unicode.escape_char.
  destruct (c =? 34)%N eqn:E34; [apply N.eqb_eq in E34; subst c; reflexivity|].
  destruct (c =? 92)%N eqn:E92; [apply N.eqb_eq in E92; subst c; reflexivity|].
  destruct (c =? 10)%N eqn:E10; [apply N.eqb_eq in E10; subst c; reflexivity|].
  destruct (c =? 13)%N eqn:E13; [apply N.eqb_eq in E13; subst c; reflexivity|].
  destruct (c =? 9)%N eqn:E9; [apply N.eqb_eq in E9; subst c; reflexivity|].
  destruct (c =? 8)%N eqn:E8; [apply N.eqb_eq in E8; subst c; reflexivity|].
  destruct (c =? 12)%N eqn:E12; [apply N.eqb_eq in E12; subst c; reflexivity|].
  destruct ((c <? 32)%N || (126 <? c)%N) eqn:Eout.
  - destruct (c <? 65536)%N eqn:Ebmp.
    + apply N.ltb_lt in Ebmp. apply parse_str_u_alone; assumption.
    + apply N.ltb_ge in Ebmp. unfold Unicode.is_code_point in Hc. apply N.ltb_lt in Hc.
      rewrite <- app_assoc. apply parse_str_u_pair; assumption.
  - apply orb_false_elim in Eout as [E32 E126].
    apply N.ltb_ge in E126. cbn [app Unicode.parse_str].
    rewrite N_of_ascii_of_N by lia. rewrite E34, E92, E32. reflexivity.
Qed.

Lemma flat_map_escape_tail s rest :
  flat_map Unicode.escape_char s ++ "034"%char :: rest <> [].
Proof. destruct (flat_map Unicode.escape_char s); discriminate. Qed.

Lemma u_parse_str_dumps s : forall rest,
  Unicode.is_str s = true ->
  Unicode.parse_str (flat_map Unicode.escape_char s ++ "034"%char :: rest) =
  Some (s, rest).
Proof.
  unfold Unicode.is_str.
  induction s as [|c s IH]; intros rest H; [reflexivity|].
  apply andb_prop in H as [Hcp Hun]. cbn [forallb] in Hcp.
  apply andb_prop in Hcp as [Hc Hcp]. cbn [Unicode.unpaired] in Hun.
  apply andb_prop in Hun as [Hpair Hun].
  cbn [flat_map]. rewrite <- app_assoc.
  rewrite u_parse_str_escape; [|assumption|apply flat_map_escape_tail|].
  - rewrite IH by (apply andb_true_intro; split; assumption). reflexivity.
  - intros Hh. destruct s as [|c2 s]; [apply after_high_quote|].
    cbn [flat_map]. rewrite <- app_assoc. cbn [forallb] in Hcp.
    apply andb_prop in Hcp as [Hc2 _]. apply after_high_escape; [assumption|].
    rewrite Hh in Hpair. cbn [andb] in Hpair. apply negb_true_iff in Hpair. exact Hpair.
Qed.

(** *** Values *)

Lemma u_size_list l : Unicode.size (Unicode.UList l) = S (Unicode.size_elems l).
Proof. cbn [Unicode.size]. f_equal; induction l as [|x l IH]; cbn; congruence. Qed.

Lemma u_size_dict kvs : Unicode.size (Unicode.UDict kvs) = S (Unicode.size_members kvs).
Proof. cbn [Unicode.size]. f_equal; induction kvs as [|x l IH]; cbn; congruence. Qed.

Lemma u_json_wf_list l :
  Unicode.json_wf (Unicode.UList l) <-> Forall Unicode.json_wf l.
Proof.
  cbn [Unicode.json_wf]. induction l as [|x l IH].
  - split; constructor.
  - rewrite Forall_cons, <- IH; reflexivity.
Qed.

Lemma u_json_wf_dict kvs :
  Unicode.json_wf (Unicode.UDict kvs) <->
  NoDup (List.map fst kvs) /\
  Forall (fun kv => Unicode.is_str (fst kv) = true /\ Unicode.json_wf (snd kv)) kvs.
Proof.
  cbn [Unicode.json_wf]. apply and_iff_compat_l. induction kvs as [|x l IH].
  - split; constructor.
  - rewrite Forall_cons, <- IH; reflexivity.
Qed.

Lemma u_dumps_list l :
  Unicode.dumps (Unicode.UList l) = "["%char :: Unicode.dumps_elems l ++ ["]"%char].
Proof. reflexivity. Qed.

Lemma u_dumps_dict kvs :
  Unicode.dumps (Unicode.UDict kvs) = "{"%char :: Unicode.dumps_members kvs ++ ["}"%char].
Proof. reflexivity. Qed.

Lemma u_dumps_elems_cons x y l :
  Unicode.dumps_elems (x :: y :: l) =
  Unicode.dumps x ++ ","%char :: " "%char :: Unicode.dumps_elems (y :: l).
Proof. reflexivity. Qed.

Lemma u_dumps_members_cons k v kv l :
  Unicode.dumps_members ((k, v) :: kv :: l) =
  Unicode.dumps_str k ++ ":"%char :: " "%char :: Unicode.dumps v
    ++ ","%char :: " "%char :: Unicode.dumps_members (kv :: l).
Proof. reflexivity. Qed.

Lemma u_dumps_starts v : starts_value (Unicode.dumps v).
Proof.
  destruct v as [|[]|z|s|l|kvs]; try (eexists _, _; repeat split; reflexivity).
  destruct (dumps_int_head z) as (c & tl & E & H).
  exists c, tl. cbn [Unicode.dumps]. split; [assumption|].
  unfold is_ws, is_digit in *.
  destruct (N_of_ascii c) as [|p] eqn:Ec; [discriminate|].
  repeat split; apply not_true_is_false; intros Hx;
    rewrite ?orb_true_iff, ?andb_true_iff, ?N.eqb_eq, ?N.leb_le in *; lia.
Qed.

Lemma u_parse_value_space f l :
  Unicode.parse_value f (" "%char :: l) = Unicode.parse_value f l.
Proof. destruct f; reflexivity. Qed.

Lemma u_parse_elems_S f l :
  Unicode.parse_elems (S f) l =
  match Unicode.parse_value f l with
  | Some (v, r) =>
      match skip_ws r with
      | c :: r' =>
          if (N_of_ascii c =? 44)%N then
            match Unicode.parse_elems f r' with
            | Some (vs, r'') => Some (v :: vs, r'')
            | None => None
            end
          else if (N_of_ascii c =? 93)%N then Some ([v], r')
          else None
      | [] => None
      end
  | None => None
  end.
Proof. reflexivity. Qed.

Lemma u_parse_members_S f l :
  Unicode.parse_members (S f) l =
  match Unicode.parse_key l with
  | Some (k, r) =>
      match Unicode.parse_value f r with
      | Some (v, r1) =>
          match skip_ws r1 with
          | c :: r2 =>
              if (N_of_ascii c =? 44)%N then
                match Unicode.parse_members f r2 with
                | Some (kvs, r3) => Some ((k, v) :: kvs, r3)
                | None => None
                end
              else if (N_of_ascii c =? 125)%N then Some ([(k, v)], r2)
              else None
          | [] => None
          end
      | None => None
      end
  | None => None
  end.
Proof. reflexivity. Qed.

Lemma u_parse_elems_space f l :
  Unicode.parse_elems f (" "%char :: l) = Unicode.parse_elems f l.
Proof.
  destruct f; [reflexivity|]. rewrite !u_parse_elems_S, u_parse_value_space. reflexivity.
Qed.

Lemma u_parse_members_space f l :
  Unicode.parse_members f (" "%char :: l) = Unicode.parse_members f l.
Proof. destruct f; reflexivity. Qed.

Lemma u_parse_elems_dumps l :
  Forall u_parses l -> l <> [] -> forall fuel rest,
  (Unicode.size_elems l <= fuel)%nat ->
  Unicode.parse_elems fuel (Unicode.dumps_elems l ++ "]"%char :: rest) = Some (l, rest).
Proof.
  induction 1 as [|x l Hx Hl IH]; [congruence|]. intros _ fuel rest Hfuel.
  destruct fuel as [|f]; [cbn in Hfuel; lia|]. cbn in Hfuel.
  rewrite u_parse_elems_S. destruct l as [|y l].
  - cbn [Unicode.dumps_elems]. rewrite Hx; [|lia|reflexivity]. reflexivity.
  - rewrite u_dumps_elems_cons, <- app_assoc. cbn [app].
    rewrite Hx; [|lia|reflexivity]. cbn [skip_ws is_ws].
    change (is_ws ","%char) with false. cbn iota.
    change (N_of_ascii "," =? 44)%N with true. cbn iota.
    rewrite u_parse_elems_space, IH; [reflexivity|discriminate|].
    fold (Unicode.size_elems (y :: l)) in Hfuel. lia.
Qed.

Lemma u_parse_key_dumps k rest :
  Unicode.is_str k = true ->
  Unicode.parse_key (Unicode.dumps_str k ++ ":"%char :: rest) = Some (k, rest).
Proof.
  intros Hk. unfold Unicode.parse_key, Unicode.dumps_str. cbn [app skip_ws].
  change (is_ws "034"%char) with false. cbn iota.
  change (N_of_ascii "034" =? 34)%N with true. cbn iota.
  rewrite <- app_assoc. cbn [app]. rewrite u_parse_str_dumps by assumption.
  reflexivity.
Qed.

Lemma u_parse_members_dumps kvs :
  Forall (fun kv => Unicode.is_str (fst kv) = true /\ u_parses (snd kv)) kvs ->
  kvs <> [] -> forall fuel rest,
  (Unicode.size_members kvs <= fuel)%nat ->
  Unicode.parse_members fuel (Unicode.dumps_members kvs ++ "}"%char :: rest) =
  Some (kvs, rest).
Proof.
  induction 1 as [|[k v] l [Hk Hx] Hl IH]; [congruence|]. intros _ fuel rest Hfuel.
  destruct fuel as [|f]; [cbn in Hfuel; lia|]. cbn in Hfuel, Hx, Hk.
  rewrite u_parse_members_S. destruct l as [|kv l].
  - cbn [Unicode.dumps_members]. rewrite <- app_assoc. cbn [app].
    rewrite u_parse_key_dumps by assumption. rewrite u_parse_value_space.
    rewrite Hx; [|lia|reflexivity]. reflexivity.
  - destruct kv as [k' v']. rewrite u_dumps_members_cons, <- !app_assoc. cbn [app].
    rewrite u_parse_key_dumps by assumption. rewrite u_parse_value_space.
    rewrite <- app_assoc. cbn [app].
    rewrite Hx; [|lia|reflexivity]. cbn [skip_ws].
    change (is_ws ","%char) with false. cbn iota.
    change (N_of_ascii "," =? 44)%N with true. cbn iota.
    rewrite u_parse_members_space, IH; [reflexivity|discriminate|].
    fold (Unicode.size_members ((k', v') :: l)) in Hfuel. lia.
Qed.

Lemma u_dict_set_fresh k v (acc : list (Unicode.ustr * Unicode.uval)) :
  k ∉ List.map fst acc -> Unicode.dict_set k v acc = acc ++ [(k, v)].
Proof.
  induction acc as [|[k' v'] acc IH]; intros Hk; [reflexivity|].
  cbn [Unicode.dict_set]. cbn [List.map fst] in Hk.
  apply not_elem_of_cons in Hk as [Hne Hk].
  rewrite bool_decide_eq_false_2 by assumption. rewrite IH by assumption. reflexivity.
Qed.

Lemma u_dict_of_pairs_nodup kvs :
  NoDup (List.map fst kvs) -> Unicode.dict_of_pairs kvs = kvs.
Proof.
  unfold Unicode.dict_of_pairs.
  assert (H : forall acc, NoDup (List.map fst (acc ++ kvs)) ->
            fold_left (fun d kv => Unicode.dict_set kv.1 kv.2 d) kvs acc = acc ++ kvs).
  { induction kvs as [|[k v] kvs IH]; intros acc Hnd.
    - cbn. rewrite app_nil_r. reflexivity.
    - cbn [fold_left fst snd]. rewrite u_dict_set_fresh.
      + rewrite IH; rewrite <- app_assoc; [reflexivity|assumption].
      + rewrite map_app in Hnd. apply NoDup_app in Hnd as (_ & Hdisj & _).
        intros Hin. apply (Hdisj k Hin). left. }
  intros Hnd. apply (H [] Hnd).
Qed.

Lemma u_parse_value_S_cons f c r :
  is_ws c = false ->
  Unicode.parse_value (S f) (c :: r) =
  let n := N_of_ascii c in
  if (n =? 34)%N then
    match Unicode.parse_str r with
    | Some (s, r') => Some (Unicode.UStr s, r')
    | None => None
    end
  else if (n =? 91)%N then
    match skip_ws r with
    | c' :: r' =>
        if (N_of_ascii c' =? 93)%N then Some (Unicode.UList [], r')
        else match Unicode.parse_elems f r with
             | Some (vs, r'') => Some (Unicode.UList vs, r'')
             | None => None
             end
    | [] => None
    end
  else if (n =? 123)%N then
    match skip_ws r with
    | c' :: r' =>
        if (N_of_ascii c' =? 125)%N then Some (Unicode.UDict [], r')
        else match Unicode.parse_members f r with
             | Some (kvs, r'') => Some (Unicode.UDict (Unicode.dict_of_pairs kvs), r'')
             | None => None
             end
    | [] => None
    end
  else if (n =? 45)%N || is_digit c then
    match parse_int (c :: r) with
    | Some (z, r') => Some (Unicode.UInt z, r')
    | None => None
    end
  else
    match c :: r with
    | "n" :: "u" :: "l" :: "l" :: r' => Some (Unicode.UNone, r')
    | "t" :: "r" :: "u" :: "e" :: r' => Some (Unicode.UBool true, r')
    | "f" :: "a" :: "l" :: "s" :: "e" :: r' => Some (Unicode.UBool false, r')
    | _ => None
    end%char.
Proof.
  intros Hws. cbn [Unicode.parse_value skip_ws]. rewrite Hws. reflexivity.
Qed.

Lemma u_dumps_elems_starts x l : starts_value (Unicode.dumps_elems (x :: l)).
Proof.
  destruct (u_dumps_starts x) as (c & tl & E & H).
  destruct l as [|y l].
  - cbn [Unicode.dumps_elems]. rewrite E. eexists _, _. split; [reflexivity|assumption].
  - rewrite u_dumps_elems_cons, E. eexists _, _. split; [reflexivity|assumption].
Qed.

Lemma u_dumps_members_starts kv l : starts_value (Unicode.dumps_members (kv :: l)).
Proof.
  destruct kv as [k v]. destruct l as [|kv' l].
  - cbn [Unicode.dumps_members]. unfold Unicode.dumps_str. eexists _, _.
    split; [reflexivity|]. repeat split; reflexivity.
  - destruct kv'. rewrite u_dumps_members_cons. unfold Unicode.dumps_str. eexists _, _.
    split; [reflexivity|]. repeat split; reflexivity.
Qed.

Lemma u_dumps_parses v : Unicode.json_wf v -> u_parses v.
Proof.
  induction v as [|b|z|s|l IH|kvs IH] using Unicode.uval_ind;
    intros Hwf fuel rest Hfuel Hrest.
  - destruct fuel; [cbn in Hfuel; lia|]. reflexivity.
  - destruct fuel; [cbn in Hfuel; lia|]. destruct b; reflexivity.
  - destruct fuel; [cbn in Hfuel; lia|]. cbn [Unicode.dumps].
    destruct (dumps_int_head z) as (c & tl & E & H).
    pose proof (parse_int_dumps z rest Hrest) as Hp. rewrite E in Hp |- *.
    cbn [app] in Hp |- *.
    assert (Hc : is_ws c = false /\ (N_of_ascii c =? 34)%N = false /\
                 (N_of_ascii c =? 91)%N = false /\ (N_of_ascii c =? 123)%N = false).
    { unfold is_ws, is_digit in *.
      repeat split; apply not_true_is_false; intros Hx;
        rewrite ?orb_true_iff, ?andb_true_iff, ?N.eqb_eq, ?N.leb_le in *; lia. }
    destruct Hc as (Hws & H34 & H91 & H123).
    rewrite u_parse_value_S_cons by assumption. cbn zeta.
    rewrite H34, H91, H123, H, Hp. reflexivity.
  - destruct fuel; [cbn in Hfuel; lia|]. cbn [Unicode.dumps]. unfold Unicode.dumps_str.
    cbn [app]. rewrite u_parse_value_S_cons by reflexivity. cbn zeta.
    change (N_of_ascii "034" =? 34)%N with true. cbn iota.
    rewrite <- app_assoc. cbn [app]. rewrite u_parse_str_dumps by exact Hwf.
    reflexivity.
  - rewrite u_size_list in Hfuel. destruct fuel as [|f]; [lia|].
    rewrite u_dumps_list. cbn [app]. rewrite <- app_assoc. cbn [app].
    rewrite u_parse_value_S_cons by reflexivity. cbn zeta.
    change (N_of_ascii "[" =? 34)%N with false.
    change (N_of_ascii "[" =? 91)%N with true. cbn iota.
    destruct l as [|x l]; [reflexivity|].
    rewrite (skip_ws_starts _ _ (u_dumps_elems_starts x l)).
    destruct (u_dumps_elems_starts x l) as (c & tl & E & _ & H93 & _).
    remember (Unicode.dumps_elems (x :: l) ++ "]"%char :: rest) as r eqn:Er.
    assert (Hr : exists tl', r = c :: tl') by (subst r; rewrite E; eauto).
    destruct Hr as [tl' Hr]. rewrite Hr at 1. rewrite H93. subst r.
    rewrite u_parse_elems_dumps; [reflexivity| |discriminate|lia].
    apply u_json_wf_list in Hwf.
    rewrite Forall_forall in IH, Hwf |- *. intros y Hy. apply IH; auto.
  - rewrite u_size_dict in Hfuel. destruct fuel as [|f]; [lia|].
    rewrite u_dumps_dict. cbn [app]. rewrite <- app_assoc. cbn [app].
    rewrite u_parse_value_S_cons by reflexivity. cbn zeta.
    change (N_of_ascii "{" =? 34)%N with false.
    change (N_of_ascii "{" =? 91)%N with false.
    change (N_of_ascii "{" =? 123)%N with true. cbn iota.
    destruct kvs as [|kv kvs]; [reflexivity|].
    rewrite (skip_ws_starts _ _ (u_dumps_members_starts kv kvs)).
    destruct (u_dumps_members_starts kv kvs) as (c & tl & E & _ & _ & H125).
    remember (Unicode.dumps_members (kv :: kvs) ++ "}"%char :: rest) as r eqn:Er.
    assert (Hr : exists tl', r = c :: tl') by (subst r; rewrite E; eauto).
    destruct Hr as [tl' Hr]. rewrite Hr at 1. rewrite H125. subst r.
    apply u_json_wf_dict in Hwf as [Hnd Hwf].
    rewrite u_parse_members_dumps; [|  |discriminate|lia].
    + rewrite u_dict_of_pairs_nodup by assumption. reflexivity.
    + rewrite Forall_forall in IH, Hwf |- *. intros y Hy.
      split; [apply Hwf; assumption|]. apply IH; [assumption|]. apply Hwf; assumption.
Qed.

Lemma u_size_le_dumps v : (Unicode.size v <= List.length (Unicode.dumps v))%nat.
Proof.
  induction v as [|b|z|s|l IH|kvs IH] using Unicode.uval_ind.
  - cbn. lia.
  - destruct b; cbn; lia.
  - cbn [Unicode.size Unicode.dumps]. destruct (dumps_int_head z) as (c & tl & -> & _).
    cbn. lia.
  - cbn [Unicode.size Unicode.dumps]. unfold Unicode.dumps_str. cbn. lia.
  - rewrite u_size_list, u_dumps_list. cbn [List.length]. rewrite length_app.
    cbn [List.length].
    assert (H : (Unicode.size_elems l <= List.length (Unicode.dumps_elems l) + 1)%nat);
      [|lia].
    induction IH as [|x l Hx Hl IHl]; [cbn; lia|].
    destruct l as [|y l].
    + cbn [Unicode.dumps_elems Unicode.size_elems foldr]. lia.
    + rewrite u_dumps_elems_cons. cbn [Unicode.size_elems foldr] in *.
      rewrite length_app. cbn [List.length]. lia.
  - rewrite u_size_dict, u_dumps_dict. cbn [List.length]. rewrite length_app.
    cbn [List.length].
    assert (H : (Unicode.size_members kvs
                 <= List.length (Unicode.dumps_members kvs) + 1)%nat); [|lia].
    induction IH as [|[k v] l Hx Hl IHl]; [cbn; lia|]. cbn [snd] in Hx.
    destruct l as [|[k' v'] l].
    + cbn [Unicode.dumps_members Unicode.size_members foldr snd]. rewrite length_app.
      cbn [List.length]. lia.
    + rewrite u_dumps_members_cons. cbn [Unicode.size_members foldr snd] in *.
      rewrite !length_app. cbn [List.length]. rewrite length_app. cbn [List.length]. lia.
Qed.

(** On values whose dicts have distinct keys and whose strings hold no
    high surrogate directly before a low one, [json.loads] undoes
    [json.dumps]. *)
Lemma u_json_round_trip v :
  Unicode.json_wf v -> Unicode.json_loads (Unicode.json_dumps v) = Some v.
Proof.
  intros Hwf. unfold Unicode.json_loads, Unicode.json_dumps.
  rewrite list_ascii_of_string_of_list_ascii.
  pose proof (u_dumps_parses v Hwf (S (List.length (Unicode.dumps v))) []) as H.
  rewrite app_nil_r in H. rewrite H; [reflexivity| |exact I].
  pose proof (u_size_le_dumps v). lia.
Qed.

(** *** The manifest *)

Lemma u_is_str_of_string s : Unicode.is_str (Unicode.of_string s) = true.
Proof.
  unfold Unicode.is_str, Unicode.of_string. apply andb_true_intro. split.
  - apply forallb_forall. intros c Hc. apply in_map_iff in Hc as (a & <- & _).
    unfold Unicode.is_code_point. apply N.ltb_lt.
    pose proof (N_ascii_bounded a). lia.
  - induction (list_ascii_of_string s) as [|a l IH]; [reflexivity|].
    cbn [List.map Unicode.unpaired]. rewrite IH, andb_true_r.
    destruct l as [|b l]; [reflexivity|]. cbn [List.map].
    apply negb_true_iff, andb_false_intro1.
    unfold Unicode.is_high. apply andb_false_intro1, N.leb_gt.
    pose proof (N_ascii_bounded a). lia.
Qed.

Lemma u_py_items_wf items :
  forallb Unicode.str_item items = true -> Unicode.json_wf (Unicode.py_items items).
Proof.
  intros H. unfold Unicode.py_items. apply u_json_wf_list. apply Forall_forall.
  intros v Hv. apply list_elem_of_In, in_map_iff in Hv as (it & <- & Hit).
  rewrite forallb_forall in H. specialize (H it Hit).
  unfold Unicode.str_item in H. apply andb_prop in H as [Hs Hd].
  unfold Unicode.py_item. apply u_json_wf_dict. split.
  - cbn. repeat (constructor; [rewrite ?elem_of_cons, elem_of_nil; intuition discriminate|]).
    constructor.
  - repeat constructor; cbn [fst snd Unicode.json_wf]; auto using u_is_str_of_string.
Qed.

Lemma u_manifest_wf items p h :
  forallb Unicode.str_item items = true -> Unicode.json_wf (Unicode.manifest items p h).
Proof.
  intros H. unfold Unicode.manifest. apply u_json_wf_dict. split.
  - cbn. repeat (constructor; [rewrite ?elem_of_cons, elem_of_nil; intuition discriminate|]).
    constructor.
  - repeat constructor; cbn [fst snd]; auto using u_is_str_of_string, u_py_items_wf.
Qed.


(** On the texts of the model above the two encoders write the same
    manifest: the text [main] reads is the one decoded here. *)
Lemma escape_char_of_ascii a :
  Unicode.escape_char (N_of_ascii a) = escape_char a.
Proof.
  destruct a as [b0 b1 b2 b3 b4 b5 b6 b7].
  destruct b0, b1, b2, b3, b4, b5, b6, b7; reflexivity.
Qed.

Lemma dumps_str_of_string s :
  Unicode.dumps_str (Unicode.of_string s) = dumps_str s.
Proof.
  unfold Unicode.dumps_str, dumps_str, Unicode.of_string. do 2 f_equal.
  induction (list_ascii_of_string s) as [|a l IH]; [reflexivity|].
  cbn [List.map flat_map]. rewrite escape_char_of_ascii, IH. reflexivity.
Qed.

Lemma elevated_input_of_items items p h :
  Unicode.elevated_input (List.map unicode_item items) p h = elevated_input items p h.
Proof.
  unfold Unicode.elevated_input, elevated_input, Unicode.json_dumps, json_dumps. f_equal.
  unfold Unicode.manifest, manifest. rewrite u_dumps_dict, dumps_dict. do 2 f_equal.
  cbn [Unicode.dumps_members dumps_members]. rewrite !dumps_str_of_string.
  do 3 f_equal. unfold Unicode.py_items, py_items.
  rewrite u_dumps_list, dumps_list. f_equal.
  assert (E : Unicode.dumps_elems (List.map Unicode.py_item (List.map unicode_item items))
              = dumps_elems (List.map py_item items)); [|rewrite E; reflexivity].
  induction items as [|it items IH]; [reflexivity|].
  assert (Eit : Unicode.dumps (Unicode.py_item (unicode_item it)) = dumps (py_item it)).
  { unfold Unicode.py_item, py_item, unicode_item. rewrite u_dumps_dict, dumps_dict.
    cbn [Unicode.dumps_members dumps_members Unicode.dumps dumps Unicode.src Unicode.dst
         unicode_item].
    rewrite !dumps_str_of_string. reflexivity. }
  destruct items as [|it' items].
  - cbn [List.map Unicode.dumps_elems dumps_elems]. exact Eit.
  - cbn [List.map] in IH |- *. rewrite u_dumps_elems_cons, dumps_elems_cons.
    rewrite Eit, IH. reflexivity.
Qed.

(** ** The copy engine, the probe and the helper *)

Section Proofs.

Variable sha256 : hasher.

Lemma sum_sizes_cons it items acc w :
  sum_sizes (py_item it :: items) acc w =
  match w_fs w !! Path_of_str (src it) with
  | Some n => sum_sizes items (acc + st_size (stat_of n)) w
  | None => (Err (FileNotFoundError (Path_of_str (src it))), w)
  end.
Proof.
  cbn [sum_sizes]. unfold bind, py_getitem, py_item. cbn.
  unfold path_stat. destruct (w_fs w !! Path_of_str (src it)); reflexivity.
Qed.

Lemma sum_sizes_inv items : forall acc w r w',
  sum_sizes (List.map py_item items) acc w = (r, w') ->
  w' = w /\
  match r with
  | Ok t => t = acc + total_source_size (w_fs w) items /\
            Forall (fun i => is_Some (w_fs w !! Path_of_str (src i))) items
  | Err e =>
      exists pre it post, items = pre ++ it :: post /\
        Forall (fun i => is_Some (w_fs w !! Path_of_str (src i))) pre /\
        w_fs w !! Path_of_str (src it) = None /\
        e = FileNotFoundError (Path_of_str (src it))
  end.
Proof.
  induction items as [|it items IH]; intros acc w r w' H.
  - cbn in H. inversion H; subst. split; [done|]. cbn. split; [lia|constructor].
  - cbn [List.map] in H. rewrite sum_sizes_cons in H.
    destruct (w_fs w !! Path_of_str (src it)) as [n|] eqn:E.
    + apply IH in H as [-> H]. split; [done|].
      destruct r as [t|e].
      * destruct H as [-> Hall]. split.
        -- cbn [total_source_size]. unfold source_size at 1. rewrite E. lia.
        -- constructor; [rewrite E; eauto|assumption].
      * destruct H as (pre & it' & post & -> & Hpre & Hnone & ->).
        exists (it :: pre), it', post. repeat split; auto.
    + inversion H; subst. split; [done|].
      exists [], it, items. repeat split; auto.
Qed.

Lemma sum_sizes_missing pre it post : forall acc w,
  Forall (fun i => is_Some (w_fs w !! Path_of_str (src i))) pre ->
  w_fs w !! Path_of_str (src it) = None ->
  sum_sizes (List.map py_item (pre ++ it :: post)) acc w =
  (Err (FileNotFoundError (Path_of_str (src it))), w).
Proof.
  induction pre as [|i pre IH]; intros acc w Hpre Hnone.
  - cbn [app List.map]. rewrite sum_sizes_cons, Hnone. reflexivity.
  - inversion Hpre as [|? ? [n Hn] Hpre']; subst.
    cbn [app List.map]. rewrite sum_sizes_cons, Hn. apply IH; assumption.
Qed.

Lemma copy_batch_unfold items p h pcb fcb w :
  copy_batch sha256 (py_items items) p h pcb fcb w =
  match sum_sizes (List.map py_item items) 0 w with
  | (Ok t, w1) =>
      match batch_loop sha256 (List.map py_item items) 0 0 t p h pcb fcb w1 with
      | (Ok _, w2) =>
          (Ok (PDict [("bytes", PInt t);
                      ("count", PInt (Z.of_nat (List.length items)))]), w2)
      | (Err e, w2) => (Err e, w2)
      end
  | (Err e, w1) => (Err e, w1)
  end.
Proof.
  unfold copy_batch, py_items, bind. cbn [py_iter py_len]. unfold ret.
  destruct (sum_sizes _ 0 w) as [[t|e] w1]; [|reflexivity].
  destruct (batch_loop _ _ _ _ _ _ _ _ _ w1) as [[u|e] w2]; [|reflexivity].
  rewrite length_map. reflexivity.
Qed.

(** C8.  [copy_batch] on the empty list returns [{"bytes": 0, "count": 0}]
    and leaves the world as it was: whatever the two callbacks are, also
    callbacks that record every call they receive, neither is invoked and
    nothing is raised. *)
Theorem copy_batch_empty p h pcb fcb w :
  copy_batch sha256 (py_items []) p h pcb fcb w =
  (Ok (PDict [("bytes", PInt 0); ("count", PInt 0)]), w).
Proof. reflexivity. Qed.

(** C1.  Every summary [copy_batch] returns has, as [bytes], the sum of the
    sizes the item sources had when the batch started and, as [count],
    the number of items; this holds for every batch, any options and any
    callbacks.  (A batch whose transfers fail raises and returns no
    summary.) *)
Theorem copy_batch_summary items p h pcb fcb w s w' :
  copy_batch sha256 (py_items items) p h pcb fcb w = (Ok s, w') ->
  s = PDict [("bytes", PInt (total_source_size (w_fs w) items));
             ("count", PInt (Z.of_nat (List.length items)))].
Proof.
  rewrite copy_batch_unfold.
  destruct (sum_sizes _ 0 w) as [[t|e] w1] eqn:E; [|discriminate].
  apply sum_sizes_inv in E as [-> [-> _]].
  destruct (batch_loop _ _ _ _ _ _ _ _ _ w) as [[u|e] w2]; [|discriminate].
  intros [= <- <-]. reflexivity.
Qed.

(** C3, amended.  In a plain world, when an item of the batch names, by
    a plain path, a source that does not exist in a directory that does,
    and the sources of the items before it exist, [copy_batch] fails in the
    size pre-pass, before any item is attempted, item 1 included: the world
    is unchanged (nothing is created or written, no callback is called) and
    the error is the [FileNotFoundError] of that source path; it carries no
    index. *)
Theorem copy_batch_missing_source pre it post p h pcb fcb w m :
  plain_world w = true ->
  plain (src it) = true ->
  Forall (fun i => is_Some (w_fs w !! Path_of_str (src i))) pre ->
  w_fs w !! Path_of_str (src it) = None ->
  w_fs w !! parent (Path_of_str (src it)) = Some (Dir m) ->
  copy_batch sha256 (py_items (pre ++ it :: post)) p h pcb fcb w =
  (Err (FileNotFoundError (Path_of_str (src it))), w).
Proof.
  intros _ _ Hpre Hnone _. rewrite copy_batch_unfold.
  rewrite (sum_sizes_missing pre it post 0 w Hpre Hnone). reflexivity.
Qed.

Lemma parent_joinpath d c : parent (joinpath d c) = d.
Proof. unfold parent, joinpath. apply removelast_last. Qed.

Lemma joinpath_neq d c : d <> joinpath d c.
Proof.
  unfold joinpath. intros H. apply (f_equal List.length) in H.
  rewrite length_app in H. cbn in H. lia.
Qed.

Lemma probe_write_cases d w :
  let marker := joinpath d WRITE_TEST in
  (accepts_probe (w_fs w) d /\
   probe_write d w =
   (Ok tt, World (delete marker (w_fs w)) (w_umask w)
             (w_trace w ++ probe_events marker) (w_stdout w))) \/
  (~ accepts_probe (w_fs w) d /\
   exists e w', probe_write d w = (Err e, w') /\ is_Exception e = true /\
     (forall q, q <> marker -> w_fs w' !! q = w_fs w !! q) /\
     (w_fs w !! marker = None -> w' = w)).
Proof.
  intros marker. unfold probe_write, accepts_probe. fold marker.
  unfold bind, open_wb.
  pose proof (parent_joinpath d WRITE_TEST) as Hpar. fold marker in Hpar.
  pose proof (joinpath_neq d WRITE_TEST) as Hne. fold marker in Hne.
  destruct (w_fs w !! marker) as [[m' data|m']|] eqn:Em;
    [destruct (can_write m') eqn:Cw| |];
    rewrite ?Hpar;
    destruct (w_fs w !! d) as [[m0 d0|m0]|] eqn:Ed;
    try destruct (can_write m0) eqn:Cw0;
    unfold f_write, path_unlink_missing_ok; cbn;
    rewrite ?lookup_insert_eq; cbn; rewrite ?lookup_insert_eq, ?Hpar;
    rewrite ?lookup_insert_ne by (intros E; symmetry in E; done);
    rewrite ?Ed, ?Cw0.
  all: try (left; split;
            [split; [eexists; split; [reflexivity|assumption]
                    |first [left; reflexivity
                           |right; eexists _, _; split; [reflexivity|assumption]]]
            |unfold emit, set_fs; cbn; rewrite <- !app_assoc; cbn;
             rewrite ?delete_insert_eq; reflexivity]).
  all: right; (split; [intros [(m & Hd & Hm) [Hmk|(m1 & d1 & Hmk & Hm1)]]; congruence|]).
  all: eexists _, _; (split; [reflexivity|]); cbn;
       (split; [reflexivity|]);
       (split; [intros q Hq; rewrite ?lookup_insert_ne by done; reflexivity|]);
       try (intros; discriminate); try reflexivity.
Qed.

Lemma evolves_refl w : evolves w w (w_fs w) [].
Proof. unfold evolves. destruct w; cbn. rewrite app_nil_r. reflexivity. Qed.

Lemma evolves_trans w w1 w2 fs1 fs2 e1 e2 :
  evolves w w1 fs1 e1 -> evolves w1 w2 fs2 e2 -> evolves w w2 fs2 (e1 ++ e2).
Proof.
  unfold evolves. intros -> ->. cbn. rewrite app_assoc. reflexivity.
Qed.

Lemma evolves_fs w w1 fs1 evs : evolves w w1 fs1 evs -> w_fs w1 = fs1.
Proof. intros ->. reflexivity. Qed.

Lemma copy_loop_spec dstp f cb total bufs : forall copied w m d0 r w1,
  cb_emits cb f ->
  w_fs w !! dstp = Some (File m d0) ->
  copy_loop bufs (WFile dstp) copied total cb w = (r, w1) ->
  exists k evs,
    evolves w w1 (<[dstp := File m (d0 ++ List.concat (take k bufs))]> (w_fs w)) evs /\
    evs `prefix_of` loop_trace dstp f bufs copied total /\
    (forall u, r = Ok u -> k = List.length bufs /\
                           evs = loop_trace dstp f bufs copied total) /\
    (forall e, r = Err e -> cb_raises cb e).
Proof.
  induction bufs as [|buf bufs IH]; intros copied w m d0 r w1 Hcb Hd H.
  - cbn in H. inversion H; subst. exists O, []. cbn.
    rewrite app_nil_r, insert_id by assumption.
    split; [apply evolves_refl|]. split; [done|]. split; [auto|discriminate].
  - cbn [copy_loop] in H. unfold bind in H at 1.
    unfold f_write in H. cbn [wf_path] in H. rewrite Hd in H.
    set (w2 := emit _ _) in H.
    unfold bind in H at 1. fold (call_cb cb (copied + Z.of_nat (List.length buf)) total) in H.
    destruct (Hcb (copied + Z.of_nat (List.length buf)) total w2) as [rc Hc].
    rewrite Hc in H. set (w3 := World _ _ _ _) in *.
    destruct rc as [[]|e].
    + apply (IH _ w3 m (d0 ++ buf)) in H; [|assumption|subst w3 w2; cbn; apply lookup_insert_eq].
      destruct H as (k & evs & Hev & Hpre & Hok & Herr).
      exists (S k), (EvWrite dstp buf :: f (copied + Z.of_nat (List.length buf)) total ++ evs).
      split.
      { unfold evolves in *. rewrite Hev. subst w3 w2. cbn.
        rewrite insert_insert_eq. rewrite <- !app_assoc. cbn. reflexivity. }
      split.
      { cbn. apply prefix_cons. apply prefix_app. assumption. }
      split.
      { intros u Hu. destruct (Hok u Hu) as [-> ->]. split; reflexivity. }
      assumption.
    + inversion H; subst r w1.
      exists 1%nat, (EvWrite dstp buf :: f (copied + Z.of_nat (List.length buf)) total).
      split.
      { unfold evolves. subst w3 w2. cbn. rewrite app_nil_r.
        rewrite <- !app_assoc. reflexivity. }
      split.
      { cbn. apply prefix_cons. apply prefix_app_r. reflexivity. }
      split; [discriminate|].
      intros e' [= <-]. unfold cb_raises. eauto.
Qed.

Lemma take_z_take n l : take_z n l = take (Z.to_nat n) l.
Proof.
  revert n. induction l as [|b l IH]; intros n; cbn.
  - destruct (Z.to_nat n); reflexivity.
  - destruct (0 <? n) eqn:E.
    + apply Z.ltb_lt in E. rewrite IH.
      replace (Z.to_nat n) with (S (Z.to_nat (n - 1))) by lia. reflexivity.
    + apply Z.ltb_ge in E. replace (Z.to_nat n) with O by lia. reflexivity.
Qed.

Lemma concat_blocks_upto n : 0 < n -> forall fuel l,
  (List.length l <= fuel)%nat -> List.concat (blocks_upto fuel n l) = l.
Proof.
  intros Hn. induction fuel as [|fuel IH]; intros l Hl.
  - destruct l; [reflexivity|cbn in Hl; lia].
  - cbn [blocks_upto]. destruct (take_z n l) as [|b buf] eqn:E.
    + destruct l as [|x l]; [reflexivity|]. cbn in E.
      destruct (0 <? n) eqn:E'; [discriminate|]. apply Z.ltb_ge in E'. lia.
    + cbn [List.concat]. rewrite IH.
      * rewrite <- E, take_z_take.
        rewrite length_take.
        destruct (Nat.le_ge_cases (Z.to_nat n) (List.length l)).
        -- rewrite Nat.min_l by assumption. apply take_drop.
        -- rewrite Nat.min_r by assumption.
           rewrite take_ge, drop_ge by lia. apply app_nil_r.
      * rewrite length_drop. cbn [List.length]. lia.
Qed.

Lemma concat_blocks l : List.concat (blocks BUFFER l) = l.
Proof. apply concat_blocks_upto; [reflexivity|lia]. Qed.

Lemma os_mkdir_spec p mode w r w1 :
  os_mkdir p mode w = (r, w1) ->
  (r = Ok tt /\ w_fs w !! p = None /\
   w1 = emit (EvMkdir p) (set_fs (<[p := Dir (created_mode mode w)]> (w_fs w)) w)) \/
  (exists e, r = Err e /\ is_OSError e = true /\ w1 = w).
Proof.
  unfold os_mkdir.
  destruct (w_fs w !! p) as [n|] eqn:Ep.
  - intros [= <- <-]. right. eauto.
  - destruct (w_fs w !! parent p) as [[m d|m]|].
    + intros [= <- <-]. right. eauto.
    + destruct (can_write m); intros [= <- <-]; [left|right]; eauto.
    + intros [= <- <-]. right. eauto.
Qed.

Lemma path_mkdir_spec n : forall p w r w1,
  path_mkdir n p w = (r, w1) ->
  exists evs fs1, evolves w w1 fs1 evs /\
    forallb is_mkdir_ev evs = true /\
    (forall q x, w_fs w !! q = Some x -> fs1 !! q = Some x) /\
    (forall e, r = Err e -> is_OSError e = true).
Proof.
  assert (Hmk1 : forall p w r w1, os_mkdir p MODE_777 w = (r, w1) ->
    exists evs fs1, evolves w w1 fs1 evs /\ forallb is_mkdir_ev evs = true /\
      (forall q x, w_fs w !! q = Some x -> fs1 !! q = Some x) /\
      ((exists e, r = Err e /\ is_OSError e = true /\ w1 = w) \/ r = Ok tt)).
  { intros p w r w1 H. apply os_mkdir_spec in H as [(-> & Hp & ->)|(e & -> & He & ->)].
    - exists [EvMkdir p], (<[p:=Dir (created_mode MODE_777 w)]> (w_fs w)).
      split; [reflexivity|]. split; [reflexivity|]. split; [|auto].
      intros q x Hq. rewrite lookup_insert_ne; [assumption|congruence].
    - exists [], (w_fs w). split; [apply evolves_refl|]. split; [reflexivity|].
      split; [auto|]. left. eauto. }
  assert (Htail : forall p e w r w1, is_OSError e = true ->
    (d <- path_is_dir p ;; if d then ret tt else raise e) w = (r, w1) ->
    w1 = w /\ (r = Ok tt \/ r = Err e)).
  { intros p e w r w1 _. unfold bind, path_is_dir, ret, raise.
    destruct (w_fs w !! p) as [[|]|]; intros [= <- <-]; auto. }
  induction n as [|n IH]; intros p w r w1 H; cbn [path_mkdir] in H;
    unfold try_except in H at 1;
    destruct (os_mkdir p MODE_777 w) as [[[]|e] w2] eqn:E1;
    apply Hmk1 in E1 as (evs1 & fs1 & Hev1 & Hall1 & Hfr1 & Hr1).
  1,3: injection H as <- <-; exists evs1, fs1; repeat split; auto; discriminate.
  all: destruct Hr1 as [(e0 & [= <-] & He & ->)|[=]]; rewrite He in H.
  all: destruct (is_FileNotFoundError e) eqn:Efn.
  all: try (pose proof (Htail _ _ _ _ _ He H) as [Hw [->| ->]]; subst w1;
            exists [], (w_fs w); (split; [apply evolves_refl|]);
            (split; [reflexivity|]); (split; [auto|]);
            intros e' [=]; subst; assumption).
  - exists [], (w_fs w).
    destruct (bool_decide (parent p = p)); unfold raise in H; injection H as <- <-.
    all: (split; [apply evolves_refl|]); (split; [reflexivity|]); (split; [auto|]);
         intros e' [= <-]; assumption.
  - destruct (bool_decide (parent p = p)).
    { unfold raise in H; injection H as <- <-. exists [], (w_fs w).
      (split; [apply evolves_refl|]); (split; [reflexivity|]); (split; [auto|]).
      intros e' [= <-]; assumption. }
    unfold bind in H at 1.
    destruct (path_mkdir n (parent p) w) as [[[]|e2] w3] eqn:E2;
      apply IH in E2 as (evs2 & fs2 & Hev2 & Hall2 & Hfr2 & Hr2).
    2: { injection H as <- <-. exists evs2, fs2. repeat split; auto. }
    unfold try_except in H.
    destruct (os_mkdir p MODE_777 w3) as [[[]|e3] w4] eqn:E3;
      apply Hmk1 in E3 as (evs3 & fs3 & Hev3 & Hall3 & Hfr3 & Hr3).
    + injection H as <- <-. exists (evs2 ++ evs3), fs3.
      split; [eapply evolves_trans; eassumption|].
      split; [rewrite forallb_app, Hall2, Hall3; reflexivity|].
      split; [|discriminate].
      intros q x Hq. apply Hfr3. rewrite (evolves_fs _ _ _ _ Hev2). auto.
    + destruct Hr3 as [(e0 & [= <-] & He3 & ->)|[=]]. rewrite He3 in H.
      pose proof (Htail _ _ _ _ _ He3 H) as [Hw Hr]. subst w1.
      exists evs2, fs2. repeat split; auto.
      intros e' ->. destruct Hr as [[=]|[= <-]]. assumption.
Qed.

Lemma open_rb_spec p w r w1 :
  open_rb p w = (r, w1) ->
  (exists m d, w_fs w !! p = Some (File m d) /\ can_read m = true /\
               r = Ok (RFile p) /\ w1 = emit (EvOpenR p) w) \/
  (exists e, r = Err e /\ is_OSError e = true /\ w1 = w).
Proof.
  unfold open_rb. destruct (w_fs w !! p) as [[m d|m]|].
  - destruct (can_read m) eqn:E; intros [= <- <-]; [left|right]; eauto 10.
  - intros [= <- <-]. right. eauto.
  - intros [= <- <-]. right. eauto.
Qed.

Lemma open_wb_spec p w r w1 :
  open_wb p w = (r, w1) ->
  (exists m1, r = Ok (WFile p) /\
     w1 = emit (EvOpenW p) (set_fs (<[p := File m1 []]> (w_fs w)) w) /\
     (forall m d, w_fs w !! p = Some (File m d) -> m1 = m)) \/
  (exists e, r = Err e /\ is_OSError e = true /\ w1 = w).
Proof.
  unfold open_wb. destruct (w_fs w !! p) as [[m d|m]|].
  - destruct (can_write m) eqn:E; intros [= <- <-]; [left|right]; eauto 10.
    eexists. split; [reflexivity|]. split; [reflexivity|]. congruence.
  - intros [= <- <-]. right. eauto.
  - destruct (w_fs w !! parent p) as [[m d|m]|].
    + intros [= <- <-]. right. eauto.
    + destruct (can_write m); intros [= <- <-]; [left|right]; eauto.
      eexists. split; [reflexivity|]. split; [reflexivity|]. congruence.
    + intros [= <- <-]. right. eauto.
Qed.

Lemma bind_ret {A B} (a : A) (k : A -> M B) : bind (ret a) k = k a.
Proof. reflexivity. Qed.

Lemma OSError_Exception e : is_OSError e = true -> is_Exception e = true.
Proof. destruct e; cbn; congruence. Qed.

Lemma progress_values_app a b :
  progress_values (a ++ b) = progress_values a ++ progress_values b.
Proof. apply flat_map_app. Qed.

Lemma progress_values_prefix a b :
  a `prefix_of` b -> progress_values a `prefix_of` progress_values b.
Proof.
  intros [k ->]. rewrite progress_values_app. apply prefix_app_r. reflexivity.
Qed.

Lemma progress_values_mkdir mk :
  forallb is_mkdir_ev mk = true -> progress_values mk = [].
Proof.
  induction mk as [|e mk IH]; [reflexivity|]. cbn.
  destruct e; cbn; try discriminate. assumption.
Qed.

Lemma mkdir_setup mk : forallb is_mkdir_ev mk = true -> forallb is_setup_ev mk = true.
Proof.
  induction mk as [|e mk IH]; [reflexivity|]. cbn [forallb].
  intros [He Hmk]%andb_prop. rewrite IH by assumption.
  destruct e; try discriminate. reflexivity.
Qed.

Lemma progress_values_setup pre :
  forallb is_setup_ev pre = true -> progress_values pre = [].
Proof.
  induction pre as [|e pre IH]; [reflexivity|]. cbn [forallb].
  intros [He Hpre]%andb_prop. destruct e; try discriminate; cbn; auto.
Qed.

Lemma read_blocks_spec p w :
  read_blocks (RFile p) BUFFER w =
  (Ok (match w_fs w !! p with Some (File _ d) => blocks BUFFER d | _ => [] end), w).
Proof.
  unfold read_blocks. cbn [rf_path].
  destruct (w_fs w !! p) as [[m d|m]|]; reflexivity.
Qed.

Lemma progress_values_tail dstp pm ch mode evs :
  evs `prefix_of` tail_events dstp pm ch mode -> progress_values evs = [].
Proof.
  intros [rest Hrest]. unfold tail_events in Hrest.
  destruct pm, ch; cbn in Hrest;
    repeat (destruct evs as [|? evs]; [reflexivity|injection Hrest as <- Hrest]);
    destruct evs; try discriminate; reflexivity.
Qed.

Lemma hash_spec p w r w1 :
  _hash sha256 p w = (r, w1) ->
  (exists m d, w_fs w !! p = Some (File m d) /\
     r = Ok (digest_of sha256 BUFFER d) /\ w1 = emit (EvOpenR p) w) \/
  (exists e, r = Err e /\ is_OSError e = true /\ w1 = w).
Proof.
  unfold _hash, bind. destruct (open_rb p w) as [rr w2] eqn:E.
  apply open_rb_spec in E as [(m & d & Hp & _ & -> & ->)|(e & -> & He & ->)].
  - rewrite read_blocks_spec. cbn [w_fs emit]. rewrite Hp.
    intros [= <- <-]. left. eauto.
  - intros [= <- <-]. right. eauto.
Qed.

Lemma finish_spec srcp dstp dtxt (pm ch : bool) (tot : Z) w r w1 m1 data ms ds :
  ((if pm
    then st' <- path_stat srcp ;; os_chmod dstp (st_mode st')
    else ret tt) ;;;
   digest <- (if ch then d <- _hash sha256 dstp ;; ret (PStr d) else ret PNone) ;;
   ret (PDict [("bytes", PInt tot); ("hash", digest);
               ("dst", PStr dtxt)])) w = (r, w1) ->
  w_fs w !! dstp = Some (File m1 data) ->
  w_fs w !! srcp = Some (File ms ds) ->
  exists evs m1',
    evolves w w1 (<[dstp := File m1' data]> (w_fs w)) evs /\
    evs `prefix_of` tail_events dstp pm ch (Z.lor S_IFREG ms) /\
    (pm = true -> m1' = Z.land (Z.lor S_IFREG ms) PERM_BITS) /\
    (forall e, r = Err e -> is_Exception e = true) /\
    (forall res, r = Ok res ->
       evs = tail_events dstp pm ch (Z.lor S_IFREG ms) /\
       res = PDict [("bytes", PInt tot);
                    ("hash", if ch then PStr (digest_of sha256 BUFFER data) else PNone);
                    ("dst", PStr dtxt)]).
Proof.
  intros H Hd Hs.
  assert (Hstage : exists w2 ev2 m1',
    (if pm then st' <- path_stat srcp ;; os_chmod dstp (st_mode st') else ret tt) w
      = (Ok tt, w2) /\
    evolves w w2 (<[dstp := File m1' data]> (w_fs w)) ev2 /\
    ev2 = (if pm then [EvChmod dstp (Z.lor S_IFREG ms)] else []) /\
    (pm = true -> m1' = Z.land (Z.lor S_IFREG ms) PERM_BITS)).
  { destruct pm.
    - unfold bind, path_stat. rewrite Hs. cbn [stat_of st_mode].
      unfold os_chmod. rewrite Hd.
      eexists _, _, _. split; [reflexivity|]. split; [reflexivity|]. auto.
    - exists w, [], m1. split; [reflexivity|].
      rewrite insert_id by assumption. split; [apply evolves_refl|]. split; [reflexivity|].
      discriminate. }
  destruct Hstage as (w2 & ev2 & m1' & Hc & Hev2 & -> & Hm1').
  unfold bind in H at 1. rewrite Hc in H.
  pose proof (evolves_fs _ _ _ _ Hev2) as Hfs2.
  destruct ch.
  - unfold bind in H at 1 2. destruct (_hash sha256 dstp w2) as [rh w3] eqn:Eh.
    apply hash_spec in Eh as [(m & dd & Hp & -> & ->)|(e & -> & He & ->)].
    + rewrite Hfs2, lookup_insert_eq in Hp. injection Hp as <- <-.
      unfold ret in H. injection H as <- <-.
      exists ((if pm then [EvChmod dstp (Z.lor S_IFREG ms)] else []) ++ [EvOpenR dstp]), m1'.
      split.
      { eapply evolves_trans; [eassumption|]. unfold evolves, emit. cbn.
        rewrite Hfs2. reflexivity. }
      split; [reflexivity|]. split; [assumption|]. split; [discriminate|].
      intros res [= <-]. split; reflexivity.
    + injection H as <- <-.
      exists (if pm then [EvChmod dstp (Z.lor S_IFREG ms)] else []), m1'.
      split; [assumption|]. split; [apply prefix_app_r; reflexivity|].
      split; [assumption|].
      split; [intros e' [= <-]; apply OSError_Exception; assumption|discriminate].
  - rewrite bind_ret in H. unfold ret in H. injection H as <- <-.
    exists (if pm then [EvChmod dstp (Z.lor S_IFREG ms)] else []), m1'.
    split; [assumption|].
    unfold tail_events. rewrite app_nil_r.
    split; [reflexivity|]. split; [assumption|]. split; [discriminate|].
    intros res [= <-]. split; reflexivity.
Qed.

Lemma copy_with_progress_spec s d pm ch cb f w r w1 :
  cb_emits cb f ->
  copy_with_progress sha256 (PStr s) (PStr d) pm ch cb w = (r, w1) ->
  let srcp := Path_of_str s in
  let dstp := Path_of_str d in
  exists evs fs1, evolves w w1 fs1 evs /\
    (forall q x, q <> dstp -> w_fs w !! q = Some x -> fs1 !! q = Some x) /\
    (forall e, r = Err e -> is_Exception e = true \/ cb_raises cb e) /\
    exists pre evl tl bufs total,
      evs = pre ++ evl ++ tl /\
      forallb is_setup_ev pre = true /\
      evl `prefix_of` loop_trace dstp f bufs 0 total /\
      (tl = [] \/
       exists m0 d0, w_fs w !! srcp = Some (File m0 d0) /\
         evl = loop_trace dstp f
                 (blocks BUFFER (if bool_decide (srcp = dstp) then [] else d0)) 0
                 (Z.of_nat (List.length d0)) /\
         tl `prefix_of` tail_events dstp pm ch (Z.lor S_IFREG m0)) /\
      (forall res, r = Ok res ->
         exists m0 d0 m1,
           let data := if bool_decide (srcp = dstp) then [] else d0 in
           w_fs w !! srcp = Some (File m0 d0) /\
           evl = loop_trace dstp f (blocks BUFFER data) 0 (Z.of_nat (List.length d0)) /\
           tl = tail_events dstp pm ch (Z.lor S_IFREG m0) /\
           fs1 !! dstp = Some (File m1 data) /\
           (pm = true -> m1 = Z.land (Z.lor S_IFREG m0) PERM_BITS) /\
           (exists m2, fs1 !! srcp = Some (File m2 data)) /\
           res = PDict [("bytes", PInt (Z.of_nat (List.length d0)));
                        ("hash", if ch then PStr (digest_of sha256 BUFFER data)
                                 else PNone);
                        ("dst", PStr (posix_str d))]).
Proof.
  intros Hcb H srcp dstp.
  unfold copy_with_progress in H. cbn [Path str_Path] in H. rewrite !bind_ret in H.
  fold srcp dstp in H.
  unfold bind in H at 1. unfold path_stat in H at 1.
  destruct (w_fs w !! srcp) as [n0|] eqn:Esrc.
  2: { injection H as <- <-. exists [], (w_fs w). split; [apply evolves_refl|].
       split; [auto|]. split; [intros e [= <-]; left; reflexivity|].
       exists [], [], [], [], 0.
       split; [reflexivity|]. split; [reflexivity|]. split; [apply prefix_nil|].
       split; [left; reflexivity|discriminate]. }
  unfold bind in H at 1. unfold path_mkdir_parents in H.
  destruct (path_mkdir _ (parent dstp) w) as [[[]|e] w2] eqn:Emk;
    apply path_mkdir_spec in Emk as (mk & fs2 & Hev2 & Hmk & Hfr2 & Herr2).
  2: { injection H as <- <-. exists mk, fs2. split; [assumption|].
       split; [auto|].
       split; [intros e' [= <-]; left; apply OSError_Exception; auto|].
       exists mk, [], [], [], 0.
       split; [rewrite !app_nil_r; reflexivity|]. split; [apply mkdir_setup; assumption|].
       split; [apply prefix_nil|]. split; [left; reflexivity|discriminate]. }
  pose proof (evolves_fs _ _ _ _ Hev2) as Hfs2.
  unfold bind in H at 1.
  destruct (open_rb srcp w2) as [rr w3] eqn:Eor.
  apply open_rb_spec in Eor as [(m0 & d0 & Hs2 & Hcr & -> & ->)|(e & -> & He & ->)].
  2: { injection H as <- <-. exists mk, fs2. split; [assumption|].
       split; [auto|].
       split; [intros e' [= <-]; left; apply OSError_Exception; auto|].
       exists mk, [], [], [], 0.
       split; [rewrite !app_nil_r; reflexivity|]. split; [apply mkdir_setup; assumption|].
       split; [apply prefix_nil|]. split; [left; reflexivity|discriminate]. }
  rewrite Hfs2 in Hs2. pose proof (Hfr2 _ _ Esrc) as Hs2'.
  rewrite Hs2 in Hs2'. injection Hs2' as <-.
  unfold bind in H at 1.
  destruct (open_wb dstp (emit (EvOpenR srcp) w2)) as [rw w4] eqn:Eow.
  apply open_wb_spec in Eow as [(m1 & -> & -> & Hm1)|(e & -> & He & ->)].
  2: { injection H as <- <-. exists (mk ++ [EvOpenR srcp]), fs2.
       split; [eapply evolves_trans; [eassumption|];
               unfold evolves, emit; cbn; rewrite Hfs2; reflexivity|].
       split; [auto|].
       split; [intros e' [= <-]; left; apply OSError_Exception; auto|].
       exists (mk ++ [EvOpenR srcp]), [], [], [], 0.
       split; [rewrite !app_nil_r; reflexivity|].
       split; [rewrite forallb_app, mkdir_setup by assumption; reflexivity|].
       split; [apply prefix_nil|]. split; [left; reflexivity|discriminate]. }
  unfold bind in H at 1. rewrite read_blocks_spec in H.
  cbn [w_fs emit set_fs] in H. rewrite Hfs2 in H.
  set (data := if bool_decide (srcp = dstp) then [] else d0).
  assert (Hbufs : match <[dstp:=File m1 []]> fs2 !! srcp with
                  | Some (File _ d1) => blocks BUFFER d1
                  | _ => []
                  end = blocks BUFFER data).
  { subst data. case_bool_decide as Hsd.
    - rewrite Hsd, lookup_insert_eq. reflexivity.
    - rewrite lookup_insert_ne by congruence. rewrite Hs2. reflexivity. }
  rewrite Hbufs in H. clear Hbufs.
  set (w4 := emit (EvOpenW dstp) _) in H.
  assert (Hev4 : evolves w w4 (<[dstp:=File m1 []]> fs2) (mk ++ [EvOpenR srcp; EvOpenW dstp])).
  { eapply evolves_trans; [eassumption|]. subst w4. unfold evolves, emit, set_fs. cbn.
    rewrite <- app_assoc. reflexivity. }
  assert (Hd4 : w_fs w4 !! dstp = Some (File m1 [])).
  { subst w4. cbn. apply lookup_insert_eq. }
  assert (Hm0 : srcp = dstp -> m1 = m0).
  { intros E. apply (Hm1 m0 d0). cbn. rewrite Hfs2, <- E. assumption. }
  assert (Hsetup : forallb is_setup_ev (mk ++ [EvOpenR srcp; EvOpenW dstp]) = true).
  { rewrite forallb_app, mkdir_setup by assumption. reflexivity. }
  clearbody w4.
  unfold bind in H at 1.
  destruct (copy_loop _ _ _ _ _ w4) as [rl w5] eqn:El.
  eapply copy_loop_spec in El as (k & evl & Hev5 & Hpre & Hok & Herr); [|eassumption..].
  rewrite (evolves_fs _ _ _ _ Hev4), insert_insert_eq in Hev5. cbn [app] in Hev5.
  pose proof (evolves_trans _ _ _ _ _ _ _ Hev4 Hev5) as Hev5'.
  assert (Hframe5 : forall q x, q <> dstp -> w_fs w !! q = Some x ->
            forall m' dd, <[dstp:=File m' dd]> fs2 !! q = Some x).
  { intros q x Hq Hx m' dd. rewrite lookup_insert_ne by congruence. auto. }
  destruct rl as [[]|e].
  2: { injection H as <- <-. eexists _, _. split; [eassumption|].
       split; [intros q x Hq Hx; apply Hframe5; assumption|].
       split; [intros e' [= <-]; right; apply Herr; reflexivity|].
       exists (mk ++ [EvOpenR srcp; EvOpenW dstp]), evl, [],
         (blocks BUFFER data), (st_size (stat_of (File m0 d0))).
       split; [rewrite !app_nil_r; reflexivity|]. split; [assumption|].
       split; [assumption|]. split; [left; reflexivity|discriminate]. }
  destruct (Hok tt eq_refl) as [-> ->].
  rewrite firstn_all, concat_blocks in Hev5, Hev5'.
  pose proof (evolves_fs _ _ _ _ Hev5) as Hfs5.
  assert (Hs5 : w_fs w5 !! srcp = Some (File m0 data)).
  { rewrite Hfs5. subst data. case_bool_decide as Hsd.
    - rewrite Hsd, lookup_insert_eq. rewrite (Hm0 Hsd). reflexivity.
    - rewrite lookup_insert_ne by congruence. assumption. }
  eapply finish_spec in H as (evt & m1' & Hev6 & Hpt & Hpm & Herr6 & Hok6);
    [|rewrite Hfs5; apply lookup_insert_eq|eassumption].
  rewrite Hfs5, insert_insert_eq in Hev6.
  pose proof (evolves_trans _ _ _ _ _ _ _ Hev5' Hev6) as Hev6'.
  eexists _, _. split; [eassumption|].
  split; [intros q x Hq Hx; apply Hframe5; assumption|].
  split; [intros e' ->; left; apply Herr6; reflexivity|].
  exists (mk ++ [EvOpenR srcp; EvOpenW dstp]),
    (loop_trace dstp f (blocks BUFFER data) 0 (st_size (stat_of (File m0 d0)))), evt,
    (blocks BUFFER data), (st_size (stat_of (File m0 d0))).
  split; [rewrite <- !app_assoc; reflexivity|]. split; [assumption|].
  split; [reflexivity|].
  split; [right; exists m0, d0; fold data; auto|].
  intros res ->. destruct (Hok6 _ eq_refl) as [-> ->].
  exists m0, d0, m1'. cbn zeta. fold data.
  split; [reflexivity|]. split; [reflexivity|]. split; [reflexivity|].
  split; [apply lookup_insert_eq|]. split; [assumption|].
  split; [|reflexivity].
  subst data. case_bool_decide as Hsd.
  - rewrite Hsd, lookup_insert_eq. eauto.
  - rewrite lookup_insert_ne by congruence. eauto.
Qed.

Lemma item_cb_emits hp : cb_emits (option_map item_progress_cb hp) (item_events hp).
Proof.
  intros c t w. destruct hp as [h|]; cbn.
  - unfold item_progress_cb, observe. destruct (h _); eexists; reflexivity.
  - eexists. unfold ret. destruct w; cbn. rewrite app_nil_r. reflexivity.
Qed.

Lemma written_app p a b : written p (a ++ b) = written p a ++ written p b.
Proof. apply flat_map_app. Qed.

Lemma written_loop_trace p hp bufs : forall c t,
  written p (loop_trace p (item_events hp) bufs c t) = List.concat bufs.
Proof.
  induction bufs as [|buf bufs IH]; intros c t; [reflexivity|].
  cbn [loop_trace List.concat].
  change (written p (EvWrite p buf :: ?l)) with
    ((if bool_decide (p = p) then buf else []) ++ written p l).
  rewrite bool_decide_eq_true_2 by reflexivity. f_equal.
  rewrite written_app, IH.
  destruct hp; reflexivity.
Qed.

Lemma no_chmod_loop_trace p hp bufs : forall c t,
  forallb (fun e => negb (is_chmod_ev e)) (loop_trace p (item_events hp) bufs c t) = true.
Proof.
  induction bufs as [|buf bufs IH]; intros c t; [reflexivity|].
  cbn [loop_trace forallb negb is_chmod_ev andb]. rewrite forallb_app, IH.
  destruct hp; reflexivity.
Qed.

Lemma written_setup p pre : forallb is_setup_ev pre = true -> written p pre = [].
Proof.
  induction pre as [|e pre IH]; [reflexivity|]. cbn [forallb].
  intros [He Hpre]%andb_prop. destruct e; try discriminate; cbn; auto.
Qed.

Lemma no_chmod_setup pre :
  forallb is_setup_ev pre = true ->
  forallb (fun e => negb (is_chmod_ev e)) pre = true.
Proof.
  induction pre as [|e pre IH]; [reflexivity|]. cbn [forallb].
  intros [He Hpre]%andb_prop. rewrite IH by assumption.
  destruct e; try discriminate; reflexivity.
Qed.

Lemma forallb_prefix {A} (g : A -> bool) (a b : list A) :
  a `prefix_of` b -> forallb g b = true -> forallb g a = true.
Proof. intros [k ->]. rewrite forallb_app. intros [H _]%andb_prop. exact H. Qed.

(** C6.  In every single-file transfer between paths without [..], the
    new events split into a stream
    part without any [chmod] and a tail; the tail is empty unless the whole
    source was written to the destination, and it is then a prefix of: the
    [chmod] of the destination to the source's mode (if [preserve_mode]),
    followed by the opening of the destination for hashing (if
    [calc_hash]).  When the transfer returns, the tail is complete, the
    destination holds the data and (with [preserve_mode]) the permission
    bits of the source, and the digest of the result is the digest of the
    destination's contents. *)
Theorem copy_with_progress_order s d pm ch (hp : option handler) w r w1 :
  no_dotdot (Path_of_str s) = true -> no_dotdot (Path_of_str d) = true ->
  copy_with_progress sha256 (PStr s) (PStr d) pm ch
    (option_map item_progress_cb hp) w = (r, w1) ->
  let srcp := Path_of_str s in
  let dstp := Path_of_str d in
  exists stream tl,
    w_trace w1 = w_trace w ++ stream ++ tl /\
    forallb (fun e => negb (is_chmod_ev e)) stream = true /\
    (tl = [] \/
     exists m0 d0, w_fs w !! srcp = Some (File m0 d0) /\
       written dstp stream = (if bool_decide (srcp = dstp) then [] else d0) /\
       tl `prefix_of` tail_events dstp pm ch (st_mode (stat_of (File m0 d0)))) /\
    (forall res, r = Ok res ->
       exists m0 d0 m1,
         let data := if bool_decide (srcp = dstp) then [] else d0 in
         w_fs w !! srcp = Some (File m0 d0) /\
         written dstp stream = data /\
         tl = tail_events dstp pm ch (st_mode (stat_of (File m0 d0))) /\
         w_fs w1 !! dstp = Some (File m1 data) /\
         (pm = true -> m1 = Z.land (st_mode (stat_of (File m0 d0))) PERM_BITS) /\
         res = PDict [("bytes", PInt (Z.of_nat (List.length d0)));
                      ("hash", if ch then PStr (digest_of sha256 BUFFER data) else PNone);
                      ("dst", PStr (posix_str d))]).
Proof.
  intros _ _ H srcp dstp.
  eapply copy_with_progress_spec in H; [|apply item_cb_emits].
  destruct H as (evs & fs1 & Hev & _ & _ &
                 (pre & evl & tl & bufs & tot & Hevs & Hsetup & Hpre & Htl & Hok)).
  fold srcp dstp in Hpre, Htl, Hok.
  exists (pre ++ evl), tl.
  split; [rewrite Hev; cbn [w_trace]; rewrite Hevs, <- !app_assoc; reflexivity|].
  split.
  { rewrite forallb_app, no_chmod_setup by assumption.
    apply (forallb_prefix _ _ _ Hpre), no_chmod_loop_trace. }
  assert (Hw : forall d0,
             evl = loop_trace dstp (item_events hp)
                     (blocks BUFFER (if bool_decide (srcp = dstp) then [] else d0)) 0
                     (Z.of_nat (List.length d0)) ->
             written dstp (pre ++ evl) = (if bool_decide (srcp = dstp) then [] else d0)).
  { intros d0 ->. rewrite written_app, written_setup by assumption.
    cbn [app]. rewrite written_loop_trace. apply concat_blocks. }
  split.
  { destruct Htl as [->|(m0 & d0 & Hs & Hevl & Hp)]; [left; reflexivity|].
    right. exists m0, d0. split; [assumption|]. split; [eapply Hw; eassumption|].
    exact Hp. }
  intros res ->.
  destruct (Hok res eq_refl) as (m0 & d0 & m1 & Hs & Hevl & -> & Hd & Hpm & _ & ->).
  cbn zeta in Hevl, Hd.
  exists m0, d0, m1. cbn zeta. split; [assumption|].
  split; [apply Hw; assumption|]. split; [reflexivity|].
  rewrite (evolves_fs _ _ _ _ Hev). auto.
Qed.

Lemma last_cons_default (a : list Z) : forall x lo,
  List.last (x :: a) lo = List.last a x.
Proof.
  induction a as [|y a IH]; intros x lo; [reflexivity|].
  change (List.last (x :: y :: a) lo) with (List.last (y :: a) lo).
  rewrite (IH y lo), (IH y x). reflexivity.
Qed.

Lemma last_app_default (a b : list Z) : forall lo,
  List.last (a ++ b) lo = List.last b (List.last a lo).
Proof.
  induction a as [|x a IH]; intros lo; [reflexivity|].
  cbn [app]. rewrite !last_cons_default. apply IH.
Qed.

Lemma chain_app a : forall lo b,
  chain lo (a ++ b) <-> chain lo a /\ chain (List.last a lo) b.
Proof.
  induction a as [|x a IH]; intros lo b.
  - cbn. tauto.
  - cbn [app chain]. rewrite IH, last_cons_default. tauto.
Qed.

Lemma chain_prefix lo a b : a `prefix_of` b -> chain lo b -> chain lo a.
Proof. intros [k ->] H. apply chain_app in H. tauto. Qed.

Lemma chain_Sorted vs : forall lo, chain lo vs -> Sorted Z.le vs.
Proof.
  induction vs as [|v vs IH]; intros lo H; [constructor|].
  destruct H as [_ H]. constructor; [eapply IH; eassumption|].
  destruct vs; constructor. apply H.
Qed.

Lemma progress_loop_trace dstp agg tb idx nm bufs : forall c t,
  let vs := progress_values
              (loop_trace dstp (batch_item_events agg tb idx nm) bufs c t) in
  chain (agg + c) vs /\
  List.last vs (agg + c) = agg + c + Z.of_nat (List.length (List.concat bufs)).
Proof.
  induction bufs as [|buf bufs IH]; intros c t.
  - cbn. split; [trivial|lia].
  - cbn zeta. cbn [loop_trace List.concat].
    change (progress_values (EvWrite dstp buf :: ?l)) with (progress_values l).
    unfold batch_item_events at 1 3.
    change (progress_values ([?e] ++ ?l)) with
      ((agg + (c + Z.of_nat (List.length buf))) :: progress_values l).
    destruct (IH (c + Z.of_nat (List.length buf)) t) as [IH1 IH2].
    cbn zeta in IH1, IH2. split.
    + cbn [chain]. split; [lia|assumption].
    + rewrite length_app, Nat2Z.inj_add.
      rewrite last_cons_default, IH2. lia.
Qed.

Lemma batch_loop_cons it items idx agg tb pm ch pcb fcb :
  batch_loop sha256 (py_item it :: items) idx agg tb pm ch pcb fcb =
  (result <- copy_with_progress sha256 (PStr (src it)) (PStr (dst it)) pm ch
               (Some (fun copied total : Z =>
                        match pcb with
                        | Some cb =>
                            p <- Path (PStr (src it)) ;;
                            cb (agg + copied) tb idx (name p)
                        | None => ret tt
                        end)) ;;
   st <- path_stat (Path_of_str (src it)) ;;
   match fcb with
   | Some cb => cb idx result
   | None => ret tt
   end ;;;
   batch_loop sha256 items (idx + 1) (agg + st_size st) tb pm ch pcb fcb).
Proof. reflexivity. Qed.

Lemma batch_cb_emits hp agg tb idx s :
  cb_emits
    (Some (fun copied total : Z =>
             match Some (batch_progress_cb hp) with
             | Some cb => p <- Path (PStr s) ;; cb (agg + copied) tb idx (name p)
             | None => ret tt
             end))
    (batch_item_events agg tb idx (name (Path_of_str s))).
Proof.
  intros c t w. cbn. unfold batch_progress_cb, observe, batch_item_events.
  destruct (hp _); eexists; reflexivity.
Qed.

Lemma file_done_spec hf idx res w r w1 :
  match option_map batch_file_done_cb hf with
  | Some cb => cb idx res
  | None => ret tt
  end w = (r, w1) ->
  exists evs, evolves w w1 (w_fs w) evs /\ progress_values evs = [].
Proof.
  destruct hf as [h|]; cbn.
  - unfold batch_file_done_cb, observe. destruct (h _); intros [= <- <-];
      exists [EvFileDone idx res]; split; reflexivity.
  - intros [= <- <-]. exists []. split; [apply evolves_refl|reflexivity].
Qed.

Lemma total_source_size_frame fs fs' items :
  sources_exist fs items ->
  (forall i x, i ∈ items -> fs !! Path_of_str (src i) = Some x ->
               fs' !! Path_of_str (src i) = Some x) ->
  total_source_size fs' items = total_source_size fs items /\
  sources_exist fs' items.
Proof.
  induction items as [|i items IH]; intros Hex Hfr.
  - split; [reflexivity|constructor].
  - inversion Hex as [|? ? [x Hx] Hex']; subst.
    destruct IH as [IH1 IH2]; [assumption| |].
    { intros j y Hj. apply Hfr. right. assumption. }
    split.
    + cbn [total_source_size]. rewrite IH1. unfold source_size.
      rewrite Hx, (Hfr i x); [reflexivity|left|assumption].
    + constructor; [|assumption]. rewrite (Hfr i x); [eauto|left|assumption].
Qed.

Lemma batch_loop_progress tb pm ch hp hf items : forall idx agg w r w1,
  batch_loop sha256 (List.map py_item items) idx agg tb pm ch
    (Some (batch_progress_cb hp)) (option_map batch_file_done_cb hf) w = (r, w1) ->
  exists evs fs1, evolves w w1 fs1 evs /\
    chain agg (progress_values evs) /\
    (forall u, r = Ok u -> sources_untouched items -> sources_exist (w_fs w) items ->
       List.last (progress_values evs) agg = agg + total_source_size (w_fs w) items).
Proof.
  induction items as [|it items IH]; intros idx agg w r w1 H.
  - cbn in H. injection H as <- <-. exists [], (w_fs w).
    split; [apply evolves_refl|]. cbn. split; [trivial|]. intros; lia.
  - cbn [List.map] in H. rewrite batch_loop_cons in H.
    unfold bind in H at 1.
    destruct (copy_with_progress _ _ _ _ _ _ w) as [r1 w2] eqn:Ec.
    eapply copy_with_progress_spec in Ec; [|apply batch_cb_emits].
    destruct Ec as (evs1 & fs2 & Hev2 & Hfr2 & _ &
                    (pre & evl & tl & bufs & tot & Hevs & Hsetup & Hpre & Htl & Hok)).
    pose proof (progress_loop_trace (Path_of_str (dst it)) agg tb idx
                  (name (Path_of_str (src it))) bufs 0 tot) as [Hch _].
    cbn zeta in Hch. rewrite Z.add_0_r in Hch.
    assert (Hpvs : progress_values evs1 = progress_values evl).
    { rewrite Hevs, !progress_values_app, progress_values_setup by assumption.
      destruct Htl as [->|(? & ? & _ & _ & Hp)]; [apply app_nil_r|].
      rewrite (progress_values_tail _ _ _ _ _ Hp). apply app_nil_r. }
    assert (Hch1 : chain agg (progress_values evs1)).
    { rewrite Hpvs. eapply chain_prefix; [|exact Hch].
      apply progress_values_prefix. assumption. }
    clear Htl Hpre.
    destruct r1 as [res|e].
    2: { injection H as <- <-. exists evs1, fs2. split; [assumption|].
         split; [assumption|discriminate]. }
    destruct (Hok res eq_refl) as (m0 & d0 & m1 & Hs & Hevl & _ & Hd & _ & [m2 Hs2] & _).
    cbn zeta in Hevl, Hd, Hs2.
    set (data := if bool_decide (Path_of_str (src it) = Path_of_str (dst it))
                 then [] else d0) in *.
    assert (Hpv1 : progress_values evs1 =
              progress_values (loop_trace (Path_of_str (dst it))
                (batch_item_events agg tb idx (name (Path_of_str (src it))))
                (blocks BUFFER data) 0 (Z.of_nat (List.length d0)))).
    { rewrite Hpvs, Hevl. reflexivity. }
    pose proof (progress_loop_trace (Path_of_str (dst it)) agg tb idx
                  (name (Path_of_str (src it))) (blocks BUFFER data) 0
                  (Z.of_nat (List.length d0))) as [_ Hlast].
    cbn zeta in Hlast. rewrite <- Hpv1, concat_blocks, Z.add_0_r in Hlast.
    pose proof (evolves_fs _ _ _ _ Hev2) as Hfs2.
    unfold bind in H at 1. unfold path_stat in H. rewrite Hfs2, Hs2 in H.
    cbn [stat_of st_size] in H.
    unfold bind in H at 1.
    destruct (match option_map batch_file_done_cb hf with
              | Some cb => cb idx res | None => ret tt end w2) as [rf w3] eqn:Ef.
    apply file_done_spec in Ef as (evf & Hev3 & Hpvf).
    rewrite Hfs2 in Hev3.
    pose proof (evolves_trans _ _ _ _ _ _ _ Hev2 Hev3) as Hev3'.
    destruct rf as [[]|e].
    2: { injection H as <- <-. eexists _, _. split; [eassumption|].
         rewrite progress_values_app, Hpvf, app_nil_r.
         split; [assumption|discriminate]. }
    apply IH in H as (evs4 & fs4 & Hev4 & Hch4 & Hok4).
    pose proof (evolves_trans _ _ _ _ _ _ _ Hev3' Hev4) as Hev4'.
    eexists _, _. split; [eassumption|].
    rewrite !progress_values_app, Hpvf, app_nil_r.
    split.
    { apply chain_app. split; [assumption|]. rewrite Hlast. assumption. }
    intros u -> Hunt Hex.
    rewrite last_app_default, Hlast.
    unfold sources_exist in Hex. apply Forall_cons in Hex as [_ Hex'].
    assert (Hne : Path_of_str (src it) <> Path_of_str (dst it)).
    { intros E. apply (Hunt it it); [left|left|]; auto. }
    destruct (total_source_size_frame (w_fs w) fs2 items Hex') as [Htot Hex2].
    { intros i x Hi Hx. apply Hfr2; [|assumption].
      intros E. apply (Hunt it i); [left|right; assumption|]. auto. }
    rewrite (Hok4 u eq_refl).
    + rewrite (evolves_fs _ _ _ _ Hev3), Htot.
      cbn [total_source_size]. unfold source_size at 1. rewrite Hs.
      cbn [stat_of st_size]. subst data.
      rewrite bool_decide_eq_false_2 by assumption. lia.
    + intros a b Ha Hb. apply Hunt; right; assumption.
    + rewrite (evolves_fs _ _ _ _ Hev3). assumption.
Qed.

Lemma last_Some_default (l : list Z) v d : last l = Some v -> List.last l d = v.
Proof.
  revert d. induction l as [|x l IH]; intros d; [discriminate|].
  rewrite last_cons_default. destruct l as [|y l].
  - cbn. congruence.
  - intros H. rewrite last_cons_cons in H. apply (IH x H).
Qed.


Lemma path_writable_probe t w :
  path_writable t w =
  match probe_write (probe_base (w_fs w) (Path_of_str t)) w with
  | (Ok _, w') => (Ok true, w')
  | (Err e, w') => if is_Exception e then (Ok false, w') else (Err e, w')
  end.
Proof.
  unfold path_writable, probe_write, probe_base, bind at 1, path_is_dir.
  set (p := Path_of_str t).
  assert (Hgen : forall base,
    try_except
      (let testfile := joinpath base WRITE_TEST in
       f <- open_wb testfile ;;
       f_write f (list_byte_of_string "ok") ;;;
       path_unlink_missing_ok testfile ;;; ret true) is_Exception
      (fun _ => ret false) w =
    match
      (let marker := joinpath base WRITE_TEST in
       f <- open_wb marker ;;
       f_write f (list_byte_of_string "ok") ;;; path_unlink_missing_ok marker) w
    with
    | (Ok _, w') => (Ok true, w')
    | (Err e, w') => if is_Exception e then (Ok false, w') else (Err e, w')
    end).
  { intros base. unfold try_except, bind. cbn zeta.
    destruct (open_wb (joinpath base WRITE_TEST) w) as [[f|e] w2]; [|reflexivity].
    destruct (f_write f _ w2) as [[n|e] w3]; [|reflexivity].
    destruct (path_unlink_missing_ok _ w3) as [[[]|e] w4]; reflexivity. }
  destruct (w_fs w !! p) as [[m dd|m]|]; apply Hgen.
Qed.


Lemma fs_wf_b_sound fs : fs_wf_b fs = true -> fs_wf fs.
Proof.
  unfold fs_wf_b, fs_wf. rewrite forallb_forall. intros H q n Hq Hne.
  specialize (H (q, n)). cbn [fst] in H.
  destruct q as [|c q]; [congruence|].
  destruct (fs !! parent (c :: q)) as [[m d|m]|] eqn:E.
  - discriminate H. apply list_elem_of_In, elem_of_map_to_list. assumption.
  - eauto.
  - discriminate H. apply list_elem_of_In, elem_of_map_to_list. assumption.
Qed.

Lemma plain_world_wf w : plain_world w = true -> fs_wf (w_fs w).
Proof.
  unfold plain_world. intros H. rewrite !andb_true_iff in H.
  destruct H as [[[Hfs _] _] _]. unfold plain_fs in Hfs.
  rewrite !andb_true_iff in Hfs. destruct Hfs as [[_ Hwf] _].
  apply fs_wf_b_sound. assumption.
Qed.


Lemma quiet_ret {A} (a : A) : quiet (ret a).
Proof. intros w r w1 [= <- <-]. split; [reflexivity|discriminate]. Qed.

Lemma quiet_raise {A} e : is_Exception e = true -> quiet (@raise A e).
Proof. intros He w r w1 [= <- <-]. split; [reflexivity|]. intros ? [= <-]. assumption. Qed.

Lemma quiet_bind {A B} (c : M A) (k : A -> M B) :
  quiet c -> (forall a, quiet (k a)) -> quiet (bind c k).
Proof.
  intros Hc Hk w r w1. unfold bind. destruct (c w) as [[a|e] w2] eqn:E.
  - intros H. destruct (Hc _ _ _ E) as [Hs _]. destruct (Hk a _ _ _ H) as [Hs' He].
    split; [congruence|assumption].
  - intros [= <- <-]. destruct (Hc _ _ _ E) as [Hs He].
    split; [assumption|]. intros e' [= <-]. apply He. reflexivity.
Qed.

Lemma quiet_py_getitem v k : quiet (py_getitem v k).
Proof.
  destruct v; cbn; try (apply quiet_raise; reflexivity).
  destruct (dict_get k kvs); [apply quiet_ret|apply quiet_raise; reflexivity].
Qed.

Lemma quiet_Path v : quiet (Path v).
Proof. destruct v; cbn; try (apply quiet_raise; reflexivity). apply quiet_ret. Qed.

Lemma quiet_path_stat p : quiet (path_stat p).
Proof.
  intros w r w1. unfold path_stat. destruct (w_fs w !! p); intros [= <- <-];
    (split; [reflexivity|]); [discriminate|]. intros ? [= <-]. reflexivity.
Qed.

Lemma silent_cb_emits (g : Z -> Z -> M unit) :
  (forall c t, g c t = ret tt) -> cb_emits (Some g) (fun _ _ => []).
Proof.
  intros Hg c t w. cbn. rewrite Hg. exists (Ok tt). unfold ret.
  destruct w; cbn. rewrite app_nil_r. reflexivity.
Qed.

Lemma none_cb_emits : cb_emits None (fun _ _ => []).
Proof.
  intros c t w. cbn. exists (Ok tt). unfold ret.
  destruct w; cbn. rewrite app_nil_r. reflexivity.
Qed.

Lemma none_cb_never_raises e : ~ cb_raises None e.
Proof. intros (c & t & w0 & w0' & [=]). Qed.

Lemma quiet_copy_with_progress src dst pm ch cb f :
  cb_emits cb f -> (forall e, ~ cb_raises cb e) ->
  quiet (copy_with_progress sha256 src dst pm ch cb).
Proof.
  intros Hcb Hnr w r w1 H.
  destruct src as [| | | |s| |];
    try (unfold copy_with_progress, bind, Path, ret, raise in H;
         injection H as <- <-; split; [reflexivity|intros ? [= <-]; reflexivity]).
  destruct dst as [| | | |d| |];
    try (unfold copy_with_progress, bind, Path, ret, raise in H;
         injection H as <- <-; split; [reflexivity|intros ? [= <-]; reflexivity]).
  eapply copy_with_progress_spec in H; [|eassumption].
  destruct H as (evs & fs1 & Hev & _ & Herr & _).
  split; [rewrite Hev; reflexivity|].
  intros e He. destruct (Herr e He) as [|Hr]; [assumption|].
  exfalso. eapply Hnr. eassumption.
Qed.

Lemma quiet_sum_sizes items : forall acc, quiet (sum_sizes items acc).
Proof.
  induction items as [|it items IH]; intros acc; cbn [sum_sizes].
  - apply quiet_ret.
  - apply quiet_bind; [apply quiet_py_getitem|]. intros v.
    apply quiet_bind; [apply quiet_Path|]. intros p.
    apply quiet_bind; [apply quiet_path_stat|]. intros st. apply IH.
Qed.

Lemma quiet_batch_loop pm ch tb items : forall idx agg,
  quiet (batch_loop sha256 items idx agg tb pm ch None None).
Proof.
  induction items as [|it items IH]; intros idx agg; cbn [batch_loop].
  - apply quiet_ret.
  - apply quiet_bind; [apply quiet_py_getitem|]. intros s.
    apply quiet_bind; [apply quiet_py_getitem|]. intros d.
    apply quiet_bind.
    { eapply quiet_copy_with_progress.
      - apply silent_cb_emits. reflexivity.
      - intros e (c & t & w0 & w0' & [=]). }
    intros res.
    apply quiet_bind; [apply quiet_Path|]. intros p.
    apply quiet_bind; [apply quiet_path_stat|]. intros st.
    apply quiet_bind; [apply quiet_ret|]. intros _. apply IH.
Qed.

Lemma quiet_copy_batch items pm ch :
  quiet (copy_batch sha256 items pm ch None None).
Proof.
  unfold copy_batch.
  apply quiet_bind.
  { destruct items; cbn; try (apply quiet_raise; reflexivity); apply quiet_ret. }
  intros its. apply quiet_bind; [apply quiet_sum_sizes|]. intros t.
  apply quiet_bind; [apply quiet_batch_loop|]. intros _.
  apply quiet_bind; [|intros; apply quiet_ret].
  destruct items; cbn; try (apply quiet_raise; reflexivity); apply quiet_ret.
Qed.

Lemma quiet_read_manifest args stdin : quiet (read_manifest args stdin).
Proof.
  unfold read_manifest, read_manifest_with. apply quiet_bind.
  - unfold json_load. destruct (json_loads stdin);
      [apply quiet_ret|apply quiet_raise; reflexivity].
  - intros data. destruct data; try (apply quiet_raise; reflexivity). apply quiet_ret.
Qed.

Lemma exit_status_Exception (e : exn) :
  is_Exception e = true -> exit_status (Err e) = 1.
Proof. destruct e; cbn; congruence. Qed.

(** C4.  The exit protocol of the helper as it is written.  It exits
    with status 0 exactly when [main] returns, after printing one
    [{"ok": true, ...}] object.  When SRC or DST is missing without
    [--manifest] it prints [{"ok": false, "error": ...}] and exits with
    status 2.  On every other failure, a failed transfer or an unreadable
    manifest, the exception is not caught: nothing is written to the
    standard output and the status is 1, so the [{"ok": false, ...}]
    object the window decodes is never the answer to a failed transfer. *)
Theorem main_exit_protocol args stdin w :
  let '(r, w1) := main sha256 args stdin w in
  match r with
  | Ok _ =>
      exit_status r = 0 /\
      exists key payload,
        w_stdout w1 =
        String.append (w_stdout w)
          (printed (PDict [("ok", PBool true); (key, payload)]))
  | Err e =>
      exit_status r <> 0 /\
      if negb (a_manifest args) &&
         (arg_missing (a_src args) || arg_missing (a_dst args))
      then exit_status r = 2 /\
           w_stdout w1 =
           String.append (w_stdout w)
             (printed (PDict [("ok", PBool false); ("error", PStr MISSING_ARGS)]))
      else exit_status r = 1 /\ w_stdout w1 = w_stdout w
  end.
Proof.
  unfold main, main_with. fold (read_manifest args stdin).
  destruct (a_manifest args); cbn [negb andb].
  - unfold bind at 1.
    destruct (read_manifest args stdin w) as [[[[items p] h]|e] w2] eqn:E;
      destruct (quiet_read_manifest _ _ _ _ _ E) as [Hs He].
    2: { rewrite exit_status_Exception by auto. repeat split; auto; lia. }
    unfold bind at 1.
    destruct (copy_batch sha256 items p h None None w2) as [[summary|e] w3] eqn:Ec;
      destruct (quiet_copy_batch _ _ _ _ _ _ Ec) as [Hs' He'].
    2: { rewrite exit_status_Exception by auto.
         split; [lia|]. split; [reflexivity|congruence]. }
    unfold print. split; [reflexivity|]. eexists _, _. cbn [w_stdout].
    rewrite Hs', Hs. reflexivity.
  - destruct (arg_missing (a_src args) || arg_missing (a_dst args)).
    + unfold bind, print, raise. cbn [exit_status w_stdout].
      split; [lia|]. split; reflexivity.
    + unfold bind at 1.
      destruct (copy_with_progress _ _ _ _ _ _ w) as [[res|e] w2] eqn:Ec;
        destruct (quiet_copy_with_progress _ _ _ _ _ _ none_cb_emits
                    none_cb_never_raises _ _ _ Ec) as [Hs He].
      2: { rewrite exit_status_Exception by auto. repeat split; auto; lia. }
      unfold print. split; [reflexivity|]. eexists _, _. cbn [w_stdout].
      rewrite Hs. reflexivity.
Qed.

(** C10.  In manifest mode an object without [items] is run as the empty
    batch: whatever [json.load] is, when it returns a dict that has no
    [items], the helper prints
    [{"ok": true, "summary": {"bytes": 0, "count": 0}}] and exits with
    status 0, touching nothing else. *)
Theorem main_manifest_without_items (load : string -> M pyval) args stdin kvs w :
  a_manifest args = true ->
  load stdin w = (Ok (PDict kvs), w) ->
  dict_get "items" kvs = None ->
  main_with sha256 load args stdin w =
  (Ok tt, World (w_fs w) (w_umask w) (w_trace w)
            (String.append (w_stdout w)
               (String.append EMPTY_BATCH_REPLY (String "010" "")))) /\
  exit_status (Ok tt) = 0.
Proof.
  intros Hm Hj Hi. split; [|reflexivity].
  unfold main_with. rewrite Hm. unfold read_manifest_with, bind.
  rewrite Hj, Hi. reflexivity.
Qed.

End Proofs.

(** ** The manifest, and the properties on the example *)

Lemma py_items_wf items : json_wf (py_items items).
Proof.
  unfold py_items. apply json_wf_list. apply Forall_forall.
  intros v Hv. apply list_elem_of_In, in_map_iff in Hv as (it & <- & _).
  unfold py_item. apply json_wf_dict. split.
  - cbn. repeat (constructor; [rewrite ?elem_of_cons, elem_of_nil; intuition discriminate|]).
    constructor.
  - repeat constructor.
Qed.

Lemma manifest_wf items p h : json_wf (manifest items p h).
Proof.
  unfold manifest. apply json_wf_dict. split.
  - cbn. repeat (constructor; [rewrite ?elem_of_cons, elem_of_nil; intuition discriminate|]).
    constructor.
  - repeat constructor. apply py_items_wf.
Qed.

Lemma copy_batch_summary_witness :
  exists s w',
    copy_batch toy_hash (py_items [item_a; item_c]) true true None None example_world
      = (Ok s, w') /\
    s = PDict [("bytes", PInt (total_source_size (w_fs example_world) [item_a; item_c]));
               ("count", PInt (Z.of_nat (List.length [item_a; item_c])))].
Proof.
  eexists _, _. split; [vm_compute; reflexivity|].
  eapply (copy_batch_summary toy_hash [item_a; item_c] true true None None example_world).
  vm_compute. reflexivity.
Defined.

Lemma example_untouched : sources_untouched [item_a; item_c].
Proof.
  intros a b Ha Hb.
  apply elem_of_cons in Ha as [->|Ha]; [|apply elem_of_cons in Ha as [->|Ha]; [|inversion Ha]];
  (apply elem_of_cons in Hb as [->|Hb]; [|apply elem_of_cons in Hb as [->|Hb]; [|inversion Hb]]);
  vm_compute; discriminate.
Qed.


Lemma example_plain : plain_world example_world = true.
Proof. vm_compute. reflexivity. Qed.

Lemma copy_batch_missing_source_witness :
  plain_world example_world = true /\
  plain (src item_b) = true /\
  Forall (fun i => is_Some (w_fs example_world !! Path_of_str (src i))) [item_a] /\
  w_fs example_world !! Path_of_str (src item_b) = None /\
  w_fs example_world !! parent (Path_of_str (src item_b)) = Some (Dir 493) /\
  copy_batch toy_hash (py_items ([item_a] ++ item_b :: [item_c])) true false None None
    example_world =
  (Err (FileNotFoundError (Path_of_str (src item_b))), example_world).
Proof.
  assert (H1 : Forall (fun i => is_Some (w_fs example_world !! Path_of_str (src i)))
                 [item_a]).
  { constructor; [|constructor]. vm_compute. eauto. }
  assert (H2 : w_fs example_world !! Path_of_str (src item_b) = None).
  { vm_compute. reflexivity. }
  assert (H0 : plain (src item_b) = true) by (vm_compute; reflexivity).
  assert (H3 : w_fs example_world !! parent (Path_of_str (src item_b)) = Some (Dir 493))
    by (vm_compute; reflexivity).
  split; [exact example_plain|]. split; [exact H0|].
  split; [exact H1|]. split; [exact H2|]. split; [exact H3|].
  exact (copy_batch_missing_source toy_hash [item_a] item_b [item_c] true false None None
           example_world 493 example_plain H0 H1 H2 H3).
Defined.

(** Scenario C on the example: the batch stops in the size pre-pass, and
    the destination of item 1 does not exist afterwards. *)
Lemma scenario_C_counterexample :
  w_fs example_world !! Path_of_str (src item_b) = None /\
  exists e w',
    copy_batch toy_hash (py_items [item_a; item_b; item_c]) true false None None
      example_world = (Err e, w') /\
    e = FileNotFoundError ["src"; "b"] /\
    ~ (exists n, w_fs w' !! Path_of_str (dst item_a) = Some n).
Proof.
  split; [vm_compute; reflexivity|].
  eexists _, _. split; [vm_compute; reflexivity|]. split; [reflexivity|].
  intros [n Hn]. vm_compute in Hn. discriminate.
Qed.

Lemma copy_with_progress_order_witness :
  no_dotdot (Path_of_str "/src/a") = true /\
  no_dotdot (Path_of_str "/out/x/a") = true /\
  exists r w1,
    copy_with_progress toy_hash (PStr "/src/a") (PStr "/out/x/a") true true
      (option_map item_progress_cb (Some never)) example_world = (r, w1) /\
    let srcp := Path_of_str "/src/a" in
    let dstp := Path_of_str "/out/x/a" in
    exists stream tl,
      w_trace w1 = w_trace example_world ++ stream ++ tl /\
      forallb (fun e => negb (is_chmod_ev e)) stream = true /\
      (tl = [] \/
       exists m0 d0, w_fs example_world !! srcp = Some (File m0 d0) /\
         written dstp stream = (if bool_decide (srcp = dstp) then [] else d0) /\
         tl `prefix_of` tail_events dstp true true (st_mode (stat_of (File m0 d0)))) /\
      (forall res, r = Ok res ->
         exists m0 d0 m1,
           let data := if bool_decide (srcp = dstp) then [] else d0 in
           w_fs example_world !! srcp = Some (File m0 d0) /\
           written dstp stream = data /\
           tl = tail_events dstp true true (st_mode (stat_of (File m0 d0))) /\
           w_fs w1 !! dstp = Some (File m1 data) /\
           (true = true -> m1 = Z.land (st_mode (stat_of (File m0 d0))) PERM_BITS) /\
           res = PDict [("bytes", PInt (Z.of_nat (List.length d0)));
                        ("hash", PStr (digest_of toy_hash BUFFER data));
                        ("dst", PStr (posix_str "/out/x/a"))]).
Proof.
  split; [reflexivity|]. split; [reflexivity|].
  eexists _, _. split; [vm_compute; reflexivity|].
  eapply (copy_with_progress_order toy_hash "/src/a" "/out/x/a" true true (Some never)
            example_world).
  - reflexivity.
  - reflexivity.
  - vm_compute. reflexivity.
Defined.

Lemma example_fs_wf : fs_wf (w_fs example_world).
Proof. apply fs_wf_b_sound. vm_compute. reflexivity. Qed.




Lemma main_manifest_without_items_witness :
  a_manifest manifest_args = true /\
  json_load options_only example_world =
    (Ok (PDict [("calc_hash", PBool true)]), example_world) /\
  dict_get "items" [("calc_hash", PBool true)] = None /\
  main_with toy_hash json_load manifest_args options_only example_world =
  (Ok tt, World (w_fs example_world) (w_umask example_world) (w_trace example_world)
            (String.append (w_stdout example_world)
               (String.append EMPTY_BATCH_REPLY (String "010" "")))) /\
  exit_status (Ok tt) = 0.
Proof.
  assert (H1 : a_manifest manifest_args = true) by reflexivity.
  assert (H2 : json_load options_only example_world =
               (Ok (PDict [("calc_hash", PBool true)]), example_world))
    by (vm_compute; reflexivity).
  assert (H3 : dict_get "items" [("calc_hash", PBool true)] = None) by reflexivity.
  split; [exact H1|]. split; [exact H2|]. split; [exact H3|].
  exact (main_manifest_without_items toy_hash json_load manifest_args _ _ example_world
           H1 H2 H3).
Defined.



(** A failed transfer in manifest mode: nothing is printed. *)
Lemma main_transfer_failure_counterexample :
  exists e w1,
    main toy_hash manifest_args (elevated_input [item_b] true false) example_world
      = (Err e, w1) /\
    exit_status (Err e) <> 0 /\
    ~ (exists msg, w_stdout w1 =
                   String.append (w_stdout example_world)
                     (printed (PDict [("ok", PBool false); ("error", msg)]))).
Proof.
  eexists _, _. split; [vm_compute; reflexivity|].
  split; [vm_compute; discriminate|].
  intros [msg Hmsg]. cbn [w_stdout example_world String.append] in Hmsg.
  unfold printed, json_dumps in Hmsg. rewrite dumps_dict in Hmsg.
  cbn [string_of_list_ascii String.append] in Hmsg. discriminate.
Qed.

(** ** Transfers and batches: frame, partial files, callbacks *)

Section Further.

Variable sha256 : hasher.

Lemma passive_ret evs0 : evs0 = [] -> passive (ret tt) evs0.
Proof.
  intros -> w r w1 [= <- <-]. exists []. split; [apply evolves_refl|].
  split; [done|auto].
Qed.

Lemma cb_emits_passive cb f : cb_emits cb f -> cb_passive cb f.
Proof.
  intros H c t w r w1 E. destruct (H c t w) as [r' E']. rewrite E in E'.
  injection E' as <- ->. exists (f c t). split; [reflexivity|]. split; [done|auto].
Qed.

Lemma grown_refl fs mode p : grown fs fs mode p.
Proof. intros q. left. reflexivity. Qed.

Lemma grown_trans fs fs1 fs2 mode p p' :
  p `prefix_of` p' -> grown fs fs1 mode p -> grown fs1 fs2 mode p' ->
  grown fs fs2 mode p'.
Proof.
  intros Hp H1 H2 q. destruct (H2 q) as [E2|(N2 & D2 & P2 & Q2)];
    destruct (H1 q) as [E1|(N1 & D1 & P1 & Q1)].
  - left. congruence.
  - right. rewrite E2. repeat split; auto. etrans; eassumption.
  - right. rewrite <- E1. auto.
  - congruence.
Qed.

Lemma grown_keeps fs fs1 mode p (q : path) x :
  grown fs fs1 mode p -> fs !! q = Some x -> fs1 !! q = Some x.
Proof.
  intros H Hq. destruct (H q) as [E|(N & _)].
  - rewrite E. assumption.
  - rewrite N in Hq. discriminate.
Qed.

Lemma parent_prefix p : parent p `prefix_of` p.
Proof.
  unfold parent. destruct (decide (p = [])) as [->|Hne]; [done|].
  exists [List.last p ""%string]. apply app_removelast_last. assumption.
Qed.

Lemma parent_length p : p <> [] -> (List.length (parent p) < List.length p)%nat.
Proof.
  intros Hne. rewrite (app_removelast_last ""%string Hne) at 2.
  rewrite length_app. cbn. unfold parent. lia.
Qed.

Lemma parent_nil_iff p : parent p = p <-> p = [].
Proof.
  split; [|intros ->; reflexivity].
  intros E. destruct (decide (p = [])) as [|Hne]; [assumption|].
  pose proof (parent_length p Hne) as H. rewrite E in H. lia.
Qed.

(** A created directory is never the path whose parent is being made. *)
Lemma grown_parent_not_self fs fs1 mode (p : path) :
  grown fs fs1 mode (parent p) -> fs1 !! p = fs !! p.
Proof.
  intros H. destruct (H p) as [E|(_ & _ & Hpre & Hne)]; [assumption|].
  apply prefix_length in Hpre. pose proof (parent_length p Hne). lia.
Qed.

Lemma os_mkdir_inv p mode w r w1 :
  os_mkdir p mode w = (r, w1) ->
  (r = Ok tt /\ w_fs w !! p = None /\ p <> [] /\
   (exists m, w_fs w !! parent p = Some (Dir m) /\ can_write m = true) /\
   w1 = emit (EvMkdir p) (set_fs (<[p := Dir (created_mode mode w)]> (w_fs w)) w)) \/
  (exists e, r = Err e /\ is_OSError e = true /\ w1 = w /\
     (is_FileNotFoundError e = true -> w_fs w !! p = None)).
Proof.
  unfold os_mkdir.
  destruct (w_fs w !! p) as [n|] eqn:Ep.
  - intros [= <- <-]. right. eexists. repeat split; auto. discriminate.
  - destruct (w_fs w !! parent p) as [[m d|m]|] eqn:Epar.
    + intros [= <- <-]. right. eexists. repeat split; auto.
    + destruct (can_write m) eqn:Cw; intros [= <- <-]; [left|right].
      * repeat split; auto.
        -- intros ->. cbn in Epar. congruence.
        -- eauto.
      * eexists. repeat split; auto.
    + intros [= <- <-]. right. eexists. repeat split; auto.
Qed.

Lemma grown_insert fs (p : path) mode :
  fs !! p = None -> p <> [] -> grown fs (<[p := Dir mode]> fs) mode p.
Proof.
  intros Hp Hne q. destruct (decide (q = p)) as [->|Hq].
  - right. rewrite lookup_insert_eq. auto.
  - left. apply lookup_insert_ne. congruence.
Qed.

(** [os.mkdir(p)], falling back on [p.is_dir()] when it fails. *)
Lemma mkdir_or_dir_inv p (e0 : option exn) w r w1 :
  try_except (os_mkdir p MODE_777) is_OSError
    (fun e' => d <- path_is_dir p ;;
               if d then ret tt else raise (default e' e0)) w = (r, w1) ->
  exists evs fs1, evolves w w1 fs1 evs /\ forallb is_mkdir_ev evs = true /\
    grown (w_fs w) fs1 (created_mode MODE_777 w) p /\
    (forall e, r = Err e -> is_OSError e = true \/ e0 = Some e) /\
    (forall u, r = Ok u -> exists m, fs1 !! p = Some (Dir m)).
Proof.
  unfold try_except. destruct (os_mkdir p MODE_777 w) as [r0 w0] eqn:E.
  apply os_mkdir_inv in E as [(-> & Hp & Hne & _ & ->)|(e & -> & He & -> & _)].
  - intros [= <- <-]. eexists [EvMkdir p], _. split; [reflexivity|].
    split; [reflexivity|]. split; [apply grown_insert; assumption|].
    split; [discriminate|]. intros _ _. cbn. rewrite lookup_insert_eq. eauto.
  - rewrite He. unfold bind, path_is_dir, ret, raise.
    destruct (w_fs w !! p) as [[m d|m]|] eqn:Ep; intros [= <- <-];
      exists [], (w_fs w); (split; [apply evolves_refl|]); (split; [reflexivity|]);
      (split; [apply grown_refl|]).
    all: split; [|try discriminate; eauto].
    all: try discriminate.
    all: intros e' [= <-]; destruct e0; cbn; auto.
Qed.

Lemma path_mkdir_grown n : forall p w r w1,
  path_mkdir n p w = (r, w1) ->
  exists evs fs1, evolves w w1 fs1 evs /\
    forallb is_mkdir_ev evs = true /\
    grown (w_fs w) fs1 (created_mode MODE_777 w) p /\
    (forall e, r = Err e -> is_OSError e = true) /\
    (forall u, r = Ok u -> exists m, fs1 !! p = Some (Dir m)).
Proof.
  induction n as [|n IH]; intros p w r w1 H; cbn [path_mkdir] in H;
    unfold try_except in H at 1;
    destruct (os_mkdir p MODE_777 w) as [r0 w0] eqn:E;
    pose proof E as E0;
    apply os_mkdir_inv in E as [(-> & Hp & Hne & _ & ->)|(e & -> & He & -> & Hfn)].
  1,3: injection H as <- <-; eexists [EvMkdir p], _; (split; [reflexivity|]);
       (split; [reflexivity|]); (split; [apply grown_insert; assumption|]);
       (split; [discriminate|]); intros _ _; cbn; rewrite lookup_insert_eq; eauto.
  all: rewrite He in H.
  all: assert (Hdir : forall w r w1,
         (d <- path_is_dir p ;; if d then ret tt else raise e) w = (r, w1) ->
         exists evs fs1, evolves w w1 fs1 evs /\ forallb is_mkdir_ev evs = true /\
           grown (w_fs w) fs1 (created_mode MODE_777 w) p /\
           (forall e', r = Err e' -> is_OSError e' = true) /\
           (forall u, r = Ok u -> exists m, fs1 !! p = Some (Dir m)));
    [clear - He; intros w r w1; unfold bind, path_is_dir, ret, raise;
     destruct (w_fs w !! p) as [[m d|m]|] eqn:Ep; intros [= <- <-];
     exists [], (w_fs w); (split; [apply evolves_refl|]); (split; [reflexivity|]);
     (split; [apply grown_refl|]);
     (split; [intros e' [=]; subst; assumption|try discriminate; eauto])|].
  all: destruct (is_FileNotFoundError e) eqn:Efn; [|apply Hdir; assumption].
  all: assert (Hraise : (r, w1) = (Err e, w) ->
         exists evs fs1, evolves w w1 fs1 evs /\ forallb is_mkdir_ev evs = true /\
           grown (w_fs w) fs1 (created_mode MODE_777 w) p /\
           (forall e', r = Err e' -> is_OSError e' = true) /\
           (forall u, r = Ok u -> exists m, fs1 !! p = Some (Dir m)));
    [intros [= -> ->]; exists [], (w_fs w); (split; [apply evolves_refl|]);
     (split; [reflexivity|]); (split; [apply grown_refl|]);
     (split; [intros e' [= <-]; assumption|discriminate])|].
  - destruct (bool_decide (parent p = p)); unfold raise in H; symmetry in H; auto.
  - destruct (bool_decide (parent p = p)); [unfold raise in H; symmetry in H; auto|].
    unfold bind in H at 1.
    destruct (path_mkdir n (parent p) w) as [[[]|e2] w3] eqn:E2;
      apply IH in E2 as (evs2 & fs2 & Hev2 & Hall2 & Hgr2 & Herr2 & Hok2).
    2: { injection H as <- <-. exists evs2, fs2. split; [assumption|].
         split; [assumption|].
         split; [eapply grown_trans; [apply parent_prefix|eassumption|apply grown_refl]|].
         split; [assumption|discriminate]. }
    change (fun e' : exn => d <- path_is_dir p;; (if d then ret tt else raise e'))
      with (fun e' : exn => d <- path_is_dir p;;
                            (if d then ret tt else raise (default e' None))) in H.
    apply mkdir_or_dir_inv in H as (evs3 & fs3 & Hev3 & Hall3 & Hgr3 & Herr3 & Hok3).
    exists (evs2 ++ evs3), fs3.
    split; [eapply evolves_trans; eassumption|].
    split; [rewrite forallb_app, Hall2, Hall3; reflexivity|].
    split.
    { eapply grown_trans; [apply parent_prefix|eassumption|].
      rewrite (evolves_fs _ _ _ _ Hev2) in Hgr3.
      replace (created_mode MODE_777 w3) with (created_mode MODE_777 w) in Hgr3;
        [assumption|]. rewrite Hev2. reflexivity. }
    split; [|assumption].
    intros e' He'. destruct (Herr3 e' He') as [|[=]]. assumption.
Qed.

Lemma copy_loop_inv dstp f cb total bufs : forall copied w m d0 r w1,
  cb_passive cb f ->
  w_fs w !! dstp = Some (File m d0) ->
  copy_loop bufs (WFile dstp) copied total cb w = (r, w1) ->
  exists k evs,
    evolves w w1 (<[dstp := File m (d0 ++ List.concat (take k bufs))]> (w_fs w)) evs /\
    evs `prefix_of` loop_trace dstp f bufs copied total /\
    (k <= List.length bufs)%nat /\
    (cb_emits cb f -> evs = loop_trace dstp f (take k bufs) copied total) /\
    match r with
    | Ok _ => k = List.length bufs /\ evs = loop_trace dstp f bufs copied total
    | Err e => cb_raises cb e /\ (1 <= k)%nat
    end.
Proof.
  induction bufs as [|buf bufs IH]; intros copied w m d0 r w1 Hcb Hd H.
  - cbn in H. inversion H; subst. exists O, []. cbn.
    rewrite app_nil_r, insert_id by assumption.
    split; [apply evolves_refl|]. split; [done|]. split; [lia|].
    split; [reflexivity|]. split; reflexivity.
  - cbn [copy_loop] in H. unfold bind in H at 1.
    unfold f_write in H. cbn [wf_path] in H. rewrite Hd in H.
    set (w2 := emit _ _) in H.
    unfold bind in H at 1.
    fold (call_cb cb (copied + Z.of_nat (List.length buf)) total) in H.
    destruct (call_cb cb (copied + Z.of_nat (List.length buf)) total w2)
      as [rc w3] eqn:Ec.
    destruct (Hcb _ _ _ _ _ Ec) as (evc & Hevc & Hprec & Hokc).
    assert (Hfs3 : w_fs w3 = <[dstp := File m (d0 ++ buf)]> (w_fs w)).
    { rewrite (evolves_fs _ _ _ _ Hevc). reflexivity. }
    assert (Hev3 : evolves w w3 (<[dstp := File m (d0 ++ buf)]> (w_fs w))
                     (EvWrite dstp buf :: evc)).
    { unfold evolves in *. rewrite Hevc. subst w2. cbn.
      rewrite <- !app_assoc. reflexivity. }
    destruct rc as [[]|e].
    + apply (IH _ w3 m (d0 ++ buf)) in H; [|assumption|rewrite Hfs3; apply lookup_insert_eq].
      destruct H as (k & evs & Hev & Hpre & Hk & Hem & Hr).
      rewrite (Hokc tt eq_refl) in Hev3.
      exists (S k), (EvWrite dstp buf :: f (copied + Z.of_nat (List.length buf)) total ++ evs).
      split.
      { rewrite Hfs3, insert_insert_eq in Hev.
        pose proof (evolves_trans _ _ _ _ _ _ _ Hev3 Hev) as Ht.
        cbn [take List.concat]. rewrite <- app_assoc in Ht. exact Ht. }
      split; [cbn; apply prefix_cons, prefix_app; assumption|].
      split; [cbn; lia|].
      split; [intros He; cbn [take loop_trace]; rewrite (Hem He); reflexivity|].
      destruct r as [u|e]; [destruct Hr as [-> ->]; split; reflexivity|].
      destruct Hr as [Hr Hk1]. split; [assumption|lia].
    + inversion H; subst r w1.
      exists 1%nat, (EvWrite dstp buf :: evc).
      split; [cbn; rewrite app_nil_r; assumption|].
      split.
      { cbn. apply prefix_cons. apply prefix_app_r. assumption. }
      split; [cbn; lia|].
      split; [|split; [|lia]; unfold cb_raises; eauto].
      intros He. cbn [take loop_trace]. rewrite app_nil_r. f_equal.
      destruct (He (copied + Z.of_nat (List.length buf)) total w2) as [r' E'].
      rewrite Ec in E'. injection E' as _ E'. rewrite Hevc in E'.
      injection E' as E'. apply app_inv_head in E'. exact E'.
Qed.

Lemma finish_inv srcp dstp dtxt (pm ch : bool) (tot : Z) w r w1 m1 data ms ds :
  ((if pm
    then st' <- path_stat srcp ;; os_chmod dstp (st_mode st')
    else ret tt) ;;;
   digest <- (if ch then d <- _hash sha256 dstp ;; ret (PStr d) else ret PNone) ;;
   ret (PDict [("bytes", PInt tot); ("hash", digest);
               ("dst", PStr dtxt)])) w = (r, w1) ->
  w_fs w !! dstp = Some (File m1 data) ->
  w_fs w !! srcp = Some (File ms ds) ->
  exists evs m1',
    evolves w w1 (<[dstp := File m1' data]> (w_fs w)) evs /\
    evs `prefix_of` tail_events dstp pm ch (Z.lor S_IFREG ms) /\
    (pm = false -> m1' = m1) /\
    match r with
    | Ok res =>
        evs = tail_events dstp pm ch (Z.lor S_IFREG ms) /\
        (pm = true -> m1' = Z.land (Z.lor S_IFREG ms) PERM_BITS) /\
        res = PDict [("bytes", PInt tot);
                     ("hash", if ch then PStr (digest_of sha256 BUFFER data) else PNone);
                     ("dst", PStr dtxt)]
    | Err e => is_OSError e = true
    end.
Proof.
  intros H Hd Hs.
  assert (Hstage : exists w2 m1',
    (if pm then st' <- path_stat srcp ;; os_chmod dstp (st_mode st') else ret tt) w
      = (Ok tt, w2) /\
    evolves w w2 (<[dstp := File m1' data]> (w_fs w))
      (if pm then [EvChmod dstp (Z.lor S_IFREG ms)] else []) /\
    (pm = false -> m1' = m1) /\
    (pm = true -> m1' = Z.land (Z.lor S_IFREG ms) PERM_BITS)).
  { destruct pm.
    - unfold bind, path_stat. rewrite Hs. cbn [stat_of st_mode].
      unfold os_chmod. rewrite Hd.
      eexists _, _. split; [reflexivity|]. split; [reflexivity|]. split; [discriminate|auto].
    - exists w, m1. split; [reflexivity|].
      rewrite insert_id by assumption. split; [apply evolves_refl|]. split; [auto|].
      discriminate. }
  destruct Hstage as (w2 & m1' & Hc & Hev2 & Hm1 & Hm1').
  unfold bind in H at 1. rewrite Hc in H.
  pose proof (evolves_fs _ _ _ _ Hev2) as Hfs2.
  destruct ch.
  - unfold bind in H at 1 2. destruct (_hash sha256 dstp w2) as [rh w3] eqn:Eh.
    apply hash_spec in Eh as [(m & dd & Hp & -> & ->)|(e & -> & He & ->)].
    + rewrite Hfs2, lookup_insert_eq in Hp. injection Hp as <- <-.
      unfold ret in H. injection H as <- <-.
      exists ((if pm then [EvChmod dstp (Z.lor S_IFREG ms)] else []) ++ [EvOpenR dstp]), m1'.
      split.
      { eapply evolves_trans; [eassumption|]. unfold evolves, emit. cbn.
        rewrite Hfs2. reflexivity. }
      split; [reflexivity|]. split; [assumption|]. repeat split; auto.
    + injection H as <- <-.
      exists (if pm then [EvChmod dstp (Z.lor S_IFREG ms)] else []), m1'.
      split; [assumption|]. split; [apply prefix_app_r; reflexivity|].
      split; assumption.
  - rewrite bind_ret in H. unfold ret in H. injection H as <- <-.
    exists (if pm then [EvChmod dstp (Z.lor S_IFREG ms)] else []), m1'.
    split; [assumption|].
    unfold tail_events. rewrite app_nil_r.
    split; [reflexivity|]. split; [assumption|]. repeat split; auto.
Qed.

(** The shape of every run of [copy_with_progress] with a passive
    callback: directories are made, then either an [OSError] stops the
    transfer before the destination is opened, or the destination is
    opened and holds a whole number of leading blocks of the source. *)
Lemma copy_with_progress_inv s d pm ch cb f w r w1 :
  cb_passive cb f ->
  copy_with_progress sha256 (PStr s) (PStr d) pm ch cb w = (r, w1) ->
  let srcp := Path_of_str s in
  let dstp := Path_of_str d in
  exists mk fs0,
    forallb is_mkdir_ev mk = true /\
    grown (w_fs w) fs0 (created_mode MODE_777 w) (parent dstp) /\
    ((exists e evo, r = Err e /\ is_OSError e = true /\
        (evo = [] \/ evo = [EvOpenR srcp]) /\
        evolves w w1 fs0 (mk ++ evo)) \/
     (exists m0 d0 m1 k evl tl,
        let data := if bool_decide (srcp = dstp) then [] else d0 in
        let bufs := blocks BUFFER data in
        let total := Z.of_nat (List.length d0) in
        w_fs w !! srcp = Some (File m0 d0) /\ can_read m0 = true /\
        (exists md, fs0 !! parent dstp = Some (Dir md)) /\
        (forall m, fs0 !! dstp <> Some (Dir m)) /\
        evolves w w1 (<[dstp := File m1 (List.concat (take k bufs))]> fs0)
          (mk ++ [EvOpenR srcp; EvOpenW dstp] ++ evl ++ tl) /\
        evl `prefix_of` loop_trace dstp f bufs 0 total /\
        (k <= List.length bufs)%nat /\
        (cb_emits cb f -> evl = loop_trace dstp f (take k bufs) 0 total) /\
        tl `prefix_of` tail_events dstp pm ch (Z.lor S_IFREG m0) /\
        (pm = false ->
         m1 = match fs0 !! dstp with
              | Some (File m _) => m
              | _ => created_mode MODE_666 w
              end) /\
        match r with
        | Ok res =>
            k = List.length bufs /\ evl = loop_trace dstp f bufs 0 total /\
            tl = tail_events dstp pm ch (Z.lor S_IFREG m0) /\
            (pm = true -> m1 = Z.land (Z.lor S_IFREG m0) PERM_BITS) /\
            res = PDict [("bytes", PInt total);
                         ("hash", if ch then PStr (digest_of sha256 BUFFER data)
                                  else PNone);
                         ("dst", PStr (posix_str d))]
        | Err e =>
            (cb_raises cb e /\ tl = [] /\ (1 <= k)%nat) \/
            (is_OSError e = true /\ k = List.length bufs /\
             evl = loop_trace dstp f bufs 0 total)
        end)).
Proof.
  intros Hcb H srcp dstp.
  unfold copy_with_progress in H. cbn [Path str_Path] in H. rewrite !bind_ret in H.
  fold srcp dstp in H.
  unfold bind in H at 1. unfold path_stat in H at 1.
  destruct (w_fs w !! srcp) as [n0|] eqn:Esrc.
  2: { injection H as <- <-. exists [], (w_fs w). split; [reflexivity|].
       split; [apply grown_refl|]. left. eexists _, []. split; [reflexivity|].
       split; [reflexivity|]. split; [auto|]. apply evolves_refl. }
  unfold bind in H at 1. unfold path_mkdir_parents in H.
  destruct (path_mkdir _ (parent dstp) w) as [[[]|e] w2] eqn:Emk;
    apply path_mkdir_grown in Emk as (mk & fs2 & Hev2 & Hmk & Hgr & Herr2 & Hok2).
  2: { injection H as <- <-. exists mk, fs2. split; [assumption|].
       split; [assumption|]. left. eexists _, []. split; [reflexivity|].
       split; [auto|]. split; [auto|]. rewrite app_nil_r. assumption. }
  destruct (Hok2 tt eq_refl) as [md Hmd].
  pose proof (evolves_fs _ _ _ _ Hev2) as Hfs2.
  assert (Hum2 : w_umask w2 = w_umask w) by (rewrite Hev2; reflexivity).
  exists mk, fs2. split; [assumption|]. split; [assumption|].
  unfold bind in H at 1.
  destruct (open_rb srcp w2) as [rr w3] eqn:Eor.
  apply open_rb_spec in Eor as [(m0 & d0 & Hs2 & Hcr & -> & ->)|(e & -> & He & ->)].
  2: { injection H as <- <-. left. eexists _, []. split; [reflexivity|].
       split; [assumption|]. split; [auto|]. rewrite app_nil_r. assumption. }
  rewrite Hfs2 in Hs2. pose proof (grown_keeps _ _ _ _ _ _ Hgr Esrc) as Hs2'.
  rewrite Hs2 in Hs2'. injection Hs2' as <-.
  unfold bind in H at 1.
  destruct (open_wb dstp (emit (EvOpenR srcp) w2)) as [rw w4] eqn:Eow.
  pose proof Eow as Eow'.
  apply open_wb_spec in Eow as [(m1 & -> & -> & Hm1)|(e & -> & He & ->)].
  2: { injection H as <- <-. left. eexists _, [EvOpenR srcp]. split; [reflexivity|].
       split; [assumption|]. split; [auto|].
       eapply evolves_trans; [eassumption|].
       unfold evolves, emit; cbn; rewrite Hfs2; reflexivity. }
  assert (Hm1' : m1 = match fs2 !! dstp with
                      | Some (File m _) => m
                      | _ => created_mode MODE_666 w
                      end).
  { clear H. unfold open_wb in Eow'. cbn [w_fs emit] in Eow'. rewrite Hfs2 in Eow'.
    destruct (fs2 !! dstp) as [[m dd|m]|] eqn:Ed.
    - destruct (can_write m); [|discriminate]. injection Eow' as Hi.
      apply (f_equal (fun g => g !! dstp)) in Hi. rewrite !lookup_insert_eq in Hi.
      congruence.
    - discriminate.
    - destruct (fs2 !! parent dstp) as [[? ?|m]|]; try discriminate.
      destruct (can_write m); [|discriminate]. injection Eow' as Hi.
      apply (f_equal (fun g => g !! dstp)) in Hi. rewrite !lookup_insert_eq in Hi.
      unfold created_mode in *. cbn [w_umask emit] in Hi. rewrite Hum2 in Hi.
      congruence. }
  assert (Hnd : forall m, fs2 !! dstp <> Some (Dir m)).
  { intros m Hm. unfold open_wb in Eow'. cbn [w_fs emit] in Eow'.
    rewrite Hfs2, Hm in Eow'. discriminate. }
  clear Eow'.
  right.
  unfold bind in H at 1. rewrite read_blocks_spec in H.
  cbn [w_fs emit set_fs] in H. rewrite Hfs2 in H.
  set (data := if bool_decide (srcp = dstp) then [] else d0).
  assert (Hbufs : match <[dstp:=File m1 []]> fs2 !! srcp with
                  | Some (File _ d1) => blocks BUFFER d1
                  | _ => []
                  end = blocks BUFFER data).
  { subst data. case_bool_decide as Hsd.
    - rewrite Hsd, lookup_insert_eq. reflexivity.
    - rewrite lookup_insert_ne by congruence. rewrite Hs2. reflexivity. }
  rewrite Hbufs in H. clear Hbufs.
  set (w4 := emit (EvOpenW dstp) _) in H.
  assert (Hev4 : evolves w w4 (<[dstp:=File m1 []]> fs2) (mk ++ [EvOpenR srcp; EvOpenW dstp])).
  { eapply evolves_trans; [eassumption|]. subst w4. unfold evolves, emit, set_fs. cbn.
    rewrite <- app_assoc. reflexivity. }
  assert (Hd4 : w_fs w4 !! dstp = Some (File m1 [])).
  { subst w4. cbn. apply lookup_insert_eq. }
  assert (Hm0 : srcp = dstp -> m1 = m0).
  { intros E. apply (Hm1 m0 d0). cbn. rewrite Hfs2, <- E. assumption. }
  clearbody w4.
  unfold bind in H at 1.
  destruct (copy_loop _ _ _ _ _ w4) as [rl w5] eqn:El.
  eapply copy_loop_inv in El as (k & evl & Hev5 & Hpre & Hk & Hem & Hrl); [|eassumption..].
  rewrite (evolves_fs _ _ _ _ Hev4), insert_insert_eq in Hev5. cbn [app] in Hev5.
  pose proof (evolves_trans _ _ _ _ _ _ _ Hev4 Hev5) as Hev5'.
  destruct rl as [[]|e].
  2: { injection H as <- <-. destruct Hrl as [Hraise Hk1].
       exists m0, d0, m1, k, evl, []. cbn zeta. fold data.
       split; [reflexivity|]. split; [assumption|]. split; [eauto|].
       split; [assumption|].
       split; [rewrite app_nil_r, <- app_assoc in *; exact Hev5'|].
       split; [assumption|]. split; [assumption|]. split; [assumption|].
       split; [apply prefix_nil|].
       split; [auto|]. left. auto. }
  destruct Hrl as [-> ->].
  rewrite firstn_all, concat_blocks in Hev5, Hev5'.
  pose proof (evolves_fs _ _ _ _ Hev5) as Hfs5.
  assert (Hs5 : w_fs w5 !! srcp = Some (File m0 data)).
  { rewrite Hfs5. subst data. case_bool_decide as Hsd.
    - rewrite Hsd, lookup_insert_eq. rewrite (Hm0 Hsd). reflexivity.
    - rewrite lookup_insert_ne by congruence. assumption. }
  eapply finish_inv in H as (evt & m1' & Hev6 & Hpt & Hpm & Hr);
    [|rewrite Hfs5; apply lookup_insert_eq|eassumption].
  rewrite Hfs5, insert_insert_eq in Hev6.
  pose proof (evolves_trans _ _ _ _ _ _ _ Hev5' Hev6) as Hev6'.
  exists m0, d0, m1', (List.length (blocks BUFFER data)),
    (loop_trace dstp f (blocks BUFFER data) 0 (st_size (stat_of (File m0 d0)))), evt.
  cbn zeta. fold data.
  split; [reflexivity|]. split; [assumption|]. split; [eauto|].
  split; [assumption|].
  split.
  { rewrite firstn_all, concat_blocks. rewrite <- !app_assoc in Hev6'. exact Hev6'. }
  split; [reflexivity|]. split; [lia|].
  split; [intros _; rewrite firstn_all; reflexivity|]. split; [assumption|].
  split; [intros E; rewrite (Hpm E); assumption|].
  destruct r as [res|e].
  - destruct Hr as (-> & Hpm' & ->). repeat split; auto.
  - right. repeat split; auto.
Qed.

(** *** Single transfers *)

Lemma and_perm_bits m : Z.land (Z.lor S_IFREG m) PERM_BITS = Z.land m PERM_BITS.
Proof.
  rewrite Z.land_lor_distr_l.
  change (Z.land S_IFREG PERM_BITS) with 0. apply Z.lor_0_l.
Qed.

Lemma can_read_perm_bits m : can_read (Z.land m PERM_BITS) = can_read m.
Proof.
  unfold can_read. rewrite Z.land_spec.
  change (Z.testbit PERM_BITS 8) with true. apply andb_true_r.
Qed.


Lemma copied_step_quiet evs : forall acc,
  item_progress_calls evs = [] -> fold_left copied_step evs acc = acc.
Proof.
  induction evs as [|e evs IH]; intros acc H; [reflexivity|].
  destruct e; cbn in H |- *; try discriminate; apply IH; assumption.
Qed.

Lemma item_progress_calls_app a b :
  item_progress_calls (a ++ b) = item_progress_calls a ++ item_progress_calls b.
Proof. apply flat_map_app. Qed.

Lemma calls_mkdir mk : forallb is_mkdir_ev mk = true -> item_progress_calls mk = [].
Proof.
  induction mk as [|e mk IH]; [reflexivity|]. cbn.
  destruct e; cbn; try discriminate. assumption.
Qed.

Lemma calls_tail dstp pm ch mode evs :
  evs `prefix_of` tail_events dstp pm ch mode -> item_progress_calls evs = [].
Proof.
  intros [rest Hrest]. unfold tail_events in Hrest.
  destruct pm, ch; cbn in Hrest;
    repeat (destruct evs as [|? evs]; [reflexivity|injection Hrest as <- Hrest]);
    destruct evs; try discriminate; reflexivity.
Qed.

Lemma last_copied_loop_trace dstp h bufs : forall c t acc,
  fold_left copied_step (loop_trace dstp (item_events (Some h)) bufs c t) acc =
  match bufs with
  | [] => acc
  | _ => c + Z.of_nat (List.length (List.concat bufs))
  end.
Proof.
  induction bufs as [|buf bufs IH]; intros c t acc; [reflexivity|].
  cbn [loop_trace item_events app fold_left copied_step]. rewrite IH.
  cbn [List.concat]. rewrite length_app, Nat2Z.inj_add.
  destruct bufs; cbn; lia.
Qed.

Lemma concat_take_prefix {A} k (l : list (list A)) :
  List.concat (take k l) = take (List.length (List.concat (take k l))) (List.concat l).
Proof.
  rewrite <- (take_drop k l) at 3. rewrite concat_app.
  rewrite take_app_length. reflexivity.
Qed.

Lemma not_openw_setup dstp mk evo srcp :
  forallb is_mkdir_ev mk = true -> evo = [] \/ evo = [EvOpenR srcp] ->
  EvOpenW dstp ∉ mk ++ evo.
Proof.
  intros Hmk Hevo Hin. apply elem_of_app in Hin as [Hin|Hin].
  - apply list_elem_of_In in Hin. rewrite forallb_forall in Hmk.
    specialize (Hmk _ Hin). discriminate.
  - destruct Hevo as [-> | ->]; [inversion Hin|].
    apply elem_of_cons in Hin as [Hin|Hin]; [discriminate|inversion Hin].
Qed.


Lemma path_mkdir_exists n (q : path) w md :
  w_fs w !! q = Some (Dir md) -> path_mkdir n q w = (Ok tt, w).
Proof.
  intros H. destruct n; cbn [path_mkdir]; unfold try_except, os_mkdir; rewrite H;
    cbn [is_OSError is_FileNotFoundError]; unfold bind, path_is_dir; rewrite H;
    reflexivity.
Qed.

Lemma hash_file (p : path) w m d :
  w_fs w !! p = Some (File m d) -> can_read m = true ->
  _hash sha256 p w = (Ok (digest_of sha256 BUFFER d), emit (EvOpenR p) w).
Proof.
  intros Hp Hr. unfold _hash, bind, open_rb. rewrite Hp, Hr.
  rewrite read_blocks_spec. cbn [w_fs emit]. rewrite Hp. reflexivity.
Qed.

Lemma finish_succeeds srcp dstp dtxt (pm ch : bool) (tot : Z) w m1 data ms ds :
  w_fs w !! dstp = Some (File m1 data) ->
  w_fs w !! srcp = Some (File ms ds) ->
  (ch = true -> can_read (if pm then Z.land ms PERM_BITS else m1) = true) ->
  ((if pm
    then st' <- path_stat srcp ;; os_chmod dstp (st_mode st')
    else ret tt) ;;;
   digest <- (if ch then d <- _hash sha256 dstp ;; ret (PStr d) else ret PNone) ;;
   ret (PDict [("bytes", PInt tot); ("hash", digest);
               ("dst", PStr dtxt)])) w =
  (Ok (PDict [("bytes", PInt tot);
              ("hash", if ch then PStr (digest_of sha256 BUFFER data) else PNone);
              ("dst", PStr dtxt)]),
   World (<[dstp := File (if pm then Z.land ms PERM_BITS else m1) data]> (w_fs w))
     (w_umask w) (w_trace w ++ tail_events dstp pm ch (Z.lor S_IFREG ms))
     (w_stdout w)).
Proof.
  intros Hd Hs Hch.
  destruct pm.
  - unfold bind at 1. unfold bind at 1. unfold path_stat. rewrite Hs.
    cbn [stat_of st_mode]. unfold os_chmod. rewrite Hd.
    rewrite and_perm_bits.
    destruct ch.
    + unfold bind at 1. unfold bind at 1.
      erewrite hash_file;
        [|cbn [w_fs emit set_fs]; apply lookup_insert_eq|exact (Hch eq_refl)].
      unfold ret, emit, set_fs, tail_events. cbn. rewrite <- app_assoc. reflexivity.
    + rewrite bind_ret. unfold ret, emit, set_fs, tail_events. cbn. reflexivity.
  - rewrite bind_ret. rewrite (insert_id (w_fs w)) by assumption.
    destruct ch.
    + unfold bind at 1. unfold bind at 1.
      erewrite hash_file; [|exact Hd|exact (Hch eq_refl)].
      unfold ret, emit, tail_events. cbn. reflexivity.
    + rewrite bind_ret. unfold ret, tail_events. cbn. rewrite app_nil_r.
      destruct w; reflexivity.
Qed.


(** In a plain world and for plain path strings: when the source is
    missing, is a directory or cannot be read, the transfer raises an
    [OSError] and the destination is not touched: it is neither created
    nor truncated, the source being opened first.  A source missing from
    an existing directory is detected before anything is done at all, and
    the error is the [FileNotFoundError] of its path. *)
Theorem copy_with_progress_bad_source s d pm ch cb w r w1 :
  plain_world w = true -> plain s = true -> plain d = true ->
  (forall m d0, w_fs w !! Path_of_str s = Some (File m d0) -> can_read m = false) ->
  copy_with_progress sha256 (PStr s) (PStr d) pm ch cb w = (r, w1) ->
  (exists e, r = Err e /\ is_OSError e = true) /\
  w_fs w1 !! Path_of_str d = w_fs w !! Path_of_str d /\
  (w_fs w !! Path_of_str s = None ->
   (exists m, w_fs w !! parent (Path_of_str s) = Some (Dir m)) ->
   r = Err (FileNotFoundError (Path_of_str s)) /\ w1 = w).
Proof.
  intros _ _ _ Hbad H.
  unfold copy_with_progress in H. cbn [Path str_Path] in H. rewrite !bind_ret in H.
  set (srcp := Path_of_str s) in *. set (dstp := Path_of_str d) in *.
  unfold bind in H at 1. unfold path_stat in H at 1.
  destruct (w_fs w !! srcp) as [n0|] eqn:Esrc.
  2: { injection H as <- <-. split; [eauto|]. split; [reflexivity|auto]. }
  split; [|split; [|intros Hx; discriminate Hx]].
  all: unfold bind in H at 1; unfold path_mkdir_parents in H;
    destruct (path_mkdir _ (parent dstp) w) as [[[]|e] w2] eqn:Emk;
    apply path_mkdir_grown in Emk as (mk & fs2 & Hev2 & Hmk & Hgr & Herr2 & Hok2);
    pose proof (evolves_fs _ _ _ _ Hev2) as Hfs2.
  2: { injection H as <- <-. eauto. }
  3: { injection H as <- <-. rewrite Hfs2. apply (grown_parent_not_self _ _ _ _ Hgr). }
  all: unfold bind in H at 1; destruct (open_rb srcp w2) as [rr w3] eqn:Eor;
    apply open_rb_spec in Eor as [(m0 & d0 & Hs2 & Hcr & -> & ->)|(e & -> & He & ->)].
  1,3: exfalso; rewrite Hfs2, (grown_keeps _ _ _ _ _ _ Hgr Esrc) in Hs2;
       injection Hs2 as ->; rewrite (Hbad _ _ eq_refl) in Hcr; discriminate.
  - injection H as <- <-. eauto.
  - injection H as <- <-. rewrite Hfs2. apply (grown_parent_not_self _ _ _ _ Hgr).
Qed.

Lemma copy_with_progress_ok s d pm ch cb f w m0 d0 md :
  let srcp := Path_of_str s in
  let dstp := Path_of_str d in
  cb_passive cb f -> (forall e, ~ cb_raises cb e) ->
  srcp <> dstp ->
  w_fs w !! srcp = Some (File m0 d0) -> can_read m0 = true ->
  w_fs w !! parent dstp = Some (Dir md) -> can_write md = true ->
  (w_fs w !! dstp = None \/
   exists m d1, w_fs w !! dstp = Some (File m d1) /\ can_write m = true) ->
  (ch = true -> pm = false -> can_read (opened_mode w dstp) = true) ->
  exists w1,
    copy_with_progress sha256 (PStr s) (PStr d) pm ch cb w =
    (Ok (PDict [("bytes", PInt (Z.of_nat (List.length d0)));
                ("hash", if ch then PStr (digest_of sha256 BUFFER d0) else PNone);
                ("dst", PStr (posix_str d))]), w1) /\
    w_fs w1 =
    <[dstp := File (if pm then Z.land m0 PERM_BITS else opened_mode w dstp) d0]>
      (w_fs w) /\
    w_umask w1 = w_umask w /\ w_stdout w1 = w_stdout w.
Proof.
  intros srcp dstp Hcb Hnr Hne Hs Hcr Hpar Hcw Hdst Hch.
  unfold copy_with_progress. cbn [Path str_Path]. rewrite !bind_ret. fold srcp dstp.
  unfold bind at 1. unfold path_stat at 1. rewrite Hs.
  unfold bind at 1. unfold path_mkdir_parents. rewrite (path_mkdir_exists _ _ _ _ Hpar).
  unfold bind at 1. unfold open_rb. rewrite Hs, Hcr.
  unfold bind at 1.
  assert (Hopen : open_wb dstp (emit (EvOpenR srcp) w) =
            (Ok (WFile dstp),
             emit (EvOpenW dstp)
               (set_fs (<[dstp := File (opened_mode w dstp) []]> (w_fs w))
                  (emit (EvOpenR srcp) w)))).
  { unfold open_wb, opened_mode. cbn [w_fs emit].
    destruct Hdst as [Hd|(m & d1 & Hd & Hw)]; rewrite Hd.
    - rewrite Hpar, Hcw. reflexivity.
    - rewrite Hw. reflexivity. }
  rewrite Hopen. clear Hopen.
  set (w4 := emit (EvOpenW dstp) _).
  unfold bind at 1. rewrite read_blocks_spec.
  assert (Hs4 : w_fs w4 !! srcp = Some (File m0 d0)).
  { subst w4. cbn [w_fs emit set_fs]. rewrite lookup_insert_ne by congruence. exact Hs. }
  rewrite Hs4.
  unfold bind at 1.
  destruct (copy_loop (blocks BUFFER d0) (WFile dstp) 0 (st_size (stat_of (File m0 d0)))
              cb w4) as [rl w5] eqn:El.
  eapply copy_loop_inv in El as (k & evl & Hev5 & _ & _ & _ & Hrl);
    [|eassumption|subst w4; cbn; apply lookup_insert_eq].
  destruct rl as [[]|e]; [|destruct Hrl as [Hr _]; exfalso; eapply Hnr; eassumption].
  destruct Hrl as [-> _]. rewrite firstn_all, concat_blocks in Hev5.
  pose proof (evolves_fs _ _ _ _ Hev5) as Hfs5.
  subst w4. cbn [w_fs emit set_fs] in Hev5, Hfs5. rewrite insert_insert_eq in Hev5, Hfs5.
  cbn [app] in Hfs5.
  erewrite finish_succeeds.
  - eexists. split; [reflexivity|]. cbn [w_fs w_umask w_stdout].
    rewrite Hfs5, insert_insert_eq. split; [reflexivity|].
    rewrite Hev5. split; reflexivity.
  - rewrite Hfs5. apply lookup_insert_eq.
  - rewrite Hfs5, lookup_insert_ne by congruence. eassumption.
  - intros Ec. destruct pm; [rewrite can_read_perm_bits; assumption|auto].
Qed.


Lemma ceil_div_zero B : 0 < B -> (0 + B - 1) / B = 0.
Proof. intros. apply Z.div_small. lia. Qed.

Lemma ceil_div_small B n : 0 < B -> 0 < n -> n < B -> (n + B - 1) / B = 1.
Proof.
  intros. replace (n + B - 1) with ((n - 1) + 1 * B) by lia.
  rewrite Z.div_add by lia. rewrite Z.div_small by lia. reflexivity.
Qed.

Lemma ceil_div_step B n : 0 < B -> B <= n -> (n + B - 1) / B = (n - B + B - 1) / B + 1.
Proof.
  intros. replace (n + B - 1) with ((n - B + B - 1) + 1 * B) by lia.
  rewrite Z.div_add by lia. reflexivity.
Qed.

Lemma ceil_div_nonneg B n : 0 < B -> 0 <= n -> 0 <= (n + B - 1) / B.
Proof. intros. apply Z.div_pos; lia. Qed.

Lemma calls_blocks_upto dstp h B : 0 < B -> forall fuel l c t,
  (List.length l <= fuel)%nat ->
  item_progress_calls (loop_trace dstp (item_events (Some h)) (blocks_upto fuel B l) c t) =
  List.map (fun i => (c + Z.min (Z.of_nat i * B) (Z.of_nat (List.length l)), t))
    (seq 1 (Z.to_nat ((Z.of_nat (List.length l) + B - 1) / B))).
Proof.
  intros HB. induction fuel as [|fuel IH]; intros l c t Hl.
  - destruct l; [|cbn in Hl; lia]. cbn [List.length blocks_upto loop_trace].
    change (Z.of_nat 0) with 0. rewrite ceil_div_zero by assumption. reflexivity.
  - cbn [blocks_upto]. destruct l as [|b l'].
    + cbn [take_z List.length loop_trace].
      change (Z.of_nat 0) with 0. rewrite ceil_div_zero by assumption. reflexivity.
    + set (l := b :: l') in *. rewrite take_z_take.
      assert (Hbuf : exists buf, take (Z.to_nat B) l = b :: buf).
      { subst l. destruct (Z.to_nat B) eqn:E; [lia|]. cbn. eauto. }
      destruct Hbuf as [buf Ebuf]. rewrite Ebuf. rewrite <- Ebuf.
      set (bufl := take (Z.to_nat B) l) in *.
      assert (Hlen : Z.of_nat (List.length bufl) = Z.min B (Z.of_nat (List.length l))).
      { subst bufl. rewrite length_take. lia. }
      cbn [loop_trace item_events].
      change (item_progress_calls (EvWrite dstp bufl :: ?x ++ ?y))
        with (item_progress_calls (x ++ y)).
      cbn [app]. 
      change (item_progress_calls (EvItemProgress ?a ?b :: ?y))
        with ((a, b) :: item_progress_calls y).
      rewrite IH by (rewrite length_drop; subst l; cbn [List.length] in *; 
                     assert (0 < List.length bufl)%nat by (rewrite Ebuf; cbn; lia); lia).
      rewrite length_drop.
      assert (Hl0 : 0 < Z.of_nat (List.length l)) by (subst l; cbn [List.length]; lia).
      destruct (Z.lt_ge_cases (Z.of_nat (List.length l)) B) as [Hsmall|Hbig].
      * rewrite (ceil_div_small B (Z.of_nat (List.length l))) by lia.
        replace (Z.of_nat (List.length l - List.length bufl)) with 0 by lia.
        rewrite ceil_div_zero by assumption.
        change (Z.to_nat 1) with 1%nat. change (Z.to_nat 0) with 0%nat.
        cbn [seq List.map]. f_equal. f_equal. lia.
      * rewrite (ceil_div_step B (Z.of_nat (List.length l))) by lia.
        rewrite Z2Nat.inj_add by (try apply ceil_div_nonneg; lia).
        change (Z.to_nat 1) with 1%nat. rewrite Nat.add_comm. cbn [Nat.add seq List.map].
        f_equal; [f_equal; lia|].
        replace (Z.of_nat (List.length l - List.length bufl))
          with (Z.of_nat (List.length l) - B) by lia.
        rewrite <- (seq_shift _ 1), List.map_map.
        apply List.map_ext_in. intros i Hi. f_equal. lia.
Qed.


(** *** Batches *)

Lemma file_done_events_app a b :
  file_done_events (a ++ b) = file_done_events a ++ file_done_events b.
Proof. apply List.filter_app. Qed.

Lemma fde_mkdir mk : forallb is_mkdir_ev mk = true -> file_done_events mk = [].
Proof.
  induction mk as [|e mk IH]; [reflexivity|]. cbn.
  destruct e; cbn; try discriminate. assumption.
Qed.

Lemma fde_prefix a b : a `prefix_of` b -> file_done_events b = [] -> file_done_events a = [].
Proof.
  intros [rest ->]. rewrite file_done_events_app. intros H.
  apply app_eq_nil in H. tauto.
Qed.

Lemma fde_tail dstp pm ch mode evs :
  evs `prefix_of` tail_events dstp pm ch mode -> file_done_events evs = [].
Proof.
  intros H. apply (fde_prefix _ _ H). unfold tail_events. destruct pm, ch; reflexivity.
Qed.

Lemma fde_loop dstp f bufs : forall c t,
  (forall c t, file_done_events (f c t) = []) ->
  file_done_events (loop_trace dstp f bufs c t) = [].
Proof.
  induction bufs as [|buf bufs IH]; intros c t Hf; [reflexivity|].
  cbn [loop_trace].
  change (file_done_events (EvWrite dstp buf :: ?l)) with (file_done_events l).
  rewrite file_done_events_app, Hf, IH by assumption. reflexivity.
Qed.

Lemma inner_cb_passive pcb g agg tb idx s :
  pcb_passive pcb g ->
  cb_passive
    (Some (fun copied total : Z =>
             match pcb with
             | Some cb => p <- Path (PStr s) ;; cb (agg + copied) tb idx (name p)
             | None => ret tt
             end))
    (fun c _ => g (agg + c) tb idx (name (Path_of_str s))).
Proof.
  intros H c t. specialize (H (agg + c) tb idx (name (Path_of_str s))).
  destruct pcb; exact H.
Qed.

Lemma done_reports_eq fs fs' ch items : forall idx,
  Forall (fun it => item_result sha256 fs' ch it = item_result sha256 fs ch it) items ->
  done_reports sha256 fs' ch idx items = done_reports sha256 fs ch idx items.
Proof.
  induction items as [|it items IH]; intros idx H; [reflexivity|].
  apply Forall_cons in H as [H1 H2]. cbn [done_reports].
  rewrite H1, IH by assumption. reflexivity.
Qed.

Lemma elem_of_take_elem {A} (x : A) k l : x ∈ take k l -> x ∈ l.
Proof.
  revert k. induction l as [|y l IH]; intros [|k] H; cbn in H; try (inversion H; fail).
  apply elem_of_cons in H as [->|H]; [left|right; eauto].
Qed.

Lemma untouched_tail it items :
  sources_untouched (it :: items) -> sources_untouched items.
Proof. intros H a b Ha Hb. apply H; right; assumption. Qed.

Lemma batch_loop_inv tb pm ch pcb g hf items : forall idx agg w r w1,
  pcb_passive pcb g ->
  batch_loop sha256 (List.map py_item items) idx agg tb pm ch pcb
    (option_map batch_file_done_cb hf) w = (r, w1) ->
  exists evs k, evolves w w1 (w_fs w1) evs /\
    (forall (q : path) x, (forall it, it ∈ items -> q <> Path_of_str (dst it)) ->
       w_fs w !! q = Some x -> w_fs w1 !! q = Some x) /\
    (k <= List.length items)%nat /\
    (sources_untouched items -> dsts_distinct items ->
       Forall (in_place (w_fs w) (w_fs w1) pm) (take k items)) /\
    (sources_untouched items ->
     (forall a t i n, file_done_events (g a t i n) = []) ->
       file_done_events evs =
       match hf with
       | Some _ => done_reports sha256 (w_fs w) ch idx (take k items)
       | None => []
       end) /\
    (forall u, r = Ok u -> k = List.length items) /\
    (forall e, r = Err e -> batch_error pcb hf e).
Proof.
  induction items as [|it items IH]; intros idx agg w r w1 Hpcb H.
  - cbn in H. injection H as <- <-. exists [], O.
    split; [apply evolves_refl|]. split; [auto|]. split; [cbn; lia|].
    split; [intros; constructor|]. split; [destruct hf; reflexivity|].
    split; [reflexivity|discriminate].
  - cbn [List.map] in H. rewrite batch_loop_cons in H.
    set (srcp := Path_of_str (src it)) in *. set (dstp := Path_of_str (dst it)) in *.
    unfold bind in H at 1.
    destruct (copy_with_progress _ _ _ _ _ _ w) as [r1 w2] eqn:Ec.
    pose proof (copy_with_progress_inv _ _ _ _ _ _ _ _ _
                  (inner_cb_passive pcb g agg tb idx (src it) Hpcb) Ec)
      as (mk & fs0 & Hmk & Hgr & Hcases).
    fold srcp dstp in Hgr, Hcases.
    assert (Hkeep0 : forall (q : path) x, w_fs w !! q = Some x -> fs0 !! q = Some x).
    { intros q x. apply (grown_keeps _ _ _ _ _ _ Hgr). }
    destruct Hcases as [(e & evo & -> & He & Hevo & Hev)|
        (m0 & d0 & m1 & k0 & evl & tl & Hs & Hcr & _ & _ & Hev & Hpre & _ & _ & Htl & _ & Hr)].
    { injection H as <- <-. exists (mk ++ evo), O.
      pose proof (evolves_fs _ _ _ _ Hev) as Hfs.
      split; [rewrite Hfs; assumption|]. split; [rewrite Hfs; auto|].
      split; [cbn; lia|]. split; [intros; constructor|].
      split; [|split; [discriminate|intros e' [= <-]; left; assumption]].
      intros _ _. rewrite file_done_events_app, fde_mkdir by assumption.
      destruct Hevo as [-> | ->]; destruct hf; reflexivity. }
    cbn zeta in Hev, Hpre, Htl, Hr.
    pose proof (evolves_fs _ _ _ _ Hev) as Hfs2.
    assert (Hkeep2 : forall (q : path) x, q <> dstp ->
              w_fs w !! q = Some x -> w_fs w2 !! q = Some x).
    { intros q x Hq Hx. rewrite Hfs2, lookup_insert_ne by congruence. auto. }
    assert (Hfde2 : (forall a t i n, file_done_events (g a t i n) = []) ->
              file_done_events (mk ++ [EvOpenR srcp; EvOpenW dstp] ++ evl ++ tl) = []).
    { intros Hg. rewrite !file_done_events_app, fde_mkdir by assumption.
      rewrite (fde_tail _ _ _ _ _ Htl).
      rewrite (fde_prefix _ _ Hpre) by (apply fde_loop; intros; apply Hg).
      reflexivity. }
    destruct r1 as [res|e].
    2: { injection H as <- <-. eexists _, O.
         split; [rewrite <- Hfs2 in Hev; exact Hev|].
         split; [intros q x Hq; apply Hkeep2, Hq; left|].
         split; [cbn; lia|]. split; [intros; constructor|].
         split; [intros _ Hg; rewrite (Hfde2 Hg); destruct hf; reflexivity|].
         split; [discriminate|]. intros e' [= <-].
         destruct Hr as [(Hraise & _)|(He & _)]; [right; left|left; assumption].
         destruct Hraise as (c & t & w0 & w0' & Hcall).
         exists (agg + c), tb, idx, (name (Path_of_str (src it))), w0, w0'.
         destruct pcb; exact Hcall. }
    destruct Hr as (-> & _ & _ & Hpm & ->).
    rewrite firstn_all, concat_blocks in Hev, Hfs2.
    set (data := if bool_decide (srcp = dstp) then [] else d0) in *.
    assert (Hs2 : exists m2, w_fs w2 !! srcp = Some (File m2 data)).
    { rewrite Hfs2. subst data. case_bool_decide as Hsd.
      - rewrite Hsd, lookup_insert_eq. eauto.
      - rewrite lookup_insert_ne by congruence. eauto. }
    destruct Hs2 as [m2 Hs2].
    unfold bind in H at 1. unfold path_stat in H. rewrite Hs2 in H.
    cbn [stat_of st_size] in H.
    unfold bind in H at 1.
    set (res := PDict _) in *.
    assert (Hfcb : exists evf (rf : result unit) w3,
              match option_map batch_file_done_cb hf with
              | Some cb => cb idx res
              | None => ret tt
              end w2 = (rf, w3) /\
              evolves w2 w3 (w_fs w2) evf /\
              evf = match hf with Some _ => [EvFileDone idx res] | None => [] end /\
              (forall e, rf = Err e -> exists h tr, hf = Some h /\ h tr = Some e)).
    { destruct hf as [h|]; cbn [option_map].
      - unfold batch_file_done_cb, observe. destruct (h _) eqn:Eh; eexists _, _, _;
          (split; [reflexivity|]); (split; [reflexivity|]); (split; [reflexivity|]).
        + intros e' [= <-]. eauto.
        + discriminate.
      - eexists _, _, _. split; [reflexivity|]. split; [apply evolves_refl|].
        split; [reflexivity|discriminate]. }
    destruct Hfcb as (evf & rf & w3 & Ef & Hev3 & Hevf & Hrf). rewrite Ef in H.
    pose proof (evolves_fs _ _ _ _ Hev3) as Hfs3.
    pose proof (evolves_trans _ _ _ _ _ _ _ Hev Hev3) as Hev3'.
    assert (Hplace : sources_untouched (it :: items) ->
              forall fs1 : gmap path node,
                fs1 !! srcp = w_fs w2 !! srcp -> fs1 !! dstp = w_fs w2 !! dstp ->
                in_place (w_fs w) fs1 pm it).
    { intros Hunt fs1 E1 E2.
      assert (Hne : srcp <> dstp).
      { intros E. apply (Hunt it it); [left|left|]; auto. }
      exists m0, d0, m1. fold srcp dstp. split; [assumption|].
      rewrite E1, E2, Hfs2, lookup_insert_eq, lookup_insert_ne by congruence.
      subst data. rewrite bool_decide_eq_false_2 by assumption.
      split; [auto|]. split; [reflexivity|].
      intros Ep. rewrite (Hpm Ep). apply and_perm_bits. }
    assert (Hres : sources_untouched (it :: items) ->
              res = item_result sha256 (w_fs w) ch it).
    { intros Hunt.
      assert (Hne : srcp <> dstp).
      { intros E. apply (Hunt it it); [left|left|]; auto. }
      unfold item_result. fold srcp dstp. rewrite Hs. subst res data.
      rewrite bool_decide_eq_false_2 by assumption. reflexivity. }
    destruct rf as [[]|e].
    2: { injection H as <- <-. eexists _, 1%nat.
         split; [rewrite Hfs3; exact Hev3'|].
         split; [rewrite Hfs3; intros q x Hq; apply Hkeep2, Hq; left|].
         split; [cbn; lia|].
         split; [intros Hunt _; cbn [take]; constructor; [|constructor];
                 apply Hplace; [assumption|rewrite Hfs3; reflexivity..]|].
         split; [|split; [discriminate|intros e' [= <-]; right; right; eauto]].
         intros Hunt Hg. rewrite (file_done_events_app _ evf), (Hfde2 Hg), Hevf.
         destruct hf; [|reflexivity]. cbn [take done_reports].
         rewrite (Hres Hunt). reflexivity. }
    apply IH in H; [|assumption].
    destruct H as (evs4 & k & Hev4 & Hfr4 & Hk & Hpl4 & Hfd4 & Hok4 & Herr4).
    pose proof (evolves_trans _ _ _ _ _ _ _ Hev3' Hev4) as Hev4'.
    assert (Hsub : forall (q : path), (forall i, i ∈ it :: items -> q <> Path_of_str (dst i)) ->
              forall i, i ∈ items -> q <> Path_of_str (dst i)).
    { intros q Hq i Hi. apply Hq. right. assumption. }
    assert (Hold : sources_untouched (it :: items) -> forall i, i ∈ items ->
              w_fs w3 !! Path_of_str (src i) = w_fs w !! Path_of_str (src i) \/
              (w_fs w !! Path_of_str (src i) = None /\
               exists m, w_fs w3 !! Path_of_str (src i) = Some (Dir m))).
    { intros Hunt i Hi. rewrite Hfs3, Hfs2, lookup_insert_ne.
      2: { intros E. apply (Hunt it i); [left|right; assumption|]. auto. }
      destruct (Hgr (Path_of_str (src i))) as [E|(N & D & _)]; [left; assumption|].
      right. eauto. }
    eexists _, (S k).
    split; [exact Hev4'|].
    split.
    { intros q x Hq Hx. apply Hfr4; [apply Hsub; assumption|].
      rewrite Hfs3. apply Hkeep2; [apply Hq; left|assumption]. }
    split; [cbn; lia|].
    split.
    { intros Hunt Hdis. cbn [take]. constructor.
      - unfold dsts_distinct in Hdis. cbn [List.map] in Hdis.
        apply NoDup_cons in Hdis as [Hnin Hdis].
        apply Hplace; [assumption| |].
        + rewrite Hs2. apply Hfr4; [|rewrite Hfs3; assumption].
          intros i Hi E. apply (Hunt i it); [right; assumption|left|]. auto.
        + rewrite Hfs2, lookup_insert_eq. apply Hfr4.
          * intros i Hi E. apply Hnin. fold dstp. rewrite E.
            apply list_elem_of_In.
            apply (in_map (fun it : item => Path_of_str (dst it))).
            apply list_elem_of_In. assumption.
          * rewrite Hfs3, Hfs2. apply lookup_insert_eq.
      - unfold dsts_distinct in Hdis. cbn [List.map] in Hdis.
        apply NoDup_cons in Hdis as [Hnin Hdis].
        specialize (Hpl4 (untouched_tail _ _ Hunt) Hdis).
        rewrite Forall_forall in Hpl4 |- *. intros i Hi.
        destruct (Hpl4 i Hi) as (mi & di & mi1 & Hi1 & Hi2 & Hi3 & Hi4).
        exists mi, di, mi1. split; [|auto].
        destruct (Hold Hunt i (elem_of_take_elem _ _ _ Hi)) as [E|(N & mm & D)];
          congruence. }
    split; [|split; [intros u Hu; cbn [List.length]; rewrite (Hok4 u Hu); reflexivity
                    |assumption]].
    intros Hunt Hg.
    rewrite (file_done_events_app (_ ++ evf)), (file_done_events_app _ evf).
    rewrite (Hfde2 Hg), Hevf.
    rewrite (Hfd4 (untouched_tail _ _ Hunt) Hg).
    destruct hf; [|reflexivity]. cbn [take done_reports app file_done_events List.filter].
    rewrite (Hres Hunt). f_equal. apply done_reports_eq.
    apply Forall_forall. intros i Hi. unfold item_result.
    destruct (Hold Hunt i (elem_of_take_elem _ _ _ Hi)) as [E|(N & mm & D)].
    + rewrite E. reflexivity.
    + rewrite N, D. reflexivity.
Qed.

Lemma observer_pcb_passive hp :
  pcb_passive (option_map batch_progress_cb hp) (batch_events hp).
Proof.
  intros a t i n w r w1. destruct hp as [h|]; cbn.
  - unfold batch_progress_cb, observe. destruct (h _); intros [= <- <-];
      exists [EvProgress a t i n]; (split; [reflexivity|]); split; [done|auto|done|auto].
  - intros [= <- <-]. exists []. split; [apply evolves_refl|]. split; [done|auto].
Qed.

Lemma batch_events_no_file_done hp a t i n :
  file_done_events (batch_events hp a t i n) = [].
Proof. destruct hp; reflexivity. Qed.

Lemma copy_batch_inv items pm ch pcb g hf w r w1 :
  pcb_passive pcb g ->
  copy_batch sha256 (py_items items) pm ch pcb (option_map batch_file_done_cb hf) w
    = (r, w1) ->
  exists evs k, evolves w w1 (w_fs w1) evs /\
    (forall (q : path) x, (forall it, it ∈ items -> q <> Path_of_str (dst it)) ->
       w_fs w !! q = Some x -> w_fs w1 !! q = Some x) /\
    (sources_untouched items -> dsts_distinct items ->
       Forall (in_place (w_fs w) (w_fs w1) pm) (take k items)) /\
    (sources_untouched items ->
     (forall a t i n, file_done_events (g a t i n) = []) ->
       file_done_events evs =
       match hf with
       | Some _ => done_reports sha256 (w_fs w) ch 0 (take k items)
       | None => []
       end) /\
    (forall u, r = Ok u -> k = List.length items) /\
    (forall e, r = Err e -> batch_error pcb hf e).
Proof.
  intros Hpcb H. rewrite copy_batch_unfold in H.
  destruct (sum_sizes _ 0 w) as [[t|e] w2] eqn:E; apply sum_sizes_inv in E as [-> E].
  2: { injection H as <- <-. exists [], O. split; [apply evolves_refl|].
       split; [auto|]. split; [intros; constructor|].
       split; [intros; destruct hf; reflexivity|]. split; [discriminate|].
       intros e' [= <-]. left.
       destruct E as (pre & it & post & _ & _ & _ & ->). reflexivity. }
  destruct (batch_loop _ _ _ _ _ _ _ _ _ w) as [rl w3] eqn:El.
  apply (batch_loop_inv _ _ _ _ g) in El; [|assumption].
  destruct El as (evs & k & Hev & Hfr & Hk & Hpl & Hfd & Hok & Herr).
  assert (Hw : w1 = w3) by (destruct rl; injection H as <- <-; reflexivity).
  subst w3. exists evs, k. repeat split; auto.
  - intros u ->. destruct rl as [[]|]; [|discriminate]. eauto.
  - intros e' ->. destruct rl as [[]|e'']; [discriminate|]. injection H as <-. eauto.
Qed.

(** After a batch that returns, every destination holds the bytes its
    source had when the batch started, every source still holds them, and
    with [preserve_mode] every destination has the permission bits of its
    source; this needs that no path of the batch has a [..], that no
    destination is also a source and that the destinations are pairwise
    distinct. *)
Theorem copy_batch_copies items pm ch pcb g hf w s w1 :
  forallb unaliased items = true ->
  pcb_passive pcb g ->
  sources_untouched items -> dsts_distinct items ->
  copy_batch sha256 (py_items items) pm ch pcb (option_map batch_file_done_cb hf) w
    = (Ok s, w1) ->
  Forall (in_place (w_fs w) (w_fs w1) pm) items.
Proof.
  intros _ Hpcb Hunt Hdis H.
  destruct (copy_batch_inv _ _ _ _ _ _ _ _ _ Hpcb H) as (evs & k & _ & _ & Hpl & _ & Hok & _).
  specialize (Hpl Hunt Hdis). rewrite (Hok s eq_refl), firstn_all in Hpl. exact Hpl.
Qed.


Lemma inner_cb_never_raises pcb agg tb idx s :
  (forall e, ~ pcb_raises pcb e) ->
  forall e, ~ cb_raises
    (Some (fun copied total : Z =>
             match pcb with
             | Some cb => p <- Path (PStr s) ;; cb (agg + copied) tb idx (name p)
             | None => ret tt
             end)) e.
Proof.
  intros Hnr e (c & t & w & w' & H). cbn [call_cb] in H. destruct pcb as [cb|].
  - apply (Hnr e). exists (agg + c), tb, idx, (name (Path_of_str s)), w, w'. exact H.
  - discriminate.
Qed.

Lemma batch_loop_ok pm ch pcb g hf items : forall idx agg tb w,
  pcb_passive pcb g -> (forall e, ~ pcb_raises pcb e) ->
  (forall h tr, hf = Some h -> h tr = None) ->
  sources_untouched items -> dsts_distinct items ->
  Forall (copyable w pm ch) items ->
  exists w1,
    batch_loop sha256 (List.map py_item items) idx agg tb pm ch pcb
      (option_map batch_file_done_cb hf) w = (Ok tt, w1).
Proof.
  induction items as [|it items IH]; intros idx agg tb w Hpcb Hnr Hhf Hunt Hdis Hall.
  - eexists. reflexivity.
  - apply Forall_cons in Hall as [Hit Hall].
    destruct Hit as ((m0 & d0 & Hs & Hcr) & (md & Hpar & Hcw) & Hdst & Hch).
    assert (Hne : Path_of_str (src it) <> Path_of_str (dst it)).
    { intros E. apply (Hunt it it); [left|left|]. congruence. }
    cbn [List.map]. rewrite batch_loop_cons. unfold bind at 1.
    destruct (copy_with_progress_ok (src it) (dst it) pm ch _ _ w m0 d0 md
                (inner_cb_passive pcb g agg tb idx (src it) Hpcb)
                (inner_cb_never_raises pcb agg tb idx (src it) Hnr)
                Hne Hs Hcr Hpar Hcw Hdst Hch) as (w1 & E & Hfs & Hum & Hout).
    rewrite E. unfold bind at 1. unfold path_stat.
    assert (Hs1 : w_fs w1 !! Path_of_str (src it) = Some (File m0 d0)).
    { rewrite Hfs, lookup_insert_ne by congruence. exact Hs. }
    rewrite Hs1.
    assert (Hrest : forall w2, w_fs w2 = w_fs w1 -> w_umask w2 = w_umask w1 ->
              Forall (copyable w2 pm ch) items).
    { intros w2 Hfs2 Hum2. apply Forall_forall. intros it' Hin.
      rewrite Forall_forall in Hall.
      destruct (Hall it' Hin) as ((m0' & d0' & Hs' & Hcr') & (md' & Hpar' & Hcw') & Hdst' & Hch').
      assert (Hsd : Path_of_str (src it') <> Path_of_str (dst it)).
      { intros E'. apply (Hunt it it'); [left|right; assumption|]. congruence. }
      assert (Hdd : Path_of_str (dst it') <> Path_of_str (dst it)).
      { unfold dsts_distinct in Hdis. cbn [List.map] in Hdis.
        apply NoDup_cons in Hdis as [Hni _]. intros E'. apply Hni. rewrite <- E'.
        apply list_elem_of_In. apply (in_map (fun i : item => Path_of_str (dst i))).
        apply list_elem_of_In. assumption. }
      assert (Hpd : parent (Path_of_str (dst it')) <> Path_of_str (dst it)).
      { intros E'. rewrite E' in Hpar'.
        destruct Hdst as [Hd|(m & d1 & Hd & _)];
          pose proof (eq_trans (eq_sym Hd) Hpar') as Hx; discriminate. }
      assert (Hl : forall q : path, q <> Path_of_str (dst it) ->
                w_fs w2 !! q = w_fs w !! q).
      { intros q Hq. rewrite Hfs2, Hfs, lookup_insert_ne by congruence. reflexivity. }
      assert (Hom : opened_mode w2 (Path_of_str (dst it')) =
                    opened_mode w (Path_of_str (dst it'))).
      { unfold opened_mode, created_mode. rewrite (Hl _ Hdd), Hum2, Hum. reflexivity. }
      split; [exists m0', d0'; rewrite (Hl _ Hsd); auto|].
      split; [exists md'; rewrite (Hl _ Hpd); auto|].
      split; [rewrite (Hl _ Hdd); exact Hdst'|].
      rewrite Hom. exact Hch'. }
    assert (Hunt' : sources_untouched items).
    { intros a b Ha Hb. apply Hunt; right; assumption. }
    assert (Hdis' : dsts_distinct items).
    { unfold dsts_distinct in *. cbn [List.map] in Hdis. apply NoDup_cons in Hdis. tauto. }
    destruct hf as [h|]; cbn [option_map]; unfold bind at 1.
    + unfold batch_file_done_cb, observe. rewrite (Hhf h _ eq_refl).
      apply IH; auto.
    + unfold ret at 1. apply IH; auto.
Qed.

Lemma copy_batch_ok items pm ch pcb g hf w :
  pcb_passive pcb g -> (forall e, ~ pcb_raises pcb e) ->
  (forall h tr, hf = Some h -> h tr = None) ->
  sources_untouched items -> dsts_distinct items ->
  Forall (copyable w pm ch) items ->
  exists w1,
    copy_batch sha256 (py_items items) pm ch pcb (option_map batch_file_done_cb hf) w =
    (Ok (PDict [("bytes", PInt (total_source_size (w_fs w) items));
                ("count", PInt (Z.of_nat (List.length items)))]), w1).
Proof.
  intros Hpcb Hnr Hhf Hunt Hdis Hall.
  assert (Hex : sources_exist (w_fs w) items).
  { unfold sources_exist. eapply Forall_impl; [exact Hall|].
    intros it ((m0 & d0 & Hs & _) & _). rewrite Hs. eauto. }
  rewrite copy_batch_unfold.
  destruct (sum_sizes (List.map py_item items) 0 w) as [rs w0] eqn:Es.
  pose proof Es as Es'. apply sum_sizes_inv in Es' as Hinv.
  destruct rs as [t|e].
  - destruct Hinv as [-> [Ht _]]. rewrite Z.add_0_l in Ht. subst t.
    destruct (batch_loop_ok pm ch pcb g hf items 0 0
                (total_source_size (w_fs w) items) w Hpcb Hnr Hhf Hunt Hdis Hall)
      as [w1 El].
    rewrite El. eauto.
  - exfalso. destruct Hinv as [-> (pre & it & post & Hitems & _ & Hmiss & _)].
    unfold sources_exist in Hex. rewrite Hitems in Hex.
    apply Forall_app in Hex as [_ Hex]. apply Forall_cons in Hex as [[n Hn] _].
    pose proof (eq_trans (eq_sym Hn) Hmiss) as Hx. discriminate.
Qed.


(** Whatever the outcome of a batch none of whose paths has a [..], no
    file or directory that existed at its start is removed or modified,
    except the destinations of its items. *)
Theorem copy_batch_frame items pm ch pcb g hf w r w1 :
  forallb unaliased items = true ->
  pcb_passive pcb g ->
  copy_batch sha256 (py_items items) pm ch pcb (option_map batch_file_done_cb hf) w
    = (r, w1) ->
  forall (q : path) x, (forall it, it ∈ items -> q <> Path_of_str (dst it)) ->
    w_fs w !! q = Some x -> w_fs w1 !! q = Some x.
Proof.
  intros _ Hpcb H.
  destruct (copy_batch_inv _ _ _ _ _ _ _ _ _ Hpcb H) as (evs & k & _ & Hfr & _).
  exact Hfr.
Qed.

End Further.

(** ** Walking a tree *)

Section Walking.

Variable sha256 : hasher.

Variable order : path -> list string -> list string.

Hypothesis order_perm : forall p l, order p l ≡ₚ l.

(** *** Paths and their text *)

Lemma append_cons a (c s : string) :
  String.append (String a c) s = String a (String.append c s).
Proof. reflexivity. Qed.

Lemma append_nil_r (c : string) : String.append c "" = c.
Proof.
  induction c as [|a c IH]; [reflexivity|]. rewrite append_cons, IH. reflexivity.
Qed.

Lemma append_assoc (a b c : string) :
  String.append (String.append a b) c = String.append a (String.append b c).
Proof.
  induction a as [|x a IH]; [reflexivity|]. rewrite !append_cons, IH. reflexivity.
Qed.

Lemma noslash_app a b : noslash (String.append a b) = noslash a && noslash b.
Proof.
  unfold noslash. induction a as [|x a IH]; [reflexivity|].
  rewrite append_cons. cbn [list_ascii_of_string forallb].
  rewrite IH. apply andb_assoc.
Qed.

Lemma split_slash_app cur c s :
  noslash c = true ->
  split_slash cur (String.append c s) = split_slash (String.append cur c) s.
Proof.
  revert cur. induction c as [|a c IH]; intros cur H.
  - change (String.append "" s) with s. rewrite append_nil_r. reflexivity.
  - cbn in H. apply andb_prop in H as [Ha Hc].
    rewrite append_cons. cbn [split_slash]. apply negb_true_iff in Ha. rewrite Ha.
    rewrite IH by assumption. rewrite append_assoc. reflexivity.
Qed.

Lemma split_slash_noslash cur c :
  noslash c = true -> split_slash cur c = [String.append cur c].
Proof.
  intros H. rewrite <- (append_nil_r c) at 1. rewrite split_slash_app by assumption.
  reflexivity.
Qed.

Lemma split_slash_concat p : forall c cur,
  forallb noslash (c :: p) = true ->
  split_slash cur (String.concat "" (List.map (fun c => String.append "/" c) (c :: p))) =
  cur :: c :: p.
Proof.
  induction p as [|c2 p IH]; intros c cur H; cbn [forallb] in H;
    apply andb_prop in H as [Hc Hp].
  - change (String.concat "" (List.map (fun c => String.append "/" c) [c]))
      with (String "/" c).
    cbn [split_slash]. change (Ascii.eqb "/" "/") with true. cbn iota.
    rewrite (split_slash_noslash "" c) by assumption. reflexivity.
  - change (String.concat "" (List.map (fun c => String.append "/" c) (c :: c2 :: p)))
      with (String "/" (String.append c
              (String.concat "" (List.map (fun c => String.append "/" c) (c2 :: p))))).
    cbn [split_slash]. change (Ascii.eqb "/" "/") with true. cbn iota.
    rewrite (split_slash_app "" c) by assumption.
    change (String.append "" c) with c.
    rewrite (IH c2 c) by assumption. reflexivity.
Qed.

Lemma valid_name_noslash c : valid_name c = true -> noslash c = true.
Proof. unfold valid_name. intros H. apply andb_prop in H as [_ H]. exact H. Qed.

Lemma valid_name_kept c :
  valid_name c = true -> negb (String.eqb c "" || String.eqb c ".") = true.
Proof.
  unfold valid_name. intros H. apply andb_prop in H as [H _].
  apply andb_prop in H as [H1 H2]. rewrite negb_orb, H1, H2. reflexivity.
Qed.

Lemma filter_valid p :
  forallb valid_name p = true ->
  List.filter (fun c => negb (String.eqb c "" || String.eqb c ".")) p = p.
Proof.
  induction p as [|c p IH]; [reflexivity|]. cbn [forallb List.filter].
  intros H. apply andb_prop in H as [Hc Hp].
  rewrite (valid_name_kept c Hc), IH by assumption. reflexivity.
Qed.

Lemma forallb_valid_noslash p : forallb valid_name p = true -> forallb noslash p = true.
Proof.
  induction p as [|c p IH]; [reflexivity|]. cbn [forallb].
  intros H. apply andb_prop in H as [Hc Hp].
  rewrite (valid_name_noslash c Hc), IH by assumption. reflexivity.
Qed.

(** [Path(str(p))] is [p]. *)
Lemma Path_of_str_of_path p :
  forallb valid_name p = true -> Path_of_str (str_of_path p) = p.
Proof.
  intros H. unfold Path_of_str. destruct p as [|c p]; [reflexivity|].
  unfold str_of_path. rewrite split_slash_concat by (apply forallb_valid_noslash, H).
  change (List.filter ?f (""%string :: ?l)) with (List.filter f l).
  apply filter_valid. exact H.
Qed.

Lemma str_of_path_inj p q :
  forallb valid_name p = true -> forallb valid_name q = true ->
  str_of_path p = str_of_path q -> p = q.
Proof.
  intros Hp Hq E. rewrite <- (Path_of_str_of_path p Hp), <- (Path_of_str_of_path q Hq), E.
  reflexivity.
Qed.

Lemma split_slash_pieces s : forall cur,
  noslash cur = true -> forallb noslash (split_slash cur s) = true.
Proof.
  induction s as [|a s IH]; intros cur H.
  - cbn. rewrite H. reflexivity.
  - cbn [split_slash]. destruct (Ascii.eqb a "/") eqn:E.
    + cbn [forallb]. rewrite H, IH by reflexivity. reflexivity.
    + apply IH. rewrite noslash_app, H. unfold noslash. cbn. rewrite E. reflexivity.
Qed.

(** The components of [Path(s)] are names. *)
Lemma Path_of_str_valid s : forallb valid_name (Path_of_str s) = true.
Proof.
  unfold Path_of_str. pose proof (split_slash_pieces s "" eq_refl) as H.
  induction (split_slash "" s) as [|c l IH]; [reflexivity|].
  cbn [forallb] in H. apply andb_prop in H as [Hc Hl]. cbn [List.filter].
  destruct (negb (String.eqb c "" || String.eqb c ".")) eqn:E; [|auto].
  cbn [forallb]. rewrite IH by assumption. rewrite andb_true_r.
  unfold valid_name. rewrite negb_orb in E. fold (noslash c). rewrite E, Hc. reflexivity.
Qed.

Lemma forallb_removelast {A} (f : A -> bool) l :
  forallb f l = true -> forallb f (removelast l) = true.
Proof.
  induction l as [|x l IH]; [reflexivity|]. cbn [forallb removelast].
  intros H. apply andb_prop in H as [Hx Hl]. destruct l; [reflexivity|].
  cbn [forallb]. rewrite Hx. apply IH. exact Hl.
Qed.

Lemma resolve_valid p : forallb valid_name p = true -> forallb valid_name (resolve p) = true.
Proof.
  unfold resolve.
  assert (H : forall acc, forallb valid_name acc = true -> forallb valid_name p = true ->
            forallb valid_name
              (fold_left (fun acc c => if String.eqb c ".." then removelast acc
                                       else acc ++ [c]) p acc) = true).
  { induction p as [|c p IH]; intros acc Ha Hp; [exact Ha|].
    cbn [forallb] in Hp. apply andb_prop in Hp as [Hc Hp]. cbn [fold_left].
    apply IH; [|assumption]. destruct (String.eqb c "..").
    - apply forallb_removelast. assumption.
    - rewrite forallb_app, Ha. cbn. rewrite Hc. reflexivity. }
  apply H. reflexivity.
Qed.

Lemma names_valid_b_sound fs : names_valid_b fs = true -> names_valid fs.
Proof.
  unfold names_valid_b, names_valid. rewrite forallb_forall. intros H q n Hq.
  apply (H (q, n)). apply list_elem_of_In, elem_of_map_to_list. assumption.
Qed.

(** *** Listing a directory *)

Lemma name_joinpath d c : name (joinpath d c) = c.
Proof. unfold name, joinpath. apply last_last. Qed.

Lemma child_name_Some p q c : child_name p q = Some c <-> q = joinpath p c.
Proof.
  unfold child_name. case_bool_decide as H.
  - destruct H as [Hne <-]. split.
    + intros [= <-]. unfold joinpath, parent, name. apply app_removelast_last. assumption.
    + intros E. f_equal. rewrite E at 1. apply name_joinpath.
  - split; [discriminate|]. intros ->. exfalso. apply H. split.
    + unfold joinpath. destruct p; discriminate.
    + apply parent_joinpath.
Qed.

Lemma elem_of_entries fs p c : c ∈ entries fs p <-> is_Some (fs !! joinpath p c).
Proof.
  unfold entries. rewrite list_elem_of_omap. split.
  - intros ([q n] & Hin & Hc). cbn in Hc. apply child_name_Some in Hc as ->.
    apply elem_of_map_to_list in Hin. eauto.
  - intros [n Hn]. exists (joinpath p c, n). split.
    + apply elem_of_map_to_list. assumption.
    + cbn. apply child_name_Some. reflexivity.
Qed.

Lemma NoDup_omap_inj {A B} (f : A -> option B) (l : list A) :
  (forall x y z, x ∈ l -> y ∈ l -> f x = Some z -> f y = Some z -> x = y) ->
  NoDup l -> NoDup (omap f l).
Proof.
  induction l as [|x l IH]; intros Hinj Hnd; [constructor|].
  apply NoDup_cons in Hnd as [Hx Hnd].
  change (omap f (x :: l))
    with (match f x with Some y => y :: omap f l | None => omap f l end).
  assert (IH' : NoDup (omap f l)).
  { apply IH; [|assumption]. intros a b z Ha Hb. apply Hinj; right; assumption. }
  destruct (f x) as [z|] eqn:E; [|assumption].
  apply NoDup_cons. split; [|assumption].
  intros Hin. apply list_elem_of_omap in Hin as (y & Hy & Ey).
  apply Hx. rewrite (Hinj x y z); [assumption|left|right; assumption|assumption|assumption].
Qed.

Lemma NoDup_entries fs p : NoDup (entries fs p).
Proof.
  unfold entries. apply NoDup_omap_inj; [|apply NoDup_map_to_list].
  intros [q n] [q' n'] c Hq Hq' E E'. cbn in E, E'.
  apply child_name_Some in E, E'. subst q q'.
  apply elem_of_map_to_list in Hq, Hq'. congruence.
Qed.

Lemma NoDup_map_inj_on {A B} (f : A -> B) (l : list A) :
  (forall x y, x ∈ l -> y ∈ l -> f x = f y -> x = y) -> NoDup l -> NoDup (List.map f l).
Proof.
  induction l as [|x l IH]; intros Hinj Hnd; [constructor|].
  apply NoDup_cons in Hnd as [Hx Hnd]. cbn [List.map]. apply NoDup_cons. split.
  - intros Hin. apply list_elem_of_In, in_map_iff in Hin as (y & Ey & Hy).
    apply list_elem_of_In in Hy. apply Hx.
    rewrite (Hinj x y); [assumption|left|right; assumption|congruence].
  - apply IH; [|assumption]. intros a b Ha Hb. apply Hinj; right; assumption.
Qed.

Lemma elem_of_flat_map {A B} (g : A -> list B) l z :
  z ∈ flat_map g l <-> exists x, x ∈ l /\ z ∈ g x.
Proof.
  rewrite list_elem_of_In, in_flat_map. split; intros (x & Hx & Hz); exists x;
    rewrite ?list_elem_of_In in *; auto.
Qed.

Lemma elem_of_map {A B} (f : A -> B) l z :
  z ∈ List.map f l <-> exists x, z = f x /\ x ∈ l.
Proof.
  rewrite list_elem_of_In, in_map_iff. split; intros (x & Hx & Hz); exists x;
    rewrite ?list_elem_of_In in *; auto.
Qed.

Lemma elem_of_filter_b {A} (g : A -> bool) l x :
  x ∈ List.filter g l <-> x ∈ l /\ g x = true.
Proof. rewrite !list_elem_of_In. apply filter_In. Qed.

Lemma NoDup_filter_b {A} (g : A -> bool) l : NoDup l -> NoDup (List.filter g l).
Proof.
  induction l as [|x l IH]; intros Hnd; [constructor|].
  apply NoDup_cons in Hnd as [Hx Hnd]. cbn [List.filter].
  destruct (g x); [|auto]. apply NoDup_cons. split; [|auto].
  rewrite elem_of_filter_b. tauto.
Qed.

Lemma NoDup_flat_map {A B} (g : A -> list B) (l : list A) :
  NoDup l -> (forall x, x ∈ l -> NoDup (g x)) ->
  (forall x y z, x ∈ l -> y ∈ l -> z ∈ g x -> z ∈ g y -> x = y) ->
  NoDup (flat_map g l).
Proof.
  induction l as [|x l IH]; intros Hnd Hg Hdisj; [constructor|].
  apply NoDup_cons in Hnd as [Hx Hnd]. cbn [flat_map]. apply NoDup_app.
  split; [apply Hg; left|]. split.
  - intros z Hz Hin. apply elem_of_flat_map in Hin as (y & Hy & Hzy).
    apply Hx. rewrite (Hdisj x y z); [assumption|left|right; assumption|assumption..].
  - apply IH; [assumption| |].
    + intros y Hy. apply Hg. right. assumption.
    + intros a b z Ha Hb. apply Hdisj; right; assumption.
Qed.

Lemma files_of_walk_app a b :
  files_of_walk (a ++ b) = files_of_walk a ++ files_of_walk b.
Proof. apply flat_map_app. Qed.

Lemma files_of_walk_flat_map {A} (g : A -> list (string * list string * list string)) l :
  files_of_walk (flat_map g l) = flat_map (fun c => files_of_walk (g c)) l.
Proof.
  induction l as [|x l IH]; [reflexivity|]. cbn [flat_map].
  rewrite files_of_walk_app, IH. reflexivity.
Qed.

Lemma forallb_valid_app p q :
  forallb valid_name (p ++ q) = forallb valid_name p && forallb valid_name q.
Proof. apply forallb_app. Qed.

Lemma readable_chain_nonempty fs (top : path) rel :
  rel <> [] -> readable_chain fs top rel = true ->
  exists m, fs !! top = Some (Dir m) /\ can_read m = true.
Proof.
  destruct rel as [|c rel]; [congruence|]. intros _ H. cbn in H.
  apply andb_prop in H as [H _].
  destruct (fs !! top) as [[? ?|m]|]; try discriminate. eauto.
Qed.

Section WalkSpec.

Variable fs : gmap path node.

Hypothesis fs_names : names_valid fs.

Lemma walk_spec : forall fuel (top : path),
  forallb valid_name top = true ->
  (forall (q : path) n, fs !! q = Some n -> (List.length q < List.length top + fuel)%nat) ->
  NoDup (files_of_walk (walk order fuel fs top)) /\
  (forall f, f ∈ files_of_walk (walk order fuel fs top) <->
     exists rel, f = top ++ rel /\ rel <> [] /\ readable_chain fs top rel = true /\
                 is_nondir fs f) /\
  Forall (fun t : string * list string * list string => top `prefix_of` Path_of_str t.1.1)
    (walk order fuel fs top).
Proof.
  induction fuel as [|fuel IH]; intros top Hv Hbound.
  - cbn [walk files_of_walk flat_map]. split; [constructor|]. split; [|constructor].
    intros f. split; [intros H; inversion H|].
    intros (rel & -> & Hne & _ & (m & d & Hf)).
    specialize (Hbound _ _ Hf). rewrite length_app in Hbound.
    destruct rel; [congruence|cbn in Hbound; lia].
  - cbn [walk]. unfold scandir.
    destruct (fs !! top) as [[m0 d0|m]|] eqn:Etop.
    1,3: cbn [files_of_walk flat_map]; (split; [constructor|]); (split; [|constructor]);
         intros f; (split; [intros H; inversion H|]);
         intros (rel & -> & Hne & Hch & _);
         destruct (readable_chain_nonempty _ _ _ Hne Hch) as (m' & Hm' & _); congruence.
    destruct (can_read m) eqn:Er.
    2: { cbn [files_of_walk flat_map]. split; [constructor|]. split; [|constructor].
         intros f. split; [intros H; inversion H|].
         intros (rel & -> & Hne & Hch & _).
         destruct (readable_chain_nonempty _ _ _ Hne Hch) as (m' & Hm' & Hr'). congruence. }
    set (names := order top (entries fs top)).
    assert (Hin : forall c, c ∈ names <-> is_Some (fs !! joinpath top c)).
    { intros c. subst names. rewrite (order_perm top (entries fs top)).
      apply elem_of_entries. }
    assert (Hnd : NoDup names).
    { subst names. rewrite (order_perm top (entries fs top)). apply NoDup_entries. }
    set (dirs := List.filter (entry_is_dir fs top) names).
    set (nondirs := List.filter (fun c => negb (entry_is_dir fs top c)) names).
    assert (Hdirs : forall c, c ∈ dirs <-> exists m', fs !! joinpath top c = Some (Dir m')).
    { intros c. subst dirs. rewrite elem_of_filter_b, Hin. unfold entry_is_dir. split.
      - intros [_ H]. destruct (fs !! joinpath top c) as [[? ?|m']|]; try discriminate. eauto.
      - intros [m' ->]. eauto. }
    assert (Hnondirs : forall c, c ∈ nondirs <-> is_nondir fs (joinpath top c)).
    { intros c. subst nondirs. rewrite elem_of_filter_b, Hin. unfold entry_is_dir, is_nondir.
      split.
      - intros [[n Hn] H]. rewrite Hn in H |- *. destruct n; [eauto|discriminate].
      - intros (m' & d' & ->). eauto. }
    assert (IHc : forall c, c ∈ dirs ->
      NoDup (files_of_walk (walk order fuel fs (joinpath top c))) /\
      (forall f, f ∈ files_of_walk (walk order fuel fs (joinpath top c)) <->
         exists rel, f = joinpath top c ++ rel /\ rel <> [] /\
           readable_chain fs (joinpath top c) rel = true /\ is_nondir fs f) /\
      Forall (fun t : string * list string * list string =>
                joinpath top c `prefix_of` Path_of_str t.1.1)
        (walk order fuel fs (joinpath top c))).
    { intros c Hc. apply Hdirs in Hc as [m' Hm']. apply IH.
      - apply (fs_names _ _ Hm').
      - intros q n Hq. specialize (Hbound q n Hq). unfold joinpath.
        rewrite length_app. cbn. lia. }
    cbn [files_of_walk flat_map fst snd].
    change (flat_map _ (flat_map ?g dirs)) with (files_of_walk (flat_map g dirs)).
    rewrite files_of_walk_flat_map, (Path_of_str_of_path top Hv).
    split; [|split].
    + apply NoDup_app. split; [|split].
      * apply NoDup_map_inj_on; [|subst nondirs; apply NoDup_filter_b, Hnd].
        intros x y _ _ E. unfold joinpath in E. apply app_inv_head in E. congruence.
      * intros f Hf Hin2. apply elem_of_map in Hf as (c & -> & Hc).
        apply elem_of_flat_map in Hin2 as (c' & Hc' & Hf').
        apply (IHc c' Hc') in Hf' as (rel & E & Hne & _).
        apply (f_equal List.length) in E. unfold joinpath in E.
        rewrite !length_app in E. cbn in E. destruct rel; [congruence|cbn in E; lia].
      * apply NoDup_flat_map.
        -- subst dirs. apply NoDup_filter_b, Hnd.
        -- intros c Hc. apply (IHc c Hc).
        -- intros c c' f Hc Hc' Hf Hf'.
           apply (IHc c Hc) in Hf as (rel & E & Hne & _).
           apply (IHc c' Hc') in Hf' as (rel' & E' & Hne' & _).
           rewrite E in E'. unfold joinpath in E'. rewrite <- !app_assoc in E'.
           apply app_inv_head in E'. cbn in E'. congruence.
    + intros f. rewrite elem_of_app, elem_of_map, elem_of_flat_map. split.
      * intros [(c & -> & Hc)|(c & Hc & Hf)].
        -- exists [c]. split; [reflexivity|]. split; [discriminate|].
           split; [cbn; rewrite Etop, Er; reflexivity|]. apply Hnondirs. assumption.
        -- apply (IHc c Hc) in Hf as (rel & -> & Hne & Hch & Hnd').
           exists (c :: rel). split; [unfold joinpath; rewrite <- app_assoc; reflexivity|].
           split; [discriminate|]. split; [|assumption].
           cbn [readable_chain]. rewrite Etop, Er. exact Hch.
      * intros (rel & -> & Hne & Hch & Hfile).
        destruct rel as [|c rel]; [congruence|].
        cbn [readable_chain] in Hch. apply andb_prop in Hch as [_ Hch].
        destruct rel as [|c2 rel].
        -- left. exists c. split; [reflexivity|]. apply Hnondirs. exact Hfile.
        -- right. exists c.
           destruct (readable_chain_nonempty fs (joinpath top c) (c2 :: rel))
             as (m' & Hm' & _); [discriminate|assumption|].
           assert (Hc : c ∈ dirs) by (apply Hdirs; eauto).
           split; [assumption|]. apply (IHc c Hc).
           exists (c2 :: rel). split; [unfold joinpath; rewrite <- app_assoc; reflexivity|].
           split; [discriminate|]. split; assumption.
    + constructor.
      * cbn. rewrite (Path_of_str_of_path top Hv). reflexivity.
      * apply Forall_forall. intros t Ht. apply elem_of_flat_map in Ht as (c & Hc & Ht).
        destruct (IHc c Hc) as (_ & _ & Hall). rewrite Forall_forall in Hall.
        specialize (Hall t Ht). cbn in Hall |- *.
        etrans; [|exact Hall]. unfold joinpath. apply prefix_app_r. reflexivity.
Qed.

Lemma walk_fuel_bound (q : path) n (top : path) :
  fs !! q = Some n -> (List.length q < List.length top + walk_fuel fs)%nat.
Proof.
  intros Hq. unfold walk_fuel.
  assert (H : (List.length q <=
               max_list (List.map (fun qn : path * node => List.length qn.1)
                           (map_to_list fs)))%nat).
  { apply max_list_elem_of_le. apply elem_of_map. exists (q, n). split; [reflexivity|].
    apply elem_of_map_to_list. assumption. }
  lia.
Qed.

End WalkSpec.

(** *** [walk_tree] *)

Lemma walk_tree_loop_eq top dest W : forall acc,
  Forall (fun t : string * list string * list string => top `prefix_of` Path_of_str t.1.1) W ->
  walk_tree_loop top dest W acc =
  Some (acc ++ List.map (mirror_pair top dest) (files_of_walk W)).
Proof.
  induction W as [|[[root ds] files] W IH]; intros acc Hall.
  - cbn. rewrite app_nil_r. reflexivity.
  - apply Forall_cons in Hall as [Hroot Hall]. cbn in Hroot.
    cbn [walk_tree_loop]. unfold relative_to.
    rewrite bool_decide_eq_true_2 by assumption. rewrite IH by assumption.
    cbn [files_of_walk flat_map fst snd]. rewrite List.map_app, app_assoc.
    do 3 f_equal. rewrite List.map_map. apply List.map_ext. intros nm.
    unfold mirror_pair, joinpath. f_equal. f_equal.
    rewrite drop_app_le by (apply prefix_length; assumption).
    rewrite app_assoc. reflexivity.
Qed.

Lemma walk_tree_explicit src_dir dest_root fs :
  names_valid fs ->
  let top := resolve (Path_of_str src_dir) in
  let dest := resolve (Path_of_str dest_root) in
  let files := files_of_walk (os_walk order fs top) in
  walk_tree order src_dir dest_root fs = Some (List.map (mirror_pair top dest) files) /\
  NoDup files /\
  forall f, f ∈ files <->
    exists rel, f = top ++ rel /\ rel <> [] /\ readable_chain fs top rel = true /\
                is_nondir fs f.
Proof.
  intros Hfs top dest files.
  assert (Hv : forallb valid_name top = true).
  { apply resolve_valid, Path_of_str_valid. }
  destruct (walk_spec fs Hfs (walk_fuel fs) top Hv) as (Hnd & Hin & Hall).
  { intros q n Hq. eapply walk_fuel_bound. eassumption. }
  split; [|split; assumption].
  unfold walk_tree. fold top dest. rewrite walk_tree_loop_eq by assumption.
  reflexivity.
Qed.



Lemma forallb_valid_app_r p q :
  forallb valid_name (p ++ q) = true -> forallb valid_name q = true.
Proof. rewrite forallb_app. intros H. apply andb_prop in H. tauto. Qed.

Lemma app_eq_prefix {A} (a b x y : list A) :
  a ++ x = b ++ y -> a `prefix_of` b \/ b `prefix_of` a.
Proof.
  intros E. apply (prefix_weak_total a b (a ++ x)).
  - apply prefix_app_r. reflexivity.
  - rewrite E. apply prefix_app_r. reflexivity.
Qed.


(** *** [total_size_of_sources] *)

Lemma total_size_loop_nondirs sources : forall total w,
  Forall (fun s => forall m, w_fs w !! Path_of_str s <> Some (Dir m)) sources ->
  total_size_loop order sources total w =
  (Ok (total + files_total (w_fs w) (List.map Path_of_str sources)), w).
Proof.
  induction sources as [|s sources IH]; intros total w Hall.
  - cbn. unfold ret. rewrite Z.add_0_r. reflexivity.
  - apply Forall_cons in Hall as [Hs Hall].
    cbn [total_size_loop List.map files_total]. unfold file_size.
    unfold bind at 1. unfold path_is_file.
    destruct (w_fs w !! Path_of_str s) as [[m d|m]|] eqn:E.
    + unfold bind at 1. unfold path_stat. rewrite E. cbn [stat_of st_size].
      rewrite IH by assumption. do 2 f_equal. lia.
    + exfalso. apply (Hs m). reflexivity.
    + unfold bind at 1. unfold path_is_dir. rewrite E.
      rewrite IH by assumption. do 2 f_equal.
Qed.


Lemma sum_files_spec (root : path) files : forall total w,
  Forall (fun nm => is_nondir (w_fs w) (joinpath root nm)) files ->
  sum_files root files total w =
  (Ok (total + files_total (w_fs w) (List.map (joinpath root) files)), w).
Proof.
  induction files as [|nm files IH]; intros total w Hall.
  - cbn. unfold ret. rewrite Z.add_0_r. reflexivity.
  - apply Forall_cons in Hall as [(m & d & Hnm) Hall].
    cbn [sum_files List.map files_total]. unfold bind, path_stat, file_size.
    rewrite Hnm. cbn [stat_of st_size]. rewrite IH by assumption.
    do 2 f_equal. lia.
Qed.

Lemma files_total_app fs a b :
  files_total fs (a ++ b) = files_total fs a + files_total fs b.
Proof. induction a as [|x a IH]; cbn [app files_total]; [reflexivity|rewrite IH; lia]. Qed.

Lemma sum_walk_spec W : forall total w,
  Forall (is_nondir (w_fs w)) (files_of_walk W) ->
  sum_walk W total w = (Ok (total + files_total (w_fs w) (files_of_walk W)), w).
Proof.
  induction W as [|[[root ds] files] W IH]; intros total w Hall.
  - cbn. unfold ret. rewrite Z.add_0_r. reflexivity.
  - cbn [files_of_walk flat_map fst snd] in Hall |- *.
    apply Forall_app in Hall as [H1 H2].
    cbn [sum_walk]. unfold bind. rewrite sum_files_spec.
    + fold (files_of_walk W). rewrite IH by assumption.
      rewrite files_total_app. do 2 f_equal. lia.
    + apply Forall_forall. intros nm Hnm. rewrite Forall_forall in H1. apply H1.
      apply elem_of_map. eauto.
Qed.


End Walking.

(** ** The probe, the helper and the workers *)

Section Callers.

Variable sha256 : hasher.

(** *** utils.py: a marker left by someone else *)


(** *** elevated_copy.py and the window that runs it *)

Lemma read_manifest_input args items p h w :
  read_manifest args (elevated_input items p h) w = (Ok (py_items items, p, h), w).
Proof.
  unfold read_manifest, read_manifest_with, elevated_input, json_load.
  rewrite json_round_trip by apply manifest_wf. reflexivity.
Qed.

Lemma sum_sizes_ok items : forall acc w,
  sources_exist (w_fs w) items ->
  sum_sizes (List.map py_item items) acc w =
  (Ok (acc + total_source_size (w_fs w) items), w).
Proof.
  induction items as [|it items IH]; intros acc w H.
  - cbn. unfold ret. rewrite Z.add_0_r. reflexivity.
  - apply Forall_cons in H as [[n Hn] H]. cbn [List.map]. rewrite sum_sizes_cons, Hn.
    rewrite IH by assumption. cbn [total_source_size]. unfold source_size. rewrite Hn.
    do 2 f_equal. lia.
Qed.

Lemma copy_batch_returns items pm ch pcb fcb w s w1 :
  copy_batch sha256 (py_items items) pm ch pcb fcb w = (Ok s, w1) ->
  s = batch_summary (w_fs w) items.
Proof.
  rewrite copy_batch_unfold.
  destruct (sum_sizes _ 0 w) as [[t|e] w2] eqn:E; [|discriminate].
  apply sum_sizes_inv in E as [-> [-> _]].
  destruct (batch_loop _ _ _ _ _ _ _ _ _ w) as [[u|e] w2]; [|discriminate].
  intros [= <- <-]. reflexivity.
Qed.

(** In manifest mode, on the manifest the window writes, the helper runs
    the batch of the manifest with the options of the manifest, whatever
    its own flags and positional arguments: it prints the summary when the
    batch returns, and fails as the batch fails. *)
Theorem main_runs_manifest args items pm ch w :
  a_manifest args = true ->
  main sha256 args (elevated_input items pm ch) w =
  match copy_batch sha256 (py_items items) pm ch None None w with
  | (Ok _, w1) =>
      (Ok tt,
       World (w_fs w1) (w_umask w1) (w_trace w1)
         (String.append (w_stdout w1)
            (printed (PDict [("ok", PBool true);
                             ("summary", batch_summary (w_fs w) items)]))))
  | (Err e, w1) => (Err e, w1)
  end.
Proof.
  intros Hm. unfold main, main_with. fold read_manifest. rewrite Hm. unfold bind at 1.
  rewrite read_manifest_input. unfold bind at 1.
  destruct (copy_batch sha256 (py_items items) pm ch None None w) as [[s|e] w1] eqn:E;
    [|reflexivity].
  rewrite (copy_batch_returns _ _ _ _ _ _ _ _ E). reflexivity.
Qed.

Lemma list_ascii_of_string_append a b :
  list_ascii_of_string (String.append a b) =
  list_ascii_of_string a ++ list_ascii_of_string b.
Proof.
  induction a as [|x a IH]; [reflexivity|].
  change (String.append (String x a) b) with (String x (String.append a b)).
  cbn [list_ascii_of_string app]. rewrite IH. reflexivity.
Qed.

(** What [print(json.dumps(v))] writes is read back as [v]. *)
Lemma json_loads_printed v : json_wf v -> json_loads (printed v) = Some v.
Proof.
  intros Hwf. unfold json_loads, printed, json_dumps.
  rewrite list_ascii_of_string_append, list_ascii_of_string_of_list_ascii.
  cbn [list_ascii_of_string].
  pose proof (dumps_parses v Hwf (S (List.length (dumps v ++ ["010"%char])))
                ["010"%char]) as H.
  rewrite H; [reflexivity| |reflexivity].
  pose proof (size_le_dumps v). rewrite length_app. lia.
Qed.

Lemma batch_summary_wf fs items :
  json_wf (PDict [("ok", PBool true); ("summary", batch_summary fs items)]).
Proof.
  apply json_wf_dict. split.
  - cbn. repeat (constructor; [rewrite ?elem_of_cons, elem_of_nil; intuition discriminate|]).
    constructor.
  - constructor; [exact I|]. constructor; [|constructor].
    cbn [snd]. unfold batch_summary. apply json_wf_dict. split.
    + cbn. repeat (constructor; [rewrite ?elem_of_cons, elem_of_nil; intuition discriminate|]).
      constructor.
    + repeat constructor.
Qed.

Lemma printed_not_empty kvs : String.eqb (printed (PDict kvs)) "" = false.
Proof.
  unfold printed, json_dumps. rewrite dumps_dict. reflexivity.
Qed.

(** The window and the helper agree.  When the helper is run in manifest
    mode on the manifest the window wrote, with an empty standard output,
    and the window reads its exit status and its standard output: after a
    batch that returned, the window shows the number of items and the
    total size of the sources; after a batch that failed, it raises a
    [RuntimeError] made of the text of the error stream, or of a fixed
    message when that text is blank. *)
Theorem elevated_batch_report args items pm ch w r w1 err :
  a_manifest args = true ->
  w_stdout w = ""%string ->
  main sha256 args (elevated_input items pm ch) w = (r, w1) ->
  read_answer (Z.of_nat (List.length items))
    (Completed (exit_status r) (w_stdout w1) err) =
  match r with
  | Ok _ => inr (PInt (Z.of_nat (List.length items)),
                 PInt (total_source_size (w_fs w) items))
  | Err _ => inl (RuntimeError_of (PStr (str_or (strip err) FAILED_MSG)))
  end.
Proof.
  intros Hm Hout H. unfold main, main_with in H. fold read_manifest in H.
  rewrite Hm in H. unfold bind in H at 1.
  rewrite read_manifest_input in H. unfold bind in H at 1.
  destruct (copy_batch sha256 (py_items items) pm ch None None w) as [[s|e] w2] eqn:E;
    destruct (quiet_copy_batch sha256 _ _ _ _ _ _ E) as [Hs He].
  1: rewrite (copy_batch_returns _ _ _ _ _ _ _ _ E) in H.
  all: injection H as <- <-.
  - unfold read_answer. cbn [returncode stdout exit_status Z.eqb negb w_stdout].
    fold (printed (PDict [("ok", PBool true); ("summary", batch_summary (w_fs w) items)])).
    rewrite Hs, Hout. change (String.append "" ?x) with x.
    unfold str_or. rewrite printed_not_empty.
    rewrite json_loads_printed by apply batch_summary_wf.
    reflexivity.
  - unfold read_answer. cbn [returncode stderr].
    rewrite exit_status_Exception by (apply He; reflexivity). reflexivity.
Qed.

(** *** workers.py *)

Lemma worker_cb_passive c :
  cb_passive (Some (worker_cb c)) (fun copied total => [EvItemProgress copied total]).
Proof.
  intros copied total w r w1. cbn. unfold worker_cb.
  destruct (c _); intros [= <- <-].
  - exists []. split; [apply evolves_refl|]. split; [apply prefix_nil|discriminate].
  - eexists [_]. split; [reflexivity|]. split; [done|auto].
Qed.

Lemma worker_pcb_passive c :
  pcb_passive (Some (worker_pcb c)) (fun a t i n => [EvProgress a t i n]).
Proof.
  intros a t i n w r w1. cbn. unfold worker_pcb.
  destruct (c _); intros [= <- <-].
  - exists []. split; [apply evolves_refl|]. split; [apply prefix_nil|discriminate].
  - eexists [_]. split; [reflexivity|]. split; [done|auto].
Qed.

(** In a plain world, for plain path strings and a source whose size
    goes through the [progress] signal unchanged, [CopyWorker.run] ends
    with one signal and lets no exception escape.  [done] carries the
    result of the transfer, and the destination then holds the bytes of
    the source; [failed] is due to an [OSError] or to the cancellation. *)
Theorem CopyWorker_run_signals cancelled s d pm ch w :
  plain_world w = true -> plain s = true -> plain d = true ->
  fits_int (size_at (w_fs w) (Path_of_str s)) = true ->
  exists sig w1,
    CopyWorker_run sha256 cancelled (PStr s) (PStr d) pm ch w = (Ok sig, w1) /\
    match sig with
    | SigDone res =>
        exists m0 d0 m1,
          let data := if bool_decide (Path_of_str s = Path_of_str d) then [] else d0 in
          w_fs w !! Path_of_str s = Some (File m0 d0) /\
          w_fs w1 !! Path_of_str d = Some (File m1 data) /\
          res = PDict [("bytes", PInt (Z.of_nat (List.length d0)));
                       ("hash", if ch then PStr (digest_of sha256 BUFFER data) else PNone);
                       ("dst", PStr (posix_str d))]
    | SigFailed e => is_OSError e = true \/ e = CANCELLED
    end.
Proof.
  intros _ _ _ _. unfold CopyWorker_run, try_except, bind.
  destruct (copy_with_progress sha256 (PStr s) (PStr d) pm ch
              (Some (worker_cb cancelled)) w) as [[res|e] w1] eqn:E;
    destruct (copy_with_progress_inv _ _ _ _ _ _ _ _ _ _ (worker_cb_passive cancelled) E)
      as (mk & fs0 & Hmk & Hgr & [(e' & evo & He' & Hos & _ & _)|
          (m0 & d0 & m1 & k & evl & tl & Hs & _ & _ & _ & Hev & _ & _ & _ & _ & _ & Hr)]);
    try discriminate.
  - eexists _, _. split; [reflexivity|]. cbn zeta in Hev, Hr.
    destruct Hr as (-> & _ & _ & _ & ->). rewrite firstn_all, concat_blocks in Hev.
    exists m0, d0, m1. cbn zeta. split; [assumption|]. split; [|reflexivity].
    rewrite (evolves_fs _ _ _ _ Hev). apply lookup_insert_eq.
  - injection He' as <-. rewrite (OSError_Exception _ Hos).
    eexists _, _. split; [reflexivity|]. left. assumption.
  - cbn zeta in Hr. destruct Hr as [((c & t & w0 & w0' & Hcall) & _)|(Hos & _)].
    + cbn in Hcall. unfold worker_cb in Hcall.
      destruct (cancelled _); [|discriminate]. injection Hcall as <- _.
      eexists _, _. split; [reflexivity|]. right. reflexivity.
    + rewrite (OSError_Exception _ Hos).
      eexists _, _. split; [reflexivity|]. left. assumption.
Qed.

(** In a plain world, for a batch of plain path strings none of whose
    destinations is a source, and whose total size and number of items go
    through the signals unchanged, [BatchCopyWorker.run] ends with one
    signal and lets no exception escape.  [done] carries the summary of
    the batch (total size of the sources at the start, number of items),
    and every item is then in place when the destinations are distinct;
    [failed] is due to an [OSError] or to the cancellation. *)
Theorem BatchCopyWorker_run_signals cancelled items pm ch w :
  plain_world w = true -> forallb plain_item items = true ->
  sources_untouched items ->
  fits_int (total_source_size (w_fs w) items) = true ->
  fits_int (Z.of_nat (List.length items)) = true ->
  exists sig w1,
    BatchCopyWorker_run sha256 cancelled (py_items items) pm ch w = (Ok sig, w1) /\
    match sig with
    | SigDone summary =>
        summary = batch_summary (w_fs w) items /\
        (dsts_distinct items -> Forall (in_place (w_fs w) (w_fs w1) pm) items)
    | SigFailed e => is_OSError e = true \/ e = CANCELLED
    end.
Proof.
  intros _ _ Hunt _ _. unfold BatchCopyWorker_run, try_except, bind.
  change (Some worker_fdb) with (option_map batch_file_done_cb (Some never)).
  destruct (copy_batch sha256 (py_items items) pm ch (Some (worker_pcb cancelled))
              (option_map batch_file_done_cb (Some never)) w) as [[summary|e] w1] eqn:E;
    destruct (copy_batch_inv _ _ _ _ _ _ _ _ _ _ (worker_pcb_passive cancelled) E)
      as (evs & k & _ & _ & Hpl & _ & Hok & Herr).
  - eexists _, _. split; [reflexivity|].
    split; [eapply copy_batch_returns; eassumption|].
    intros Hdis. specialize (Hpl Hunt Hdis).
    rewrite (Hok _ eq_refl), firstn_all in Hpl. exact Hpl.
  - destruct (Herr e eq_refl) as [Hos|[(a & t & i & n & w0 & w0' & Hcall)|(h & tr & [= <-] & Hh)]].
    + rewrite (OSError_Exception _ Hos).
      eexists _, _. split; [reflexivity|]. left. assumption.
    + cbn in Hcall. unfold worker_pcb in Hcall.
      destruct (cancelled _); [|discriminate]. injection Hcall as <- _.
      eexists _, _. split; [reflexivity|]. right. reflexivity.
    + discriminate.
Qed.

Lemma blocks_nonempty (d0 : list byte) :
  d0 <> [] ->
  exists rest, blocks BUFFER d0 = take (Z.to_nat BUFFER) d0 :: rest.
Proof.
  intros Hne. unfold blocks. destruct d0 as [|b d0]; [congruence|].
  cbn [List.length blocks_upto]. rewrite take_z_take.
  assert (Hpos : (0 < Z.to_nat BUFFER)%nat) by (unfold BUFFER; lia).
  destruct (Z.to_nat BUFFER) as [|n]; [lia|]. cbn [take]. eauto.
Qed.

(** The state in which a transfer is left when the first call of its
    callback raises: the destination exists and holds the first block. *)
Lemma copy_with_progress_first_call s d pm ch cb e w m0 d0 md :
  let srcp := Path_of_str s in
  let dstp := Path_of_str d in
  (forall c t w0, cb c t w0 = (Err e, w0)) ->
  srcp <> dstp ->
  w_fs w !! srcp = Some (File m0 d0) -> can_read m0 = true -> d0 <> [] ->
  w_fs w !! parent dstp = Some (Dir md) -> can_write md = true ->
  (w_fs w !! dstp = None \/
   exists m d1, w_fs w !! dstp = Some (File m d1) /\ can_write m = true) ->
  copy_with_progress sha256 (PStr s) (PStr d) pm ch (Some cb) w =
  (Err e,
   World (<[dstp := File (opened_mode w dstp) (take (Z.to_nat BUFFER) d0)]> (w_fs w))
     (w_umask w)
     (w_trace w ++ [EvOpenR srcp; EvOpenW dstp; EvWrite dstp (take (Z.to_nat BUFFER) d0)])
     (w_stdout w)).
Proof.
  intros srcp dstp Hcb Hne Hs Hcr Hd0 Hpar Hcw Hdst.
  unfold copy_with_progress. cbn [Path]. rewrite !bind_ret. fold srcp dstp.
  unfold bind at 1. unfold path_stat at 1. rewrite Hs.
  unfold bind at 1. unfold path_mkdir_parents. rewrite (path_mkdir_exists _ _ _ _ Hpar).
  unfold bind at 1. unfold open_rb. rewrite Hs, Hcr.
  unfold bind at 1.
  assert (Hopen : open_wb dstp (emit (EvOpenR srcp) w) =
            (Ok (WFile dstp),
             emit (EvOpenW dstp)
               (set_fs (<[dstp := File (opened_mode w dstp) []]> (w_fs w))
                  (emit (EvOpenR srcp) w)))).
  { unfold open_wb, opened_mode. cbn [w_fs emit].
    destruct Hdst as [Hd|(m & d1 & Hd & Hw)]; rewrite Hd.
    - rewrite Hpar, Hcw. reflexivity.
    - rewrite Hw. reflexivity. }
  rewrite Hopen. clear Hopen.
  unfold bind at 1. rewrite read_blocks_spec. cbn [w_fs emit set_fs].
  rewrite lookup_insert_ne by congruence. rewrite Hs.
  destruct (blocks_nonempty d0 Hd0) as [rest ->].
  unfold bind at 1. cbn [copy_loop]. unfold bind at 1.
  unfold f_write. cbn [wf_path w_fs emit set_fs]. rewrite lookup_insert_eq.
  unfold bind at 1. rewrite Hcb.
  unfold emit, set_fs. cbn. rewrite insert_insert_eq, <- !app_assoc. reflexivity.
Qed.



End Callers.

(** ** The window: planning a copy *)

Section Planning.

Variable order : path -> list string -> list string.

Hypothesis order_perm : forall p l, order p l ≡ₚ l.

Lemma probed_refl fs : probed fs fs.
Proof. intros q. left. reflexivity. Qed.

Lemma probed_trans fs1 fs2 fs3 : probed fs1 fs2 -> probed fs2 fs3 -> probed fs1 fs3.
Proof.
  intros H1 H2 q. destruct (H1 q) as [E1|(Hn & Hf & H1')], (H2 q) as [E2|(Hn2 & Hf2 & H2')].
  - left. congruence.
  - right. rewrite <- E1. auto.
  - right. rewrite E2. auto.
  - right. auto.
Qed.

Lemma probed_dir fs fs' (q : path) m :
  probed fs fs' -> fs' !! q = Some (Dir m) <-> fs !! q = Some (Dir m).
Proof.
  intros H. destruct (H q) as [E|(_ & (m0 & d0 & Hf) & [Hn|(m1 & d1 & Hf')])].
  - rewrite E. reflexivity.
  - rewrite Hf, Hn. split; discriminate.
  - rewrite Hf, Hf'. split; discriminate.
Qed.

Lemma probed_base fs fs' (p : path) : probed fs fs' -> probe_base fs' p = probe_base fs p.
Proof.
  intros H. unfold probe_base.
  destruct (fs' !! p) as [[m d|m]|] eqn:E'.
  - destruct (fs !! p) as [[m0 d0|m0]|] eqn:E; try reflexivity.
    apply (probed_dir _ _ p m0 H) in E. congruence.
  - apply (probed_dir _ _ p m H) in E'. rewrite E'. reflexivity.
  - destruct (fs !! p) as [[m0 d0|m0]|] eqn:E; try reflexivity.
    apply (probed_dir _ _ p m0 H) in E. congruence.
Qed.

Lemma probe_write_probed d w r w' :
  probe_write d w = (r, w') ->
  probed (w_fs w) (w_fs w') /\ w_umask w' = w_umask w /\ w_stdout w' = w_stdout w.
Proof.
  unfold probe_write. set (marker := joinpath d WRITE_TEST).
  assert (Hn : name marker = WRITE_TEST) by apply name_joinpath.
  pose proof (parent_joinpath d WRITE_TEST) as Hpar. fold marker in Hpar.
  unfold bind, open_wb.
  destruct (w_fs w !! marker) as [[m' data|m']|] eqn:Em;
    [destruct (can_write m') eqn:Cw| |];
    rewrite ?Hpar;
    destruct (w_fs w !! d) as [[m0 d0|m0]|] eqn:Ed;
    try destruct (can_write m0) eqn:Cw0;
    unfold f_write, path_unlink_missing_ok; cbn;
    rewrite ?lookup_insert_eq; cbn; rewrite ?lookup_insert_eq, ?Hpar;
    rewrite ?lookup_insert_ne by (intros E; symmetry in E; revert E; apply joinpath_neq);
    rewrite ?Ed, ?Cw0; cbn.
  all: intros [= <- <-]; cbn; (split; [|split; reflexivity]).
  all: intros q; destruct (decide (q = marker)) as [->|Hq];
    [|left; rewrite ?lookup_delete_ne, ?lookup_insert_ne by congruence; reflexivity].
  all: try (left; rewrite ?lookup_delete_eq, ?lookup_insert_eq; congruence).
  all: right; (split; [assumption|]); (split; [eauto|]);
       rewrite ?lookup_delete_eq, ?lookup_insert_eq; eauto.
Qed.

Lemma Path_of_str_idem s : Path_of_str (str_of_path (Path_of_str s)) = Path_of_str s.
Proof. apply Path_of_str_of_path, Path_of_str_valid. Qed.

Lemma needs_elevation_spec s w :
  let d := probe_base (w_fs w) (Path_of_str s) in
  exists b w', needs_elevation s w = (Ok b, w') /\
    probed (w_fs w) (w_fs w') /\ w_umask w' = w_umask w /\ w_stdout w' = w_stdout w /\
    (b = false -> exists m, w_fs w !! d = Some (Dir m) /\ can_write m = true) /\
    (w_fs w !! joinpath d WRITE_TEST = None ->
     (forall m, w_fs w !! d = Some (Dir m) -> can_write m = false) ->
     b = true /\ w' = w).
Proof.
  intros d. unfold needs_elevation, bind. rewrite path_writable_probe. fold d.
  destruct (probe_write d w) as [r w'] eqn:E.
  pose proof (probe_write_probed _ _ _ _ E) as (Hp & Hu & Ho).
  destruct (probe_write_cases d w) as [[Hacc E']|(Hna & e & w'' & E' & He & Hfr & Hnone)];
    rewrite E in E'; injection E' as -> ->.
  - eexists _, _. split; [reflexivity|]. repeat (split; [assumption|]).
    split; [intros _; apply Hacc|].
    intros _ Hnw. destruct Hacc as [(m & Hd & Hm) _]. rewrite (Hnw m Hd) in Hm. discriminate.
  - rewrite He. eexists _, _. split; [reflexivity|]. repeat (split; [assumption|]).
    split; [discriminate|]. intros Hm _. split; [reflexivity|auto].
Qed.

Lemma any_needs_elevation_spec items : forall w,
  exists b w', any_needs_elevation items w = (Ok b, w') /\
    probed (w_fs w) (w_fs w') /\ w_umask w' = w_umask w /\ w_stdout w' = w_stdout w /\
    (b = false -> Forall (dst_dir_writable (w_fs w')) items).
Proof.
  induction items as [|it rest IH]; intros w.
  - eexists _, _. split; [reflexivity|]. split; [apply probed_refl|]. auto.
  - cbn [any_needs_elevation]. unfold bind at 1.
    destruct (needs_elevation_spec (str_of_path (Path_of_str (dst it))) w)
      as (b & w1 & E & Hp & Hu & Ho & Hb & _).
    rewrite Path_of_str_idem in Hb. rewrite E. destruct b.
    + eexists _, _. split; [reflexivity|]. repeat (split; [assumption|]). discriminate.
    + destruct (IH w1) as (b' & w2 & E2 & Hp2 & Hu2 & Ho2 & Hb2). rewrite E2.
      eexists _, _. split; [reflexivity|].
      split; [eapply probed_trans; eassumption|].
      split; [congruence|]. split; [congruence|].
      intros ->. constructor; [|auto].
      destruct (Hb eq_refl) as (m & Hd & Hm). exists m. split; [|assumption].
      pose proof (probed_trans _ _ _ Hp Hp2) as Hp'.
      rewrite (probed_base _ _ _ Hp'). apply (probed_dir _ _ _ m Hp'). assumption.
Qed.

Lemma ensure_dir_spec (d : path) w :
  exists r w1 evs, ensure_dir d w = (Ok r, w1) /\
    evolves w w1 (w_fs w1) evs /\
    grown (w_fs w) (w_fs w1) (created_mode MODE_777 w) d /\
    (r = None -> exists m, w_fs w1 !! d = Some (Dir m)).
Proof.
  unfold ensure_dir, try_except, bind, path_mkdir_parents.
  destruct (path_mkdir (List.length d) d w) as [[[]|e] w1] eqn:E;
    apply path_mkdir_grown in E as (evs & fs1 & Hev & _ & Hgr & Herr & Hok);
    pose proof (evolves_fs _ _ _ _ Hev) as Hfs; subst fs1.
  - eexists _, _, evs. split; [reflexivity|]. split; [assumption|]. split; [assumption|].
    intros _. apply (Hok tt eq_refl).
  - rewrite (OSError_Exception _ (Herr e eq_refl)).
    eexists _, _, evs. split; [reflexivity|]. split; [assumption|]. split; [assumption|].
    discriminate.
Qed.

Lemma ensure_dir_exists (d : path) w m :
  w_fs w !! d = Some (Dir m) -> ensure_dir d w = (Ok None, w).
Proof.
  intros H. unfold ensure_dir, try_except, bind, path_mkdir_parents.
  rewrite (path_mkdir_exists _ _ _ _ H). reflexivity.
Qed.

Lemma names_valid_grown fs fs1 mode (d : path) :
  names_valid fs -> grown fs fs1 mode d -> forallb valid_name d = true ->
  names_valid fs1.
Proof.
  intros Hv Hg Hd q n Hq. destruct (Hg q) as [E|(_ & _ & [k ->] & _)].
  - rewrite E in Hq. eapply Hv. eassumption.
  - rewrite forallb_valid_app in Hd. apply andb_prop in Hd. tauto.
Qed.

Lemma plan_sources_Some dest_root sources fs :
  names_valid fs ->
  forall acc, exists items, plan_sources order dest_root sources fs acc = Some items.
Proof.
  intros Hv. induction sources as [|s rest IH]; intros acc; cbn [plan_sources].
  - eauto.
  - destruct (meta_is_dir s); [|apply IH].
    destruct (walk_tree_explicit order order_perm
                (str_of_path (Path_of_str (meta_path s)))
                (str_of_path (join_name dest_root (name (Path_of_str (meta_path s)))))
                fs Hv) as (E & _).
    rewrite E. apply IH.
Qed.

Lemma launch_spec ask self dst_input items w :
  exists o w1, launch ask self dst_input items w = (Ok o, w1) /\
    probed (w_fs w) (w_fs w1) /\ w_umask w1 = w_umask w /\ w_stdout w1 = w_stdout w /\
    o <> ValueError_raised /\
    (forall its pm ch st, o = Started its pm ch st ->
       its = items /\ items <> [] /\ pm = chk_preserve self /\ ch = chk_hash self /\
       Forall (dst_dir_writable (w_fs w1)) items).
Proof.
  unfold launch. destruct items as [|it rest].
  { eexists _, _. split; [reflexivity|]. split; [apply probed_refl|].
    repeat (split; [done|]). discriminate. }
  set (items := it :: rest). cbv zeta.
  match goal with |- context [if ?c then (Ok (Declined _), _) else _] => destruct c end.
  { eexists _, _. split; [reflexivity|]. split; [apply probed_refl|].
    repeat (split; [done|]). discriminate. }
  unfold bind.
  destruct (any_needs_elevation_spec items w) as (b & w1 & E & Hp & Hu & Ho & Hb).
  rewrite E. destruct b; eexists _, _; (split; [reflexivity|]);
    repeat (split; [assumption|]); (split; [discriminate|]).
  - discriminate.
  - intros its pm ch st [= <- <- <- <-]. repeat (split; [done|]). auto.
Qed.

Lemma planned_spec sources s dst_input w :
  exists r w0 evs (d : path),
    (if single_source sources then plan_single s dst_input
     else plan_multi order sources dst_input) w = (Ok r, w0) /\
    evolves w w0 (w_fs w0) evs /\
    grown (w_fs w) (w_fs w0) (created_mode MODE_777 w) d /\
    forallb valid_name d = true /\
    (names_valid (w_fs w) -> r <> inl ValueError_raised).
Proof.
  assert (Hpar : forallb valid_name (parent (Path_of_str dst_input)) = true).
  { apply forallb_removelast, Path_of_str_valid. }
  destruct (single_source sources).
  - unfold plan_single.
    destruct (if exists_b (w_fs w) (Path_of_str dst_input) &&
                 is_dir_b (w_fs w) (Path_of_str dst_input)
              then _ else _) as [base_dir final_dst] eqn:Eb.
    assert (Hbase : forallb valid_name base_dir = true).
    { destruct (andb _ _) in Eb; [|destruct (ends_with_sep dst_input) in Eb];
        injection Eb as <- <-; auto using Path_of_str_valid. }
    unfold bind.
    destruct (ensure_dir_spec base_dir w) as (r & w0 & evs & E & Hev & Hgr & _).
    rewrite E. destruct r; eexists _, w0, evs, base_dir; (split; [reflexivity|]);
      repeat (split; [assumption|]); discriminate.
  - unfold plan_multi.
    cbv zeta.
    set (dest_root := if exists_b (w_fs w) (Path_of_str dst_input) &&
                         is_dir_b (w_fs w) (Path_of_str dst_input)
                      then Path_of_str dst_input
                      else if ends_with_sep dst_input then Path_of_str dst_input
                           else Path_of_str dst_input).
    assert (Hroot : forallb valid_name dest_root = true).
    { subst dest_root. destruct (andb _ _); [|destruct (ends_with_sep dst_input)];
        apply Path_of_str_valid. }
    unfold bind.
    destruct (ensure_dir_spec dest_root w) as (r & w0 & evs & E & Hev & Hgr & _).
    rewrite E. destruct r.
    + eexists _, w0, evs, dest_root. split; [reflexivity|].
      repeat (split; [assumption|]). discriminate.
    + destruct (plan_sources order dest_root sources (w_fs w0) []) as [items|] eqn:Ep.
      * eexists _, w0, evs, dest_root. split; [reflexivity|].
        repeat (split; [assumption|]). discriminate.
      * eexists _, w0, evs, dest_root. split; [reflexivity|].
        repeat (split; [assumption|]). intros Hv. exfalso.
        destruct (plan_sources_Some dest_root sources (w_fs w0)
                    (names_valid_grown _ _ _ _ Hv Hgr Hroot) []) as [items E'].
        congruence.
Qed.

Lemma fs_wf_below fs (q : path) :
  fs_wf fs -> fs !! q = None -> forall rel : path, fs !! (q ++ rel) = None.
Proof.
  intros Hwf Hq rel. induction rel as [|c rel IH] using rev_ind.
  - rewrite app_nil_r. assumption.
  - destruct (fs !! (q ++ rel ++ [c])) as [n|] eqn:E; [|reflexivity].
    destruct (Hwf _ _ E) as [m Hm].
    + destruct q, rel; discriminate.
    + unfold parent in Hm. rewrite app_assoc, removelast_last in Hm.
      pose proof (eq_trans (eq_sym IH) Hm) as H0. discriminate.
Qed.

Lemma walk_tree_dsts src_dir dest_root fs pairs :
  names_valid fs ->
  walk_tree order src_dir dest_root fs = Some pairs ->
  Forall (fun sd : string * string =>
            exists rel : path, rel <> [] /\
              Path_of_str sd.2 = resolve (Path_of_str dest_root) ++ rel) pairs.
Proof.
  intros Hv Hw.
  destruct (walk_tree_explicit order order_perm src_dir dest_root fs Hv) as (E & _ & Hin).
  rewrite Hw in E. injection E as ->. apply Forall_forall. intros sd Hsd.
  apply elem_of_map in Hsd as (f & -> & Hf).
  apply Hin in Hf as (rel & -> & Hne & _ & (m & d & Hfile)).
  exists rel. split; [assumption|]. unfold mirror_pair. cbn [snd].
  rewrite drop_app_length. apply Path_of_str_of_path.
  rewrite forallb_valid_app. apply andb_true_intro. split.
  - apply resolve_valid, Path_of_str_valid.
  - apply (forallb_valid_app_r (resolve (Path_of_str src_dir))). eapply Hv. eassumption.
Qed.

(** When [_start_copy] starts the worker, the batch is not empty, it has
    the two options of the window, and every destination lies in (or is) an
    existing directory that has just passed the write probe. *)
Theorem start_copy_started ask self w items pm ch st w1 :
  _start_copy order ask self w = (Ok (Started items pm ch st), w1) ->
  items <> [] /\ pm = chk_preserve self /\ ch = chk_hash self /\
  Forall (dst_dir_writable (w_fs w1)) items.
Proof.
  unfold _start_copy.
  destruct (collect_sources (w_fs w) (sources_list self)) as [|s rest] eqn:Es;
    [discriminate|].
  destruct (String.eqb (strip (dst_edit self)) ""); [discriminate|].
  unfold bind.
  destruct (planned_spec (s :: rest) s (strip (dst_edit self)) w)
    as (r & w0 & evs & d & E & _).
  rewrite E. destruct r as [o|its].
  - intros [= -> <-]. exfalso. revert E. clear. intros E.
    destruct (single_source (s :: rest)).
    + unfold plan_single in E.
      destruct (if exists_b _ _ && is_dir_b _ _ then _ else _) as [b f].
      unfold bind in E. destruct (ensure_dir b w) as [[[e|]|e] w']; discriminate.
    + unfold plan_multi, bind in E.
      destruct (ensure_dir _ w) as [[[e|]|e] w']; try discriminate.
      destruct (plan_sources _ _ _ _ _); discriminate.
  - destruct (launch_spec ask self (strip (dst_edit self)) its w0)
      as (o & w2 & El & _ & _ & _ & _ & Hst).
    rewrite El. intros [= -> ->].
    destruct (Hst _ _ _ _ eq_refl) as (-> & H). exact H.
Qed.


(** In a plain world and for a window whose paths are plain, a folder is
    always copied by the elevated helper when the destination holds
    nothing of its name yet, even into a directory the user may write:
    the directories of the copies do not exist when the destinations are
    probed, and a probe that cannot create its marker counts as a
    refusal.  Nothing is changed before the helper is called, and the
    user is asked nothing. *)
Theorem start_copy_folder_elevates ask self w txt p m pairs :
  let dst_input := strip (dst_edit self) in
  let dst_p := Path_of_str dst_input in
  let sub := join_name dst_p (name (Path_of_str p)) in
  plain_world w = true -> plain_window (w_fs w) self = true ->
  fs_wf (w_fs w) -> names_valid (w_fs w) ->
  sources_list self = [ListItem txt (Some (Meta p true))] ->
  dst_input <> ""%string ->
  w_fs w !! dst_p = Some (Dir m) ->
  w_fs w !! resolve sub = None ->
  walk_tree order (str_of_path (Path_of_str p)) (str_of_path sub) (w_fs w) = Some pairs ->
  pairs <> [] ->
  _start_copy order ask self w =
  (Ok (Elevated (items_of_pairs pairs) (saved_settings (w_fs w) dst_input)), w).
Proof.
  intros dst_input dst_p sub _ _ Hwf Hv Hsrc Hin Hdst Hsub Hwalk Hne.
  assert (Hvsub : forallb valid_name sub = true).
  { unfold sub, join_name. rewrite forallb_valid_app.
    apply andb_true_intro. split; apply Path_of_str_valid. }
  pose proof (walk_tree_dsts _ _ _ _ Hv Hwalk) as Hd.
  rewrite (Path_of_str_of_path _ Hvsub) in Hd.
  assert (Hmiss : Forall (fun it => exists rel : path, rel <> [] /\
                            Path_of_str (dst it) = resolve sub ++ rel)
                    (items_of_pairs pairs)).
  { unfold items_of_pairs. apply Forall_forall. intros it Hit.
    apply elem_of_map in Hit as (sd & -> & Hsd).
    rewrite Forall_forall in Hd. apply (Hd sd Hsd). }
  unfold _start_copy. rewrite Hsrc. cbn [collect_sources List.map it_data meta_path meta_is_dir].
  fold dst_input. apply String.eqb_neq in Hin. rewrite Hin.
  cbn [single_source negb meta_is_dir]. unfold bind at 1. unfold plan_multi. fold dst_p.
  unfold exists_b, is_dir_b. cbv beta. rewrite Hdst. cbn [andb]. unfold bind at 1.
  rewrite (ensure_dir_exists _ _ _ Hdst). cbn [plan_sources meta_is_dir meta_path].
  fold sub. rewrite Hwalk. cbn [app].
  unfold launch.
  destruct (items_of_pairs pairs) as [|it rest] eqn:Eits.
  { destruct pairs; [congruence|discriminate]. }
  assert (Hconf : List.filter (fun i => exists_b (w_fs w) (Path_of_str (dst i))) (it :: rest)
                  = []).
  { clear -Hmiss Hwf Hsub. induction (it :: rest) as [|a l IH]; [reflexivity|].
    apply Forall_cons in Hmiss as [(rel & _ & Ea) Hl]. cbn [List.filter].
    unfold exists_b at 1. rewrite Ea, (fs_wf_below _ _ Hwf Hsub). auto. }
  rewrite Hconf, andb_false_r.
  cbn [any_needs_elevation]. unfold bind.
  apply Forall_cons in Hmiss as [(rel & Hrel & Eit) _].
  destruct (needs_elevation_spec (str_of_path (Path_of_str (dst it))) w)
    as (b & w' & E & _ & _ & _ & _ & Htrue).
  rewrite Path_of_str_idem, Eit in Htrue.
  assert (Hbase : probe_base (w_fs w) (resolve sub ++ rel) = resolve sub ++ removelast rel).
  { unfold probe_base. rewrite (fs_wf_below _ _ Hwf Hsub).
    unfold parent. apply removelast_app. assumption. }
  rewrite Hbase in Htrue. destruct Htrue as [-> ->].
  - unfold joinpath. rewrite <- app_assoc. apply (fs_wf_below _ _ Hwf Hsub).
  - intros m0 Hm0. rewrite (fs_wf_below _ _ Hwf Hsub) in Hm0. discriminate.
  - rewrite E. reflexivity.
Qed.

(** The destination folder is created before anything else is
    considered.  In a plain world and for a window whose paths are plain,
    when that folder does not exist and lies in a directory the user may
    not write, [_start_copy] stops with the error of [mkdir]: the elevated
    helper is not tried, and nothing is changed. *)
Theorem start_copy_cannot_create ask self w m :
  let sources := collect_sources (w_fs w) (sources_list self) in
  let dst_input := strip (dst_edit self) in
  let dst_p := Path_of_str dst_input in
  plain_world w = true -> plain_window (w_fs w) self = true ->
  sources <> [] ->
  (single_source sources = true -> ends_with_sep dst_input = true) ->
  dst_input <> ""%string ->
  w_fs w !! dst_p = None ->
  w_fs w !! parent dst_p = Some (Dir m) -> can_write m = false ->
  _start_copy order ask self w = (Ok (CannotCreate (PermissionError dst_p)), w).
Proof.
  intros sources dst_input dst_p _ _ Hne Hsingle Hin Hdst Hpar Hm.
  assert (Hmk : ensure_dir dst_p w = (Ok (Some (PermissionError dst_p)), w)).
  { unfold ensure_dir, try_except, bind, path_mkdir_parents.
    assert (E : path_mkdir (List.length dst_p) dst_p w = (Err (PermissionError dst_p), w)).
    { destruct (List.length dst_p); cbn [path_mkdir]; unfold try_except, os_mkdir;
        rewrite Hdst, Hpar, Hm; cbn [is_OSError is_FileNotFoundError];
        unfold bind, path_is_dir; rewrite Hdst; reflexivity. }
    rewrite E. reflexivity. }
  unfold _start_copy. fold sources dst_input.
  destruct sources as [|s rest] eqn:Es; [congruence|].
  apply String.eqb_neq in Hin. rewrite Hin. unfold bind at 1.
  destruct (single_source (s :: rest)) eqn:Ess.
  - unfold plan_single. fold dst_p. unfold exists_b. rewrite Hdst. cbn [andb].
    rewrite (Hsingle eq_refl). unfold bind. rewrite Hmk. reflexivity.
  - unfold plan_multi. fold dst_p. unfold exists_b. rewrite Hdst. cbn [andb].
    assert (Er : (if ends_with_sep dst_input then dst_p else dst_p) = dst_p)
      by (destruct (ends_with_sep dst_input); reflexivity).
    rewrite Er. unfold bind. rewrite Hmk. reflexivity.
Qed.

End Planning.

(** ** Further properties on the examples *)

Lemma never_passive :
  cb_passive (Some (item_progress_cb never)) (item_events (Some never)).
Proof. apply cb_emits_passive. exact (item_cb_emits (Some never)). Qed.

Lemma none_pcb_passive : pcb_passive None (batch_events None).
Proof. exact (observer_pcb_passive None). Qed.

Lemma example_distinct : dsts_distinct [item_a; item_c].
Proof. unfold dsts_distinct. apply (bool_decide_unpack _). vm_compute. reflexivity. Qed.

Lemma as_listed_perm : forall (p : path) (l : list string), as_listed p l ≡ₚ l.
Proof. reflexivity. Qed.

Lemma tree_names_valid : names_valid tree_fs.
Proof. apply names_valid_b_sound. vm_compute. reflexivity. Qed.




Lemma copy_with_progress_bad_source_witness :
  plain_world example_world = true /\ plain "/src" = true /\
  plain "/out/new/src" = true /\
  (forall m d0, w_fs example_world !! Path_of_str "/src" = Some (File m d0) ->
                can_read m = false) /\
  exists r w1,
    copy_with_progress toy_hash (PStr "/src") (PStr "/out/new/src") true false None
      example_world = (r, w1) /\
    (exists e, r = Err e /\ is_OSError e = true) /\
    w_fs w1 !! Path_of_str "/out/new/src" = w_fs example_world !! Path_of_str "/out/new/src" /\
    (w_fs example_world !! Path_of_str "/src" = None ->
     (exists m, w_fs example_world !! parent (Path_of_str "/src") = Some (Dir m)) ->
     r = Err (FileNotFoundError (Path_of_str "/src")) /\ w1 = example_world).
Proof.
  assert (H : forall m d0, w_fs example_world !! Path_of_str "/src" = Some (File m d0) ->
                           can_read m = false).
  { intros m d0 E. vm_compute in E. discriminate. }
  split; [exact example_plain|]. split; [vm_compute; reflexivity|].
  split; [vm_compute; reflexivity|]. split; [exact H|].
  eexists _, _. split; [vm_compute; reflexivity|].
  eapply (copy_with_progress_bad_source toy_hash "/src" "/out/new/src" true false None
            example_world).
  - exact example_plain.
  - vm_compute. reflexivity.
  - vm_compute. reflexivity.
  - exact H.
  - vm_compute. reflexivity.
Defined.



Lemma copy_batch_copies_witness :
  forallb unaliased [item_a; item_c] = true /\
  pcb_passive None (batch_events None) /\
  sources_untouched [item_a; item_c] /\ dsts_distinct [item_a; item_c] /\
  exists s w1,
    copy_batch toy_hash (py_items [item_a; item_c]) true false None
      (option_map batch_file_done_cb None) example_world = (Ok s, w1) /\
    Forall (in_place (w_fs example_world) (w_fs w1) true) [item_a; item_c].
Proof.
  split; [reflexivity|].
  split; [exact none_pcb_passive|]. split; [exact example_untouched|].
  split; [exact example_distinct|].
  eexists _, _. split; [vm_compute; reflexivity|].
  eapply (copy_batch_copies toy_hash [item_a; item_c] true false None (batch_events None)
            None example_world).
  - reflexivity.
  - exact none_pcb_passive.
  - exact example_untouched.
  - exact example_distinct.
  - vm_compute. reflexivity.
Defined.


Lemma copy_batch_frame_witness :
  forallb unaliased [item_a; item_b; item_c] = true /\
  pcb_passive None (batch_events None) /\
  (forall it, it ∈ [item_a; item_b; item_c] -> Path_of_str "/src/c" <> Path_of_str (dst it)) /\
  w_fs example_world !! Path_of_str "/src/c" = Some (File 420 (list_byte_of_string "xyz")) /\
  exists r w1,
    copy_batch toy_hash (py_items [item_a; item_b; item_c]) true false None
      (option_map batch_file_done_cb None) example_world = (r, w1) /\
    w_fs w1 !! Path_of_str "/src/c" = Some (File 420 (list_byte_of_string "xyz")).
Proof.
  assert (H1 : forall it, it ∈ [item_a; item_b; item_c] ->
                 Path_of_str "/src/c" <> Path_of_str (dst it)).
  { intros it Hit. repeat (apply elem_of_cons in Hit as [->|Hit]; [vm_compute; discriminate|]).
    inversion Hit. }
  assert (H2 : w_fs example_world !! Path_of_str "/src/c" =
               Some (File 420 (list_byte_of_string "xyz"))) by (vm_compute; reflexivity).
  split; [reflexivity|].
  split; [exact none_pcb_passive|]. split; [exact H1|]. split; [exact H2|].
  eexists _, _. split; [vm_compute; reflexivity|].
  eapply (copy_batch_frame toy_hash [item_a; item_b; item_c] true false None
            (batch_events None) None example_world).
  - reflexivity.
  - exact none_pcb_passive.
  - vm_compute. reflexivity.
  - exact H1.
  - exact H2.
Defined.







Lemma main_runs_manifest_witness :
  a_manifest manifest_args = true /\
  main toy_hash manifest_args (elevated_input [item_a; item_c] true true) example_world =
  match copy_batch toy_hash (py_items [item_a; item_c]) true true None None example_world with
  | (Ok _, w1) =>
      (Ok tt,
       World (w_fs w1) (w_umask w1) (w_trace w1)
         (String.append (w_stdout w1)
            (printed (PDict [("ok", PBool true);
                             ("summary",
                              batch_summary (w_fs example_world) [item_a; item_c])]))))
  | (Err e, w1) => (Err e, w1)
  end.
Proof.
  assert (H : a_manifest manifest_args = true) by reflexivity.
  split; [exact H|].
  exact (main_runs_manifest toy_hash manifest_args [item_a; item_c] true true example_world H).
Defined.

Lemma elevated_batch_report_witness :
  a_manifest manifest_args = true /\
  w_stdout example_world = ""%string /\
  exists r w1,
    main toy_hash manifest_args (elevated_input [item_a; item_c] true false) example_world
      = (r, w1) /\
    read_answer (Z.of_nat (List.length [item_a; item_c]))
      (Completed (exit_status r) (w_stdout w1) "") =
    match r with
    | Ok _ => inr (PInt (Z.of_nat (List.length [item_a; item_c])),
                   PInt (total_source_size (w_fs example_world) [item_a; item_c]))
    | Err _ => inl (RuntimeError_of (PStr (str_or (strip "") FAILED_MSG)))
    end.
Proof.
  assert (H1 : a_manifest manifest_args = true) by reflexivity.
  assert (H2 : w_stdout example_world = ""%string) by reflexivity.
  split; [exact H1|]. split; [exact H2|].
  eexists _, _. split; [vm_compute; reflexivity|].
  eapply (elevated_batch_report toy_hash manifest_args [item_a; item_c] true false
            example_world _ _ "" H1 H2).
  vm_compute. reflexivity.
Defined.


Lemma folder_window_added :
  _add_source_item "/t" (set_dst " /out " empty_window) tree_world =
  (Ok folder_window, tree_world).
Proof. vm_compute. reflexivity. Qed.

Lemma tree_fs_wf : fs_wf (w_fs tree_world).
Proof. apply fs_wf_b_sound. vm_compute. reflexivity. Qed.

Lemma start_copy_started_witness :
  exists items pm ch st w1,
    _start_copy as_listed say_no files_window tree_world =
      (Ok (Started items pm ch st), w1) /\
    items <> [] /\ pm = chk_preserve files_window /\ ch = chk_hash files_window /\
    Forall (dst_dir_writable (w_fs w1)) items.
Proof.
  eexists _, _, _, _, _. split; [vm_compute; reflexivity|].
  eapply (start_copy_started as_listed as_listed_perm say_no files_window tree_world).
  vm_compute. reflexivity.
Defined.

Lemma tree_plain : plain_world tree_world = true.
Proof. vm_compute. reflexivity. Qed.


Lemma start_copy_folder_elevates_witness :
  plain_world tree_world = true /\ plain_window (w_fs tree_world) folder_window = true /\
  fs_wf (w_fs tree_world) /\ names_valid (w_fs tree_world) /\
  sources_list folder_window = [ListItem "[DIR] /t" (Some (Meta "/t" true))] /\
  strip (dst_edit folder_window) <> ""%string /\
  w_fs tree_world !! Path_of_str (strip (dst_edit folder_window)) = Some (Dir 493) /\
  w_fs tree_world !!
    resolve (join_name (Path_of_str (strip (dst_edit folder_window)))
               (name (Path_of_str "/t"))) = None /\
  exists pairs,
    walk_tree as_listed (str_of_path (Path_of_str "/t"))
      (str_of_path (join_name (Path_of_str (strip (dst_edit folder_window)))
                      (name (Path_of_str "/t"))))
      (w_fs tree_world) = Some pairs /\
    pairs <> [] /\
    _start_copy as_listed say_no folder_window tree_world =
    (Ok (Elevated (items_of_pairs pairs)
           (saved_settings (w_fs tree_world) (strip (dst_edit folder_window)))),
     tree_world).
Proof.
  assert (H1 : sources_list folder_window = [ListItem "[DIR] /t" (Some (Meta "/t" true))])
    by reflexivity.
  assert (H2 : strip (dst_edit folder_window) <> ""%string) by (vm_compute; discriminate).
  assert (H3 : w_fs tree_world !! Path_of_str (strip (dst_edit folder_window)) =
               Some (Dir 493)) by (vm_compute; reflexivity).
  assert (H4 : w_fs tree_world !!
                 resolve (join_name (Path_of_str (strip (dst_edit folder_window)))
                            (name (Path_of_str "/t"))) = None) by (vm_compute; reflexivity).
  assert (P1 : plain_window (w_fs tree_world) folder_window = true)
    by (vm_compute; reflexivity).
  split; [exact tree_plain|]. split; [exact P1|].
  split; [exact tree_fs_wf|]. split; [exact tree_names_valid|]. split; [exact H1|].
  split; [exact H2|]. split; [exact H3|]. split; [exact H4|].
  eexists. split; [vm_compute; reflexivity|]. split; [discriminate|].
  eapply (start_copy_folder_elevates as_listed as_listed_perm say_no folder_window
            tree_world "[DIR] /t" "/t" 493 _ tree_plain P1 tree_fs_wf tree_names_valid
            H1 H2 H3 H4).
  - vm_compute. reflexivity.
  - discriminate.
Defined.

Lemma start_copy_cannot_create_witness :
  plain_world example_world = true /\
  plain_window (w_fs example_world) protected_window = true /\
  collect_sources (w_fs example_world) (sources_list protected_window) <> [] /\
  (single_source (collect_sources (w_fs example_world) (sources_list protected_window))
     = true -> ends_with_sep (strip (dst_edit protected_window)) = true) /\
  strip (dst_edit protected_window) <> ""%string /\
  w_fs example_world !! Path_of_str (strip (dst_edit protected_window)) = None /\
  w_fs example_world !! parent (Path_of_str (strip (dst_edit protected_window))) =
    Some (Dir 365) /\
  can_write 365 = false /\
  _start_copy as_listed say_no protected_window example_world =
  (Ok (CannotCreate (PermissionError (Path_of_str (strip (dst_edit protected_window))))),
   example_world).
Proof.
  assert (H1 : collect_sources (w_fs example_world) (sources_list protected_window) <> [])
    by (vm_compute; discriminate).
  assert (H2 : single_source
                 (collect_sources (w_fs example_world) (sources_list protected_window))
               = true -> ends_with_sep (strip (dst_edit protected_window)) = true)
    by (vm_compute; discriminate).
  assert (H3 : strip (dst_edit protected_window) <> ""%string) by (vm_compute; discriminate).
  assert (H4 : w_fs example_world !! Path_of_str (strip (dst_edit protected_window)) = None)
    by (vm_compute; reflexivity).
  assert (H5 : w_fs example_world !!
                 parent (Path_of_str (strip (dst_edit protected_window))) = Some (Dir 365))
    by (vm_compute; reflexivity).
  assert (H6 : can_write 365 = false) by reflexivity.
  assert (P1 : plain_window (w_fs example_world) protected_window = true)
    by (vm_compute; reflexivity).
  split; [exact example_plain|]. split; [exact P1|].
  split; [exact H1|]. split; [exact H2|]. split; [exact H3|]. split; [exact H4|].
  split; [exact H5|]. split; [exact H6|].
  exact (start_copy_cannot_create as_listed say_no protected_window example_world 365
           example_plain P1 H1 H2 H3 H4 H5 H6).
Defined.

Lemma flat_untouched : sources_untouched flat_items.
Proof.
  intros a b Ha Hb.
  apply elem_of_cons in Ha as [->|Ha]; [|apply elem_of_cons in Ha as [->|Ha]; [|inversion Ha]];
  (apply elem_of_cons in Hb as [->|Hb]; [|apply elem_of_cons in Hb as [->|Hb]; [|inversion Hb]]);
  vm_compute; discriminate.
Qed.

Lemma flat_distinct : dsts_distinct flat_items.
Proof. unfold dsts_distinct. apply (bool_decide_unpack _). vm_compute. reflexivity. Qed.

Lemma flat_copyable pm ch : Forall (copyable example_world pm ch) flat_items.
Proof.
  repeat (constructor;
          [split; [eexists _, _; split; [vm_compute; reflexivity|reflexivity]|];
           split; [eexists; split; [vm_compute; reflexivity|reflexivity]|];
           split; [left; vm_compute; reflexivity|];
           intros _ _; vm_compute; reflexivity|]).
  constructor.
Qed.

Lemma no_call_raises : forall e, ~ pcb_raises (Some (batch_progress_cb never)) e.
Proof. intros e (a & t & i & n & w0 & w0' & H). cbn in H. discriminate. Qed.

Lemma never_never : forall h tr, Some never = Some h -> h tr = None.
Proof. intros h tr [= <-]. reflexivity. Qed.

Lemma flat_plain : forallb plain_item flat_items = true.
Proof. vm_compute. reflexivity. Qed.


Lemma flat_total_fits :
  fits_int (total_source_size (w_fs example_world) flat_items) = true.
Proof. vm_compute. reflexivity. Qed.

Lemma flat_count_fits : fits_int (Z.of_nat (List.length flat_items)) = true.
Proof. reflexivity. Qed.


Lemma CopyWorker_run_signals_witness :
  plain_world example_world = true /\ plain "/src/a" = true /\ plain "/out/a" = true /\
  fits_int (size_at (w_fs example_world) (Path_of_str "/src/a")) = true /\
  exists sig w1,
    CopyWorker_run toy_hash (fun _ => false) (PStr "/src/a") (PStr "/out/a") true true
      example_world = (Ok sig, w1) /\
    match sig with
    | SigDone res =>
        exists m0 d0 m1,
          let data := if bool_decide (Path_of_str "/src/a" = Path_of_str "/out/a")
                      then [] else d0 in
          w_fs example_world !! Path_of_str "/src/a" = Some (File m0 d0) /\
          w_fs w1 !! Path_of_str "/out/a" = Some (File m1 data) /\
          res = PDict [("bytes", PInt (Z.of_nat (List.length d0)));
                       ("hash", PStr (digest_of toy_hash BUFFER data));
                       ("dst", PStr (posix_str "/out/a"))]
    | SigFailed e => is_OSError e = true \/ e = CANCELLED
    end.
Proof.
  assert (P1 : plain "/src/a" = true) by (vm_compute; reflexivity).
  assert (P2 : plain "/out/a" = true) by (vm_compute; reflexivity).
  assert (P3 : fits_int (size_at (w_fs example_world) (Path_of_str "/src/a")) = true)
    by (vm_compute; reflexivity).
  split; [exact example_plain|]. split; [exact P1|]. split; [exact P2|].
  split; [exact P3|].
  exact (CopyWorker_run_signals toy_hash (fun _ => false) "/src/a" "/out/a" true true
           example_world example_plain P1 P2 P3).
Defined.

Lemma BatchCopyWorker_run_signals_witness :
  plain_world example_world = true /\ forallb plain_item flat_items = true /\
  sources_untouched flat_items /\
  fits_int (total_source_size (w_fs example_world) flat_items) = true /\
  fits_int (Z.of_nat (List.length flat_items)) = true /\
  exists sig w1,
    BatchCopyWorker_run toy_hash (fun _ => false) (py_items flat_items) true false
      example_world = (Ok sig, w1) /\
    match sig with
    | SigDone summary =>
        summary = batch_summary (w_fs example_world) flat_items /\
        (dsts_distinct flat_items ->
         Forall (in_place (w_fs example_world) (w_fs w1) true) flat_items)
    | SigFailed e => is_OSError e = true \/ e = CANCELLED
    end.
Proof.
  split; [exact example_plain|]. split; [exact flat_plain|].
  split; [exact flat_untouched|]. split; [exact flat_total_fits|].
  split; [exact flat_count_fits|].
  exact (BatchCopyWorker_run_signals toy_hash (fun _ => false) flat_items true false
           example_world example_plain flat_plain flat_untouched flat_total_fits
           flat_count_fits).
Defined.

